(** * trimesh.path.traversal: closed-path extraction, discretisation and
      arc-length resampling

    A shallow embedding of [trimesh/path/traversal.py].

    Conventions of the embedding.
    - A numpy [float] is modelled by a real number of [R]: every theorem
      below is about the exact-arithmetic reading of the code (no rounding,
      no [inf], no [nan]).  The one place where the code relies on an
      infinite float, [int(np.ceil(length / 0))], is modelled by the
      exception Python raises there.
    - An [(n, d)] float array is the list of its [n] rows, each row a list
      of [d] reals; where the code reads [shape], the array carries it.
    - Python exceptions are values of [exn]; a computation that may raise
      returns a [result].
    - Code that mutates the caller's entity objects in place threads the
      entity list through a state-and-exception monad [M]; the state
      survives an exception, as the objects do in Python. *)

From Stdlib Require Import Reals Lra Lia ZArith List Bool String Arith Sorted.
Import ListNotations.

Open Scope Z_scope.
Open Scope R_scope.

(** ** Exceptions and results *)

Inductive exn : Type :=
| ValueError (msg : string)
| AssertionError
| IndexError
| TypeError
| OverflowError
| UnboundLocalError.

Inductive result (A : Type) : Type :=
| Ok (a : A)
| Raise (e : exn).

Arguments Ok {A} a.
Arguments Raise {A} e.

Definition bind {A B : Type} (r : result A) (k : A -> result B) : result B :=
  match r with
  | Ok a => k a
  | Raise e => Raise e
  end.

Declare Scope result_scope.
Delimit Scope result_scope with result.
Notation "x <- r ;; k" := (bind r (fun x => k))
  (at level 61, r at next level, right associativity) : result_scope.
Notation "' pat <- r ;; k" := (bind r (fun x => match x with pat => k end))
  (at level 61, pat pattern, r at next level, right associativity)
  : result_scope.
Notation "r ;;; k" := (bind r (fun _ => k))
  (at level 61, right associativity) : result_scope.
Open Scope result_scope.

(** [assert cond] *)
Definition assert (cond : bool) : result unit :=
  if cond then Ok tt else Raise AssertionError.

Fixpoint mapM {A B : Type} (f : A -> result B) (l : list A) : result (list B) :=
  match l with
  | [] => Ok []
  | x :: t => y <- f x ;; ys <- mapM f t ;; Ok (y :: ys)
  end.

(** ** Comparisons of reals as booleans *)

Definition Rltb (x y : R) : bool := if Rlt_dec x y then true else false.
Definition Rleb (x y : R) : bool := if Rle_dec x y then true else false.
Definition Reqb (x y : R) : bool := if Req_dec_T x y then true else false.

(** ** The tolerances of [trimesh.constants.tol_path]

    The constants module is not part of the sources: every function that
    reads [tol.zero] or [tol.merge] takes the tolerances as a parameter. *)

Record Tolerance : Type := { zero : R; merge : R }.

(** The values trimesh ships ([zero = 1e-12], [merge = 1e-5]); used only to
    evaluate the functions at concrete inputs. *)
Definition tol_path : Tolerance :=
  {| zero := 1 / 1000000000000; merge := 1 / 100000 |}.

(** ** The numpy operations the module uses *)

Definition point : Type := list R.

Module np.

Fixpoint zip_with {A B C : Type} (f : A -> B -> C) (l : list A) (m : list B)
  : list C :=
  match l, m with
  | x :: l', y :: m' => f x y :: zip_with f l' m'
  | _, _ => []
  end.

(** Row operations: [p + q], [p - q], [p * k], [p / k]. *)
Definition add (p q : point) : point := zip_with Rplus p q.
Definition sub (p q : point) : point := zip_with Rminus p q.
Definition scale (p : point) (k : R) : point := map (fun x => x * k) p.
Definition divide (p : point) (k : R) : point := map (fun x => x / k) p.

(** [np.sum] of a one-dimensional array. *)
Definition sum (l : list R) : R := fold_right Rplus 0 l.

(** [np.linalg.norm] of one row. *)
Definition norm (p : point) : R := sqrt (sum (map (fun x => x * x) p)).

(** [np.diff(a, axis=0)]. *)
Fixpoint diff (a : list point) : list point :=
  match a with
  | p :: (q :: _) as rest => sub q p :: diff rest
  | _ => []
  end.

Fixpoint cumsum_from (acc : R) (l : list R) : list R :=
  match l with
  | [] => []
  | x :: t => (acc + x) :: cumsum_from (acc + x) t
  end.

(** [np.cumsum]. *)
Definition cumsum (l : list R) : list R := cumsum_from 0 l.

Definition len {A : Type} (l : list A) : Z := Z.of_nat (List.length l).

(** [a[i]] for an integer [i]: a negative index counts from the end, an
    index out of range raises [IndexError]. *)
Definition getitem {A : Type} (a : list A) (i : Z) : result A :=
  let j := if (i <? 0)%Z then (i + len a)%Z else i in
  if ((0 <=? j) && (j <? len a))%Z then
    match nth_error a (Z.to_nat j) with
    | Some x => Ok x
    | None => Raise IndexError
    end
  else Raise IndexError.

(** [a[idx]] for an index array [idx]. *)
Definition take {A : Type} (a : list A) (idx : list Z) : result (list A) :=
  mapM (getitem a) idx.

(** [a[:stop]]. *)
Definition slice_to {A : Type} (a : list A) (stop : Z) : list A :=
  if (stop <? 0)%Z then firstn (Z.to_nat (len a + stop)) a
  else firstn (Z.to_nat stop) a.

(** [a[::d]] for the two strides the module uses, [1] and [-1]. *)
Definition stride {A : Type} (a : list A) (d : Z) : list A :=
  if (d =? -1)%Z then rev a else a.

(** [np.searchsorted(a, v)] (side left) on a sorted array: the first
    index [i] with [v <= a[i]], [len(a)] when there is none.
    [_cum_norm], the only array searched, is sorted. *)
Fixpoint searchsorted (a : list R) (v : R) : Z :=
  match a with
  | [] => 0
  | x :: t => if Rltb x v then (1 + searchsorted t v)%Z else 0%Z
  end.

(** [np.clip]: [minimum(maximum(x, lo), hi)]. *)
Definition clip (x lo hi : Z) : Z := Z.min (Z.max x lo) hi.

(** [range(n)] as integers. *)
Definition range (n : Z) : list Z := map Z.of_nat (seq 0 (Z.to_nat n)).

Fixpoint set_last {A : Type} (l : list A) (v : A) : list A :=
  match l with
  | [] => []
  | [_] => [v]
  | x :: t => x :: set_last t v
  end.

(** [np.linspace(start, stop, num)], end point included. *)
Definition linspace (start stop : R) (num : Z) : result (list R) :=
  if (num <? 0)%Z then
    Raise (ValueError "Number of samples must be non-negative.")
  else
    let div := (num - 1)%Z in
    let delta := stop - start in
    let y := map IZR (range num) in
    let y := if (0 <? div)%Z
             then map (fun i => i * (delta / IZR div) + start) y
             else map (fun i => i * delta + start) y in
    Ok (if (1 <? num)%Z then set_last y stop else y).

(** [np.arange(start, stop, step)] on numpy floats:
    [ceil((stop - start) / step)] values [start + i * step].  With a step
    of 0 the quotient is nan or inf, numpy floats do not raise on the
    division, and the length cannot be computed: a [ValueError]. *)
Definition arange (start stop step : R) : result (list R) :=
  if Reqb step 0 then
    if Reqb (stop - start) 0
    then Raise (ValueError "arange: cannot compute length")
    else Raise (ValueError "Maximum allowed size exceeded")
  else Ok (map (fun i => start + IZR i * step)
               (range (Zceil ((stop - start) / step)))).

End np.

(** Modelled from the spec: [trimesh.util.unitize] is not part of the
    sources; the spec calls it the unit-vector normalizer, so a vector is
    divided by its Euclidean norm. *)
Definition unitize (v : point) : point := np.divide v (np.norm v).

(** ** PathSample *)

Module PathSample.

Record t : Type := mk {
  _points : list point;
  _vectors : list point;
  _norms : list R;
  _unit_vec : list point;
  length : R;
  _cum_norm : list R
}.

(** [PathSample.__init__]. *)
Definition __init__ (tol : Tolerance) (points : list point) : t :=
  let vectors := np.diff points in
  let norms := map np.norm vectors in
  (* nonzero = norms > tol.zero;
     unit_vec = vectors.copy(); unit_vec[nonzero] /= norms[nonzero] *)
  let unit_vec :=
    np.zip_with
      (fun v n => if Rltb (zero tol) n then np.divide v n else v)
      vectors norms in
  {| _points := points;
     _vectors := vectors;
     _norms := norms;
     _unit_vec := unit_vec;
     length := np.sum norms;
     _cum_norm := np.cumsum norms |}.

(** [PathSample.sample] on a one-dimensional array of distances. *)
Definition sample (self : t) (distances : list R) : result (list point) :=
  let positions := map (np.searchsorted (_cum_norm self)) distances in
  let positions :=
    map (fun p => np.clip p 0 (np.len (_unit_vec self) - 1)) positions in
  offsets <- np.take (0 :: _cum_norm self) positions ;;
  let projection := np.zip_with Rminus distances offsets in
  direction <- np.take (_unit_vec self) positions ;;
  origin <- np.take (_points self) positions ;;
  Ok (np.zip_with np.add origin (np.zip_with np.scale direction projection)).

(** The expression asserted at the end of [truncate]. *)
Definition truncate_check (tol : Tolerance) (truncated : list point)
    (distance : R) : bool :=
  Rltb (np.sum (map np.norm (np.diff truncated)) - distance) (merge tol).

(** [PathSample.truncate]. *)
Definition truncate (tol : Tolerance) (self : t) (distance : R)
  : result (list point) :=
  let position := np.searchsorted (_cum_norm self) distance in
  c <- np.getitem (_cum_norm self) (position - 1) ;;
  let offset := distance - c in
  truncated <-
    (if Rltb offset (merge tol) then
       Ok (np.slice_to (_points self) (position + 1))
     else
       seg <- np.take (_points self) [position; (position + 1)%Z] ;;
       let vector := unitize (List.concat (np.diff seg)) in
       let vector := np.scale vector offset in
       p <- np.getitem (_points self) position ;;
       let endpoint := np.add p vector in
       Ok (np.slice_to (_points self) (position + 1) ++ [endpoint])) ;;
  assert (truncate_check tol truncated distance) ;;;
  Ok truncated.

End PathSample.

(** ** resample_path *)

(** Lines 341-353: sampling once [count] and [step] are settled. *)
Definition resample_samples (tol : Tolerance) (points : list point)
    (sampler : PathSample.t) (count : option Z) (step : option R)
  : result (list point) :=
  samples <-
    match count, step with
    | Some c, _ => np.linspace 0 (PathSample.length sampler) c
    | None, Some st => np.arange 0 (PathSample.length sampler) st
    | None, None => Raise UnboundLocalError
    end ;;
  resampled <- PathSample.sample sampler samples ;;
  pe <- np.take points [0%Z; (-1)%Z] ;;
  re <- np.take resampled [0%Z; (-1)%Z] ;;
  let check := map np.norm (np.zip_with np.sub pe re) in
  c0 <- np.getitem check 0 ;;
  assert (Rltb c0 (merge tol)) ;;;
  match count with
  | Some _ =>
      c1 <- np.getitem check 1 ;;
      assert (Rltb c1 (merge tol)) ;;;
      Ok resampled
  | None => Ok resampled
  end.


Definition resample_path (tol : Tolerance) (points : list point)
    (count : option Z) (step : option R) (step_round : bool)
  : result (list point) :=
  match count, step with
  | Some _, Some _ => Raise (ValueError "Only step OR count can be specified")
  | None, None => Raise (ValueError "Either step or count must be specified")
  | _, _ =>
      let sampler := PathSample.__init__ tol points in
      match step with
      | Some st =>
          if step_round then
            if Rleb (PathSample.length sampler) st then
              np.take points [0%Z; (-1)%Z]
            else if Reqb st 0 then
              (* length / 0 is inf, and int(inf) raises *)
              Raise OverflowError
            else
              let count := Some (Zceil (PathSample.length sampler / st)) in
              resample_samples tol points sampler count step
          else resample_samples tol points sampler count step
      | None => resample_samples tol points sampler count step
      end
  end.


(** ** Entities and the vertex graph *)

(** The [vertices] array, [(n, dimension)] floats. *)
Record ndarray : Type := { shape : nat * nat; rows : list point }.

Module Entity.

(** The entity classes are not part of the sources.  An entity holds the
    ordered vertex indices [points] and the flag [closed]. *)
Record t : Type := mk { points : list nat; closed : bool }.

(** Modelled from the spec: [Entity.end_points] is not part of the sources;
    the spec describes it as the pair of the two terminal vertices of the
    entity, swapped when [points] is reversed: the first and the last of
    [points]. *)
Definition end_points (e : t) : result (nat * nat) :=
  a <- np.getitem (points e) 0 ;;
  b <- np.getitem (points e) (-1) ;;
  Ok (a, b).

(** Modelled from the spec: [Entity.nodes] is not part of the sources; the
    spec describes it as one vertex-index pair per internal edge segment. *)
Definition nodes (e : t) : list (nat * nat) :=
  combine (points e) (tl (points e)).

End Entity.

(** [networkx.Graph], as far as the module uses it: undirected edges that
    carry the attribute [entity_index]. *)
Module nx.

Definition Graph : Type := list (nat * nat * nat).

Definition same_edge (u v a b : nat) : bool :=
  ((u =? a)%nat && (v =? b)%nat) || ((u =? b)%nat && (v =? a)%nat).

(** [graph.add_edge(u, v, entity_index=index)]: adding an edge again
    replaces its attribute. *)
Definition add_edge (graph : Graph) (u v index : nat) : Graph :=
  (u, v, index)
    :: filter (fun '(a, b, _) => negb (same_edge u v a b)) graph.

(** [graph.add_edges_from(ebunch, entity_index=index)]. *)
Definition add_edges_from (graph : Graph) (ebunch : list (nat * nat))
    (index : nat) : Graph :=
  fold_left (fun g '(u, v) => add_edge g u v index) ebunch graph.

(** [graph.get_edge_data(u, v)]: the attribute of the edge, [None] when
    there is no such edge. *)
Fixpoint get_edge_data (graph : Graph) (u v : nat) : option nat :=
  match graph with
  | [] => None
  | (a, b, index) :: rest =>
      if same_edge u v a b then Some index else get_edge_data rest u v
  end.

End nx.

Definition enumerate {A : Type} (l : list A) : list (nat * A) :=
  combine (seq 0 (List.length l)) l.

Definition vertex_graph (entities : list Entity.t) : nx.Graph * list nat :=
  fold_left
    (fun '(graph, closed) '(index, entity) =>
       if Entity.closed entity then (graph, closed ++ [index])
       else (nx.add_edges_from graph (Entity.nodes entity) index, closed))
    (enumerate entities) ([], []).

(** Modelled from the spec: [trimesh.grouping.unique_ordered] is not part
    of the sources; the spec says it deduplicates while preserving
    first-occurrence order. *)
Fixpoint unique_ordered (data : list nat) : list nat :=
  match data with
  | [] => []
  | x :: rest => x :: filter (fun y => negb (y =? x)%nat) (unique_ordered rest)
  end.

(** ** In-place mutation of the entities: a state-and-exception monad *)

Definition M (A : Type) : Type := list Entity.t -> result A * list Entity.t.

Definition ret {A : Type} (a : A) : M A := fun s => (Ok a, s).

Definition bindM {A B : Type} (m : M A) (k : A -> M B) : M B :=
  fun s =>
    match m s with
    | (Ok a, s') => k a s'
    | (Raise e, s') => (Raise e, s')
    end.

Definition lift {A : Type} (r : result A) : M A := fun s => (r, s).

Definition get_entities : M (list Entity.t) := fun s => (Ok s, s).

Notation "x <~ m ;; k" := (bindM m (fun x => k))
  (at level 61, m at next level, right associativity) : result_scope.
Notation "' pat <~ m ;; k" := (bindM m (fun x => match x with pat => k end))
  (at level 61, pat pattern, m at next level, right associativity)
  : result_scope.
Notation "m ;;~ k" := (bindM m (fun _ => k))
  (at level 61, right associativity) : result_scope.

(** [entities[i]] *)
Definition entity_at (i : nat) : M Entity.t :=
  fun s => (np.getitem s (Z.of_nat i), s).

Fixpoint set_nth {A : Type} (l : list A) (i : nat) (v : A) : list A :=
  match l, i with
  | [], _ => []
  | _ :: t, O => v :: t
  | x :: t, S i' => x :: set_nth t i' v
  end.

(** [entities[i].points = entities[i].points[::d]] *)
Definition reverse_points (i : nat) (d : Z) : M unit :=
  e <~ entity_at i ;;
  fun s =>
    (Ok tt,
     set_nth s i (Entity.mk (np.stride (Entity.points e) d) (Entity.closed e))).

Fixpoint for_each {A : Type} (body : A -> M unit) (l : list A) : M unit :=
  match l with
  | [] => ret tt
  | x :: t => body x ;;~ for_each body t
  end.

(** ** vertex_to_entity_path *)

Definition not_connected : exn := ValueError "edges aren't connected!".

Definition edge_direction (a b : nat * nat) : result (Z * Z) :=
  if (fst a =? fst b)%nat then Ok ((-1)%Z, 1%Z)
  else if (fst a =? snd b)%nat then Ok ((-1)%Z, (-1)%Z)
  else if (snd a =? fst b)%nat then Ok (1%Z, 1%Z)
  else if (snd a =? snd b)%nat then Ok (1%Z, (-1)%Z)
  else Raise not_connected.

(** Lines 104-108: the entity of every edge of the cyclic vertex path, one
    lookup per [i] in [range(len(vertex_path) + 1)]. *)
Definition edge_entities (vertex_path : list nat) (graph : nx.Graph)
  : result (list nat) :=
  mapM
    (fun i =>
       u <- np.getitem vertex_path (i mod np.len vertex_path) ;;
       v <- np.getitem vertex_path ((1 + i) mod np.len vertex_path) ;;
       match nx.get_edge_data graph u v with
       | Some entity_index => Ok entity_index
       | None => Raise TypeError
       end)
    (np.range (np.len vertex_path + 1)).

(** [zip(round_trip[:-1], round_trip[1:])] *)
Definition round_trip (entity_path : list nat) : result (list (nat * nat)) :=
  first <- np.getitem entity_path 0 ;;
  let round_trip := entity_path ++ [first] in
  Ok (combine (np.slice_to round_trip (-1)) (tl round_trip)).

(** The body of the loop of lines 116-120. *)
Definition align (ab : nat * nat) : M unit :=
  let '(a, b) := ab in
  ea <~ entity_at a ;;
  pa <~ lift (Entity.end_points ea) ;;
  eb <~ entity_at b ;;
  pb <~ lift (Entity.end_points eb) ;;
  '(da, db) <~ lift (edge_direction pa pb) ;;
  reverse_points a da ;;~
  reverse_points b db.

Section Traversal.

(** [trimesh.path.util.is_ccw], the counter-clockwise test on a ring of
    points, is not part of the sources: a parameter. *)
Variable is_ccw : list point -> bool.

(** [networkx.cycle_basis]: a parameter. *)
Variable cycle_basis : nx.Graph -> list (list nat).

(** [entity.discrete(vertices, scale=scale)], dispatched on the class of
    the entity; the classes are not part of the sources: a parameter. *)
Variable discrete : Entity.t -> ndarray -> R -> list point.

(** Lines 94-99. *)
Definition ccw_direction (vertex_path : list nat) (vertices : option ndarray)
  : result Z :=
  match vertices with
  | None => Ok 1%Z
  | Some vertices =>
      first <- np.getitem vertex_path 0 ;;
      ring <- np.take (rows vertices)
                (map Z.of_nat (vertex_path ++ [first])) ;;
      let ccw_check := is_ccw ring in
      Ok ((if ccw_check then 1 else 0) * 2 - 1)%Z
  end.

(** Lines 94-110: the entity path before the entities are aligned. *)
Definition entity_sequence (vertex_path : list nat) (graph : nx.Graph)
    (vertices : option ndarray) : result (list nat) :=
  ccw_direction <- ccw_direction vertex_path vertices ;;
  entity_path <- edge_entities vertex_path graph ;;
  Ok (np.stride (unique_ordered entity_path) ccw_direction).

Definition vertex_to_entity_path (vertex_path : list nat) (graph : nx.Graph)
    (vertices : option ndarray) : M (list nat) :=
  entity_path <~ lift (entity_sequence vertex_path graph vertices) ;;
  round_trip <~ lift (round_trip entity_path) ;;
  for_each align round_trip ;;~
  ret entity_path.

Definition closed_paths (vertices : ndarray) : M (list (list nat)) :=
  entities <~ get_entities ;;
  let '(graph, closed) := vertex_graph entities in
  let entity_paths := map (fun c => [c]) closed in
  let vertex_paths := cycle_basis graph in
  fold_left
    (fun (acc : M (list (list nat))) vertex_path =>
       entity_paths <~ acc ;;
       if (np.len vertex_path <? 2)%Z then ret entity_paths
       else
         entity_path <~
           vertex_to_entity_path vertex_path graph (Some vertices) ;;
         ret (entity_paths ++ [entity_path]))
    vertex_paths (ret entity_paths).

(** ** discretize_path *)

Definition discretize_path (entities : list Entity.t) (vertices : ndarray)
    (path : list nat) (scale : R) : result (list point) :=
  let path_len := np.len path in
  if (path_len =? 0)%Z then Raise (ValueError "Cannot discretize empty path!")
  else
    discrete <-
      (if (path_len =? 1)%Z then
         entity_id <- np.getitem path 0 ;;
         entity <- np.getitem entities (Z.of_nat entity_id) ;;
         Ok (discrete entity vertices scale)
       else
         curves <-
           mapM
             (fun '(i, entity_id) =>
                entity <- np.getitem entities (Z.of_nat entity_id) ;;
                let current := discrete entity vertices scale in
                if (path_len - 1 <=? Z.of_nat i)%Z then Ok current
                else Ok (np.slice_to current (-1)))
             (enumerate path) ;;
         Ok (List.concat curves)) ;;
    if (snd (shape vertices) =? 2)%nat && negb (is_ccw discrete)
    then Ok (rev discrete)
    else Ok discrete.

End Traversal.

(** ** Instances of the parameters, for evaluation at concrete inputs *)

(** Modelled from the spec: [trimesh.path.util.is_ccw] is not part of the
    sources; the spec describes it as the signed-area test over a closed
    ring of 2D points.  The sum of [(x1 - x0) * (y0 + y1)] over the edges is
    minus twice the enclosed area: the ring is counter-clockwise when it is
    negative. *)
Fixpoint ring_sum (ring : list point) : R :=
  match ring with
  | [x0; y0] :: (([x1; y1] :: _) as rest) =>
      (x1 - x0) * (y0 + y1) + ring_sum rest
  | _ => 0
  end.

Definition area_is_ccw (ring : list point) : bool :=
  Rltb (ring_sum ring * (1 / 2)) 0.

(** Modelled from the spec: the entity classes are not part of the sources;
    a polyline entity discretises to the coordinates of its vertices,
    [vertices[points]], in the order of [points]. *)
Definition line_discrete (e : Entity.t) (vertices : ndarray) (scale : R)
  : list point :=
  match np.take (rows vertices) (map Z.of_nat (Entity.points e)) with
  | Ok curve => curve
  | Raise _ => []
  end.

(** Sample inputs: a triangle of three line entities, listed in mixed
    directions; a closed polyline through three vertices that run clockwise;
    and an open polyline 0-1-2-3 whose end is tied back to vertex 1 by a
    line, so that the loop 1-2-3 uses only a part of the polyline. *)
Definition triangle : list Entity.t :=
  [Entity.mk [1; 0]%nat false; Entity.mk [1; 2]%nat false;
   Entity.mk [0; 2]%nat false].

Definition closed_triangle : Entity.t := Entity.mk [0; 1; 2; 0]%nat true.

Definition clockwise_vertices : ndarray :=
  {| shape := (3%nat, 2%nat); rows := [[0; 0]; [0; 1]; [1; 1]] |}.

Definition tied_polyline : list Entity.t :=
  [Entity.mk [0; 1; 2; 3]%nat false; Entity.mk [3; 1]%nat false].

(** ** Notions used in the statements *)

(** The end points of entity [a] of the entity list, when it has any. *)
Definition ends (entities : list Entity.t) (a : nat) : option (nat * nat) :=
  match nth_error entities a with
  | Some e =>
      match Entity.end_points e with
      | Ok p => Some p
      | Raise _ => None
      end
  | None => None
  end.

(** Two pairs of end points have a vertex in common. *)
Definition shares (pa pb : nat * nat) : Prop :=
  fst pa = fst pb \/ fst pa = snd pb \/ snd pa = fst pb \/ snd pa = snd pb.

Definition connected (entities : list Entity.t) (ab : nat * nat) : Prop :=
  exists pa pb,
    ends entities (fst ab) = Some pa /\ ends entities (snd ab) = Some pb
    /\ shares pa pb.

Definition unconnected (entities : list Entity.t) (ab : nat * nat) : Prop :=
  exists pa pb,
    ends entities (fst ab) = Some pa /\ ends entities (snd ab) = Some pb
    /\ ~ shares pa pb.

(** Entity [a] runs between the vertices [u] and [v], in either direction. *)
Definition joins (entities : list Entity.t) (a u v : nat) : Prop :=
  ends entities a = Some (u, v) \/ ends entities a = Some (v, u).

(** The entities of [path] are linked one after the other, from the vertex
    [u] through the [junctions]. *)
Fixpoint linked (link : nat -> nat -> nat -> Prop) (u : nat)
    (path junctions : list nat) : Prop :=
  match path, junctions with
  | [], [] => True
  | a :: path', v :: junctions' =>
      link a u v /\ linked link v path' junctions'
  | _, _ => False
  end.

(** Every entity of [path] runs between its two junctions, in either
    direction. *)
Definition chain (entities : list Entity.t)
  : nat -> list nat -> list nat -> Prop :=
  linked (joins entities).

(** Every entity of [path] runs from its first junction to its second. *)
Definition forward (entities : list Entity.t)
  : nat -> list nat -> list nat -> Prop :=
  linked (fun a u v => ends entities a = Some (u, v)).

(** The entities of [path] form a simple closed loop: consecutive entities
    meet at a junction vertex, the last meets the first, and the junctions
    are pairwise distinct. *)
Definition simple_cycle (entities : list Entity.t) (path : list nat) : Prop :=
  exists junctions,
    NoDup junctions /\ chain entities (last junctions 0%nat) path junctions.

(** [entities[a].points[-1] == entities[b].points[0]] *)
Definition adjacent (entities : list Entity.t) (ab : nat * nat) : Prop :=
  exists ea eb x,
    nth_error entities (fst ab) = Some ea
    /\ nth_error entities (snd ab) = Some eb
    /\ np.getitem (Entity.points ea) (-1) = Ok x
    /\ np.getitem (Entity.points eb) 0 = Ok x.

(** ** Notions used in the proofs *)

Definition swap (p : nat * nat) : nat * nat := (snd p, fst p).

(** The end points of an entity after [points[::d]]. *)
Definition orient (d : Z) (p : nat * nat) : nat * nat :=
  if (d =? -1)%Z then swap p else p.

(** The ends of every entity after [align] has run on the pair [(a, b)]. *)
Definition aligned_ends (entities : list Entity.t) (a b : nat)
    (pa pb : nat * nat) (da db : Z) (c : nat) : option (nat * nat) :=
  if (c =? b)%nat then
    Some (orient db (if (b =? a)%nat then orient da pa else pb))
  else if (c =? a)%nat then Some (orient da pa)
  else ends entities c.

(** Two entity lists whose entities have the same end points, up to
    direction. *)
Definition same_ends (es es' : list Entity.t) : Prop :=
  forall c,
    match ends es c with
    | Some p => ends es' c = Some p \/ ends es' c = Some (swap p)
    | None => ends es' c = None
    end.

Definition no_ends (entities : list Entity.t) (ab : nat * nat) : Prop :=
  ends entities (fst ab) = None \/ ends entities (snd ab) = None.

(** [PathSample.sample] on one distance: the row of the result that belongs
    to [distance]. *)
Definition sample_at (self : PathSample.t) (distance : R) : result point :=
  let position :=
    np.clip (np.searchsorted (PathSample._cum_norm self) distance) 0
      (np.len (PathSample._unit_vec self) - 1) in
  offset <- np.getitem (0 :: PathSample._cum_norm self) position ;;
  direction <- np.getitem (PathSample._unit_vec self) position ;;
  origin <- np.getitem (PathSample._points self) position ;;
  Ok (np.add origin (np.scale direction (distance - offset))).

(** The entity has the edge between [u] and [v] among its nodes, in either
    direction. *)
Definition has_edge (e : Entity.t) (u v : nat) : Prop :=
  In (u, v) (Entity.nodes e) \/ In (v, u) (Entity.nodes e).

(** The entity [e'] is the entity [e] with its points as they were or
    reversed. *)
Definition flipped (e e' : Entity.t) : Prop :=
  Entity.closed e' = Entity.closed e
  /\ (Entity.points e' = Entity.points e
      \/ Entity.points e' = rev (Entity.points e)).

(** From the entity list [s] to [s'] entities were at most reversed, and
    only entities with an index in [cs] were touched. *)
Definition only_reverses (cs : list nat) (s s' : list Entity.t) : Prop :=
  Forall2 flipped s s'
  /\ forall c, ~ In c cs -> nth_error s' c = nth_error s c.

(** Every run of the computation [m] at most reverses entities of [cs]. *)
Definition preserves {A : Type} (cs : list nat) (m : M A) : Prop :=
  forall s r s', m s = (r, s') -> only_reverses cs s s'.

(** The pair of entities already runs head to tail through a vertex [v]
    that differs from the start [u] of the first, whose start is not the
    end [w] of the second either. *)
Definition aligned (entities : list Entity.t) (ab : nat * nat) : Prop :=
  exists u v w,
    ends entities (fst ab) = Some (u, v)
    /\ ends entities (snd ab) = Some (v, w)
    /\ u <> v /\ u <> w.

(** The entities of [triangle], each running the way the loop 0, 1, 2
    does. *)
Definition aligned_triangle : list Entity.t :=
  [Entity.mk [0; 1]%nat false; Entity.mk [1; 2]%nat false;
   Entity.mk [2; 0]%nat false].

(** The entity indices that label the edges of a graph. *)
Definition edge_labels (graph : nx.Graph) : list nat := map snd graph.

(** A cycle basis for evaluation: the one cycle 0, 1, 2 when the graph
    has an edge, none otherwise. *)
Definition triangle_basis (graph : nx.Graph) : list (list nat) :=
  match graph with
  | [] => []
  | _ :: _ => [[0; 1; 2]%nat]
  end.

(** The corners of a counter-clockwise triangle. *)
Definition triangle_vertices : ndarray :=
  {| shape := (3%nat, 2%nat); rows := [[0; 0]; [1; 0]; [1; 1]] |}.

(** Two triangles 0-1-2 and 0-1-3 that share the line 0-1, the first
    counter-clockwise and the second clockwise, with the cycle basis made
    of the two. *)
Definition two_triangles : list Entity.t :=
  [Entity.mk [0; 1]%nat false; Entity.mk [1; 2]%nat false;
   Entity.mk [2; 0]%nat false; Entity.mk [1; 3]%nat false;
   Entity.mk [3; 0]%nat false].

Definition two_triangles_vertices : ndarray :=
  {| shape := (4%nat, 2%nat); rows := [[0; 0]; [1; 0]; [1; 1]; [1; -1]] |}.

Definition two_triangles_basis (graph : nx.Graph) : list (list nat) :=
  [[0; 1; 2]; [0; 1; 3]]%nat.

(** ** connected_open *)

(** Python sets of node indices, as lists without duplicates. *)
Module pyset.

(** [x in s] *)
Definition mem (x : nat) (s : list nat) : bool := existsb (Nat.eqb x) s.

(** [s.add(x)] *)
Definition add (s : list nat) (x : nat) : list nat :=
  if mem x s then s else s ++ [x].

(** [set(l)] *)
Definition of_list (l : list nat) : list nat := fold_left add l [].

(** [s.difference(t)] *)
Definition difference (s t : list nat) : list nat :=
  filter (fun x => negb (mem x t)) s.

End pyset.

Section ConnectedOpen.

(** [graph.degree().items()], the pairs of a node and its degree, in the
    order of the dictionary: a parameter. *)
Variable degree_items : nx.Graph -> list (nat * nat).

(** [graph.nodes()]: a parameter. *)
Variable nodes : nx.Graph -> list nat.

(** [networkx.node_connected_component]: a parameter. *)
Variable node_connected_component : nx.Graph -> nat -> list nat.

(** The body of the loop of lines 128-133. *)
Definition mark_broken (graph : nx.Graph) (broken : list nat)
    (item : nat * nat) : list nat :=
  let '(node, degree) := item in
  if (degree =? 2)%nat then broken
  else if pyset.mem node broken then broken
  else fold_left pyset.add (node_connected_component graph node) broken.

Definition connected_open (graph : nx.Graph) : list nat * list nat :=
  let broken := fold_left (mark_broken graph) (degree_items graph) [] in
  let okay := pyset.difference (pyset.of_list (nodes graph)) broken in
  (broken, okay).

End ConnectedOpen.

(** The nodes, degrees and components of the graph made of the open path
    0, 1, 2 and the ring 3, 4, 5, for evaluation. *)
Definition sample_nodes (graph : nx.Graph) : list nat :=
  [0; 1; 2; 3; 4; 5]%nat.

Definition sample_degree (graph : nx.Graph) : list (nat * nat) :=
  [(0, 1); (1, 2); (2, 1); (3, 2); (4, 2); (5, 2)]%nat.

Definition sample_component (graph : nx.Graph) (node : nat) : list nat :=
  if (node <? 3)%nat then [0; 1; 2]%nat else [3; 4; 5]%nat.

(** * Theorems *)

(** ** Deciding comparisons of reals *)

Lemma Rltb_true x y : x < y -> Rltb x y = true.
Proof. unfold Rltb; destruct (Rlt_dec x y); tauto. Qed.

Lemma Rltb_false x y : y <= x -> Rltb x y = false.
Proof. unfold Rltb; destruct (Rlt_dec x y); [lra|reflexivity]. Qed.

Lemma Rltb_spec x y : Rltb x y = true <-> x < y.
Proof. unfold Rltb; destruct (Rlt_dec x y); split; auto; discriminate. Qed.

Lemma Rleb_true x y : x <= y -> Rleb x y = true.
Proof. unfold Rleb; destruct (Rle_dec x y); tauto. Qed.

Lemma Rleb_false x y : y < x -> Rleb x y = false.
Proof. unfold Rleb; destruct (Rle_dec x y); [lra|reflexivity]. Qed.

Lemma Reqb_true x y : x = y -> Reqb x y = true.
Proof. unfold Reqb; destruct (Req_dec_T x y); tauto. Qed.

Lemma Reqb_false x y : x <> y -> Reqb x y = false.
Proof. unfold Reqb; destruct (Req_dec_T x y); tauto. Qed.

(** Settle every comparison of the goal that linear arithmetic decides. *)
Ltac Rbool :=
  repeat match goal with
  | |- context [Rltb ?x ?y] =>
      first [rewrite (Rltb_true x y) by lra | rewrite (Rltb_false x y) by lra]
  | |- context [Rleb ?x ?y] =>
      first [rewrite (Rleb_true x y) by lra | rewrite (Rleb_false x y) by lra]
  | |- context [Reqb ?x ?y] =>
      first [rewrite (Reqb_true x y) by lra | rewrite (Reqb_false x y) by lra]
  end.

(** Run the list and integer part of a computation, leaving the reals. *)
Ltac Rstep :=
  cbv - [Rplus Rmult Rminus Rdiv Rinv Ropp IZR sqrt Rltb Rleb Reqb Zceil
         np.norm zero merge];
  cbn [zero merge].

(** Replace the ceiling of the goal by its value [z]. *)
Ltac Rceil z :=
  match goal with
  | |- context [Zceil ?x] => rewrite (Zceil_eq z x) by lra
  end.

(** ** Norms, sums and cumulative sums *)

Lemma norm_nonneg (v : point) : 0 <= np.norm v.
Proof. apply sqrt_pos. Qed.

Lemma norm_value (v : point) (c : R) :
  0 <= c -> np.sum (map (fun x => x * x) v) = c * c -> np.norm v = c.
Proof.
  intros Hc Hv. unfold np.norm. rewrite Hv. now apply sqrt_square.
Qed.

Lemma sum_norms_nonneg (vs : list point) : 0 <= np.sum (map np.norm vs).
Proof.
  induction vs as [|v vs IH]; simpl; [lra|].
  pose proof (norm_nonneg v); lra.
Qed.

Lemma cumsum_from_last (l : list R) (acc d : R) :
  l <> [] -> last (np.cumsum_from acc l) d = acc + np.sum l.
Proof.
  revert acc; induction l as [|x l IH]; intros acc Hl; [congruence|].
  destruct l as [|y l]; [simpl; lra|].
  specialize (IH (acc + x) ltac:(discriminate)).
  simpl in IH |- *. rewrite IH. lra.
Qed.

Lemma cumsum_from_length (l : list R) (acc : R) :
  List.length (np.cumsum_from acc l) = List.length l.
Proof. revert acc; induction l; intros; simpl; auto. Qed.

Lemma getitem_nth {A : Type} (a : list A) (n : nat) (x : A) :
  nth_error a n = Some x -> np.getitem a (Z.of_nat n) = Ok x.
Proof.
  intros H. unfold np.getitem, np.len.
  assert (n < List.length a)%nat by (apply nth_error_Some; congruence).
  replace (Z.of_nat n <? 0)%Z with false by (symmetry; apply Z.ltb_ge; lia).
  replace (0 <=? Z.of_nat n)%Z with true by (symmetry; apply Z.leb_le; lia).
  replace (Z.of_nat n <? Z.of_nat (List.length a))%Z with true
    by (symmetry; apply Z.ltb_lt; lia).
  simpl. now rewrite Nat2Z.id, H.
Qed.

Lemma nth_error_last {A : Type} (a : list A) (d : A) :
  a <> [] -> nth_error a (List.length a - 1) = Some (last a d).
Proof.
  induction a as [|x a IH]; intros Ha; [congruence|].
  destruct a as [|y a]; [reflexivity|].
  specialize (IH ltac:(discriminate)).
  cbn [List.length Nat.sub] in IH |- *.
  rewrite Nat.sub_0_r in *. exact IH.
Qed.

Lemma getitem_last {A : Type} (a : list A) (d : A) :
  a <> [] -> np.getitem a (-1) = Ok (last a d).
Proof.
  intros Ha. unfold np.getitem, np.len.
  assert (0 < List.length a)%nat by (destruct a; simpl; [congruence|lia]).
  change (-1 <? 0)%Z with true. cbv iota.
  destruct (Z.leb_spec 0 (-1 + Z.of_nat (List.length a))); [|lia].
  destruct (Z.ltb_spec (-1 + Z.of_nat (List.length a))
              (Z.of_nat (List.length a))); [|lia].
  cbn [andb].
  replace (Z.to_nat (-1 + Z.of_nat (List.length a)))
    with (List.length a - 1)%nat by lia.
  now rewrite (nth_error_last a d Ha).
Qed.

Lemma getitem_raises {A : Type} (a : list A) (i : Z) (e : exn) :
  np.getitem a i = Raise e -> e = IndexError.
Proof.
  unfold np.getitem.
  destruct (_ && _); [destruct (nth_error _ _)|]; congruence.
Qed.

(** ** resample_path with a rounded step (C1) *)

(** In general: for every length [L] and every step with [0 < step < L],
    the sample distances [np.linspace(0, L, ceil(L / step))] start with 0
    and a second distance that exceeds the step. *)
Lemma rounded_count_spacing (L step : R) :
  0 < step -> step < L ->
  exists s rest,
    np.linspace 0 L (Zceil (L / step)) = Ok (0 :: s :: rest) /\ step < s.
Proof.
  intros Hs HL.
  pose proof (Zceil_bound (L / step)) as [Hlo Hhi].
  assert (Hi : 0 < / step) by (apply Rinv_0_lt_compat; lra).
  assert (H1 : 1 < L / step).
  { unfold Rdiv. replace 1 with (step * / step) by (field; lra).
    apply Rmult_lt_compat_r; lra. }
  set (count := Zceil (L / step)) in *.
  assert (Hc : (2 <= count)%Z).
  { assert (1 < IZR count) by lra. apply lt_IZR in H. lia. }
  assert (Hd : 0 < IZR (count - 1)) by (apply IZR_lt; lia).
  assert (Hsp : step < (L - 0) / IZR (count - 1)).
  { rewrite minus_IZR in *.
    assert (Hm : (IZR count - 1) * step < L).
    { replace L with (L / step * step) by (field; lra).
      apply Rmult_lt_compat_r; lra. }
    apply Rmult_lt_reg_r with (IZR count - 1); [lra|].
    unfold Rdiv. rewrite Rmult_assoc, Rinv_l by lra. lra. }
  unfold np.linspace, np.range.
  destruct (Z.ltb_spec count 0); [lia|].
  destruct (Z.ltb_spec 0 (count - 1)); [|lia].
  destruct (Z.ltb_spec 1 count); [|lia].
  destruct (Z.to_nat count) as [|[|k]] eqn:E; try lia.
  cbn [seq map]. change (IZR (Z.of_nat 0)) with 0.
  change (IZR (Z.of_nat 1)) with 1.
  destruct k as [|k].
  - cbn [seq map np.set_last]. exists L, []. split; [|lra].
    do 2 f_equal. lra.
  - cbn [seq map np.set_last].
    match goal with
    | |- context [Ok (?a :: _)] => replace a with 0 by lra
    end.
    eexists _, _. split; [reflexivity|]. lra.
Qed.

(** C1 (evaluation of the code): resampling the segment [(0,0), (10,0)]
    with [step = 3] and [step_round = True] returns the four points
    (0,0), (10/3,0), (20/3,0), (10,0): the last sample is the end point,
    but [count = ceil(10 / 3) = 4] is used as the number of samples, so
    the spacing is 10/3, which exceeds the requested step 3. *)
Theorem resample_step_round_segment (tol : Tolerance) :
  0 < merge tol -> zero tol < 10 ->
  resample_path tol [[0; 0]; [10; 0]] None (Some 3) true
  = Ok [[0; 0]; [10 / 3; 0]; [20 / 3; 0]; [10; 0]]
  /\ 3 < np.norm (np.sub [10 / 3; 0] [0; 0]).
Proof.
  intros Hm Hz. split.
  - Rstep.
    rewrite !(norm_value [10 - 0; 0 - 0] 10) by (cbn; lra).
    Rbool. Rceil 4%Z.
    Rstep. Rbool. Rstep. Rbool. Rstep.
    repeat match goal with
    | |- context [np.norm ?v] => rewrite (norm_value v 0) by (cbn; lra)
    end.
    Rbool. Rstep.
    repeat (f_equal; try lra).
  - rewrite (norm_value _ (10 / 3)) by (cbn; lra). lra.
Qed.

Lemma resample_step_round_segment_witness :
  0 < merge tol_path /\ zero tol_path < 10 /\
  resample_path tol_path [[0; 0]; [10; 0]] None (Some 3) true
  = Ok [[0; 0]; [10 / 3; 0]; [20 / 3; 0]; [10; 0]].
Proof.
  assert (Hm : 0 < merge tol_path) by (simpl; lra).
  assert (Hz : zero tol_path < 10) by (simpl; lra).
  split; [exact Hm|]. split; [exact Hz|].
  exact (proj1 (resample_step_round_segment tol_path Hm Hz)).
Defined.

(** ** PathSample.truncate (C2, C9) *)

Lemma init_cum_norm (tol : Tolerance) (p q : point) (rest : list point) :
  PathSample._cum_norm (PathSample.__init__ tol (p :: q :: rest))
  = (0 + np.norm (np.sub q p))
      :: np.cumsum_from (0 + np.norm (np.sub q p))
           (map np.norm (np.diff (q :: rest))).
Proof. reflexivity. Qed.

Lemma truncate_position_zero (tol : Tolerance) (p q : point)
    (rest : list point) (d : R) :
  0 < merge tol -> 0 < d -> d <= np.norm (np.sub q p) ->
  PathSample.truncate tol (PathSample.__init__ tol (p :: q :: rest)) d
  = Ok [p].
Proof.
  intros Hm Hd Hq.
  unfold PathSample.truncate. rewrite init_cum_norm.
  set (n0 := np.norm (np.sub q p)) in *.
  set (tail := map np.norm (np.diff (q :: rest))).
  cbn [np.searchsorted]. rewrite (Rltb_false (0 + n0) d) by lra.
  change (0 - 1)%Z with (-1)%Z.
  rewrite (getitem_last _ 0) by discriminate.
  cbn [bind].
  assert (Hlast : d <= last ((0 + n0) :: np.cumsum_from (0 + n0) tail) 0).
  { destruct tail as [|x tail'] eqn:E; [simpl; lra|].
    change (last ((0 + n0) :: np.cumsum_from (0 + n0) (x :: tail')) 0)
      with (last (np.cumsum_from (0 + n0) (x :: tail')) 0).
    rewrite cumsum_from_last by discriminate.
    pose proof (sum_norms_nonneg (np.diff (q :: rest))) as Hs.
    fold tail in Hs. rewrite E in Hs. lra. }
  rewrite Rltb_true by lra.
  cbn [bind]. unfold PathSample.truncate_check.
  change (np.slice_to
            (PathSample._points (PathSample.__init__ tol (p :: q :: rest)))
            (0 + 1)) with [p].
  cbn [np.diff map np.sum fold_right].
  rewrite Rltb_true by lra. reflexivity.
Qed.

(** C2 (evaluation of the code): for a polyline of at least two points and
    a distance [d] inside the first segment, [0 < d <= |q - p|], the search
    gives position 0, [_cum_norm[position - 1]] reads the last entry of the
    array (the total length), the offset is not positive, and [truncate]
    returns the single point [p]: a polyline of length 0, not [d]. *)
Theorem truncate_inside_first_segment (tol : Tolerance) (p q : point)
    (rest : list point) (d : R) :
  0 < merge tol -> 0 < d -> d <= np.norm (np.sub q p) ->
  PathSample.truncate tol (PathSample.__init__ tol (p :: q :: rest)) d
  = Ok [p]
  /\ np.sum (map np.norm (np.diff [p])) = 0.
Proof.
  intros Hm Hd Hq. split; [|reflexivity].
  now apply truncate_position_zero.
Qed.

Lemma truncate_inside_first_segment_witness :
  0 < merge tol_path /\ 0 < 5 /\ 5 <= np.norm (np.sub [10; 0] [0; 0]) /\
  PathSample.truncate tol_path
    (PathSample.__init__ tol_path [[0; 0]; [10; 0]]) 5 = Ok [[0; 0]].
Proof.
  assert (Hm : 0 < merge tol_path) by (simpl; lra).
  assert (Hn : 5 <= np.norm (np.sub [10; 0] [0; 0])).
  { rewrite (norm_value _ 10) by (cbn; lra). lra. }
  split; [exact Hm|]. split; [lra|]. split; [exact Hn|].
  exact (proj1 (truncate_inside_first_segment tol_path [0; 0] [10; 0] [] 5
                  Hm ltac:(lra) Hn)).
Defined.

Lemma truncate_returns_checked (tol : Tolerance) (self : PathSample.t)
    (d : R) (truncated : list point) :
  PathSample.truncate tol self d = Ok truncated ->
  PathSample.truncate_check tol truncated d = true.
Proof.
  unfold PathSample.truncate.
  destruct (np.getitem _ _) as [c|e]; [|discriminate]. cbn [bind].
  match goal with
  | |- bind ?r _ = _ -> _ => destruct r as [t|e]; [|discriminate]
  end.
  cbn [bind]. unfold assert.
  destruct (PathSample.truncate_check tol t d) eqn:E; [|discriminate].
  cbn [bind]. intros H; inversion H; subst. exact E.
Qed.

(** C9: the check at the end of [truncate] is one-sided.  Whenever
    [truncate] returns, the length of the result exceeds the distance by
    less than [tol.merge]; every polyline not longer than the distance
    passes the check, however short it is; and [truncate] does return
    results that fall short of the distance by more than any given gap. *)
Theorem truncate_check_one_sided (tol : Tolerance) :
  0 < merge tol ->
  (forall points d truncated,
      PathSample.truncate tol (PathSample.__init__ tol points) d
      = Ok truncated ->
      np.sum (map np.norm (np.diff truncated)) - d < merge tol)
  /\ (forall truncated d,
         np.sum (map np.norm (np.diff truncated)) <= d ->
         PathSample.truncate_check tol truncated d = true)
  /\ (forall gap, 0 < gap ->
         exists points d truncated,
           0 < d <= PathSample.length (PathSample.__init__ tol points)
           /\ PathSample.truncate tol (PathSample.__init__ tol points) d
              = Ok truncated
           /\ np.sum (map np.norm (np.diff truncated)) < d - gap).
Proof.
  intros Hm. split; [|split].
  - intros points d truncated H.
    apply truncate_returns_checked in H.
    now apply Rltb_spec in H.
  - intros truncated d H. unfold PathSample.truncate_check.
    apply Rltb_true. lra.
  - intros gap Hg.
    assert (Hn : np.norm (np.sub [gap + 1; 0] [0; 0]) = gap + 1).
    { apply norm_value; [lra|]. cbn. nra. }
    exists [[0; 0]; [gap + 1; 0]], (gap + 1), [[0; 0]].
    split; [|split].
    + cbn [PathSample.length PathSample.__init__ np.diff map np.sum
             fold_right].
      rewrite Hn. lra.
    + apply truncate_position_zero; lra.
    + cbn. lra.
Qed.

Lemma truncate_check_one_sided_witness :
  0 < merge tol_path /\
  (forall truncated d,
      np.sum (map np.norm (np.diff truncated)) <= d ->
      PathSample.truncate_check tol_path truncated d = true).
Proof.
  assert (Hm : 0 < merge tol_path) by (simpl; lra).
  split; [exact Hm|].
  exact (proj1 (proj2 (truncate_check_one_sided tol_path Hm))).
Defined.

(** ** PathSample.__init__ (C5) *)

Lemma zip_with_map_nth {A B C : Type} (f : A -> B -> C) (g : A -> B)
    (l : list A) (i : nat) :
  nth_error (np.zip_with f l (map g l)) i
  = option_map (fun v => f v (g v)) (nth_error l i).
Proof.
  revert i; induction l as [|x l IH]; intros [|i]; simpl; auto.
Qed.

Lemma zip_with_map_length {A B C : Type} (f : A -> B -> C) (g : A -> B)
    (l : list A) :
  List.length (np.zip_with f l (map g l)) = List.length l.
Proof. induction l; simpl; auto. Qed.

Lemma cumsum_from_lower (l : list R) (acc : R) :
  Forall (fun x => 0 <= x) l -> Forall (Rle acc) (np.cumsum_from acc l).
Proof.
  revert acc; induction l as [|x l IH]; intros acc Hl; simpl; [constructor|].
  inversion Hl; subst. constructor; [lra|].
  eapply Forall_impl; [|apply IH; assumption].
  simpl; intros; lra.
Qed.

Lemma cumsum_from_sorted (l : list R) (acc : R) :
  Forall (fun x => 0 <= x) l ->
  StronglySorted Rle (np.cumsum_from acc l).
Proof.
  revert acc; induction l as [|x l IH]; intros acc Hl; simpl; constructor.
  - inversion Hl; subst. now apply IH.
  - inversion Hl; subst. now apply cumsum_from_lower.
Qed.

Lemma norms_nonneg (vs : list point) :
  Forall (fun x => 0 <= x) (map np.norm vs).
Proof.
  induction vs; simpl; constructor; auto using norm_nonneg.
Qed.

(** C5, as the code has it: the unit direction of a segment is its vector
    divided by its length when the length exceeds [tol.zero]; a segment
    not longer than [tol.zero] keeps its vector unchanged; the cumulative
    lengths are non-decreasing and the last one is the total length. *)
Theorem init_unit_vec_and_cum_norm (tol : Tolerance) (points : list point) :
  let self := PathSample.__init__ tol points in
  PathSample._vectors self = np.diff points
  /\ List.length (PathSample._unit_vec self)
     = List.length (PathSample._vectors self)
  /\ (forall i v,
         nth_error (PathSample._vectors self) i = Some v ->
         (zero tol < np.norm v ->
          nth_error (PathSample._unit_vec self) i
          = Some (np.divide v (np.norm v)))
         /\ (np.norm v <= zero tol ->
             nth_error (PathSample._unit_vec self) i = Some v))
  /\ StronglySorted Rle (PathSample._cum_norm self)
  /\ last (PathSample._cum_norm self) 0 = PathSample.length self.
Proof.
  cbn [PathSample.__init__ PathSample._vectors PathSample._unit_vec
       PathSample._cum_norm PathSample.length].
  split; [reflexivity|]. split; [apply zip_with_map_length|].
  split; [|split].
  - intros i v Hv. rewrite zip_with_map_nth, Hv. cbn [option_map].
    split; intros H; [rewrite Rltb_true|rewrite Rltb_false]; auto.
  - apply cumsum_from_sorted, norms_nonneg.
  - unfold np.cumsum.
    destruct (map np.norm (np.diff points)) as [|x l] eqn:E; [reflexivity|].
    rewrite cumsum_from_last by discriminate. lra.
Qed.

Lemma init_unit_vec_and_cum_norm_witness :
  nth_error
    (PathSample._vectors (PathSample.__init__ tol_path [[0; 0]; [10; 0]])) 0
  = Some [10 - 0; 0 - 0]
  /\ zero tol_path < np.norm [10 - 0; 0 - 0]
  /\ nth_error
       (PathSample._unit_vec (PathSample.__init__ tol_path [[0; 0]; [10; 0]]))
       0
     = Some (np.divide [10 - 0; 0 - 0] (np.norm [10 - 0; 0 - 0])).
Proof.
  assert (Hv : nth_error
                 (PathSample._vectors
                    (PathSample.__init__ tol_path [[0; 0]; [10; 0]])) 0
               = Some [10 - 0; 0 - 0]) by reflexivity.
  assert (Hn : zero tol_path < np.norm [10 - 0; 0 - 0]).
  { rewrite (norm_value _ 10) by (cbn; lra). simpl. lra. }
  split; [exact Hv|]. split; [exact Hn|].
  exact (proj1 (proj1 (proj2 (proj2 (init_unit_vec_and_cum_norm tol_path
                                       [[0; 0]; [10; 0]])))
                  0%nat _ Hv) Hn).
Defined.

(** C5, counterexample to the claim as stated: with [zero = 1e-12] and
    [merge = 1e-5], the segment from (0,0) to (1e-6,0) is shorter than the
    merge tolerance, and its unit direction is (1,0), not zero. *)
Lemma init_short_segment_not_zero :
  let self := PathSample.__init__ tol_path [[0; 0]; [1 / 1000000; 0]] in
  PathSample._norms self = [1 / 1000000]
  /\ 1 / 1000000 < merge tol_path
  /\ PathSample._unit_vec self = [[1; 0]]
  /\ PathSample._unit_vec self <> [[0; 0]].
Proof.
  assert (Hn : np.norm [1 / 1000000 - 0; 0 - 0] = 1 / 1000000).
  { apply norm_value; [lra|]. cbn. lra. }
  assert (Hu : PathSample._unit_vec
                 (PathSample.__init__ tol_path [[0; 0]; [1 / 1000000; 0]])
               = [[1; 0]]).
  { Rstep. rewrite Hn. Rbool. repeat (f_equal; try lra). }
  cbv zeta. split; [|split; [|split]].
  - Rstep. now rewrite Hn.
  - simpl. lra.
  - exact Hu.
  - rewrite Hu. intros H. inversion H. lra.
Qed.

(** ** resample_path with a step that is not rounded (C10) *)

Lemma zip_with_length {A B C : Type} (f : A -> B -> C) (l : list A)
    (m : list B) :
  List.length (np.zip_with f l m) = Nat.min (List.length l) (List.length m).
Proof.
  revert m; induction l as [|x l IH]; intros [|y m]; simpl; auto.
Qed.

Lemma add_scale_zero (p u : point) :
  List.length u = List.length p -> np.add p (np.scale u 0) = p.
Proof.
  revert u; induction p as [|x p IH]; intros [|y u] H; try discriminate;
    [reflexivity|].
  injection H as H. unfold np.add, np.scale in *. cbn [map np.zip_with].
  rewrite IH by assumption. f_equal. lra.
Qed.

Lemma sum_sq_sub_self (p : point) :
  np.sum (map (fun x => x * x) (np.sub p p)) = 0.
Proof.
  induction p as [|x p IH]; [reflexivity|].
  unfold np.sub in *. cbn [np.zip_with map np.sum fold_right] in *.
  fold (np.sum (map (fun x => x * x) (np.zip_with Rminus p p))).
  rewrite IH. lra.
Qed.

Lemma norm_sub_self (p : point) : np.norm (np.sub p p) = 0.
Proof.
  apply norm_value; [lra|]. rewrite sum_sq_sub_self. lra.
Qed.

Lemma getitem_head {A : Type} (x : A) (l : list A) :
  np.getitem (x :: l) 0 = Ok x.
Proof. reflexivity. Qed.

(** C10: with a positive total length [L], a step [>= L] and
    [step_round] disabled, the resampler returns exactly one point, the
    first input point. *)
Theorem resample_step_beyond_length (tol : Tolerance) (points : list point)
    (step : R) (dim : nat) :
  0 < merge tol ->
  Forall (fun p => List.length p = dim) points ->
  0 < PathSample.length (PathSample.__init__ tol points) ->
  PathSample.length (PathSample.__init__ tol points) <= step ->
  exists p rest,
    points = p :: rest
    /\ resample_path tol points None (Some step) false = Ok [p].
Proof.
  intros Hm Hdim HL Hstep.
  destruct points as [|p [|q rest]];
    try (cbn in HL; lra).
  exists p, (q :: rest). split; [reflexivity|].
  unfold resample_path, resample_samples.
  set (self := PathSample.__init__ tol (p :: q :: rest)) in *.
  set (L := PathSample.length self) in *.
  unfold np.arange. rewrite Reqb_false by lra.
  rewrite (Zceil_eq 1).
  2:{ assert (0 < (L - 0) / step) by (apply Rdiv_lt_0_compat; lra).
      assert (0 < / step) by (apply Rinv_0_lt_compat; lra).
      assert ((L - 0) / step <= 1).
      { unfold Rdiv. replace 1 with (step * / step) by (field; lra).
        apply Rmult_le_compat_r; lra. }
      lra. }
  change (np.range 1) with [0%Z]. cbn [map bind].
  unfold PathSample.sample.
  subst self. rewrite init_cum_norm.
  set (n0 := np.norm (np.sub q p)).
  assert (Hn0 : 0 <= n0) by apply norm_nonneg.
  cbn [map np.searchsorted].
  rewrite (Rltb_false (0 + n0)) by lra.
  cbn [PathSample.__init__ PathSample._unit_vec PathSample._points
       np.diff map np.zip_with].
  fold n0.
  set (u0 := if Rltb (zero tol) n0
             then np.divide (np.sub q p) n0 else np.sub q p).
  set (us := np.zip_with _ _ _).
  assert (Hclip : np.clip 0 0 (np.len (u0 :: us) - 1) = 0%Z).
  { unfold np.clip, np.len. cbn [List.length]. lia. }
  rewrite Hclip.
  change (np.take (0 :: (0 + n0) :: ?c) [0%Z]) with (Ok [0]).
  cbn [np.take mapM np.getitem bind np.zip_with].
  assert (Hu0 : List.length u0 = List.length p).
  { inversion Hdim as [|? ? Hp Hrest]; subst.
    inversion Hrest as [|? ? Hq _]; subst.
    assert (List.length (np.sub q p) = List.length p).
    { unfold np.sub. rewrite zip_with_length. lia. }
    subst u0. destruct (Rltb (zero tol) n0); [|assumption].
    unfold np.divide. now rewrite length_map. }
  rewrite !getitem_head. cbn [bind np.zip_with].
  replace (np.scale u0 (0 + 0 * step - 0)) with (np.scale u0 0)
    by (f_equal; lra).
  rewrite add_scale_zero by assumption.
  repeat (progress (rewrite ?getitem_head, ?(getitem_last _ p) by discriminate;
                    cbn [bind last np.zip_with map])).
  rewrite norm_sub_self, Rltb_true by lra.
  reflexivity.
Qed.

Lemma resample_step_beyond_length_witness :
  0 < merge tol_path
  /\ Forall (fun p => List.length p = 2%nat) [[0; 0]; [10; 0]]
  /\ 0 < PathSample.length (PathSample.__init__ tol_path [[0; 0]; [10; 0]])
  /\ PathSample.length (PathSample.__init__ tol_path [[0; 0]; [10; 0]]) <= 12
  /\ exists p rest,
       [[0; 0]; [10; 0]] = p :: rest
       /\ resample_path tol_path [[0; 0]; [10; 0]] None (Some 12) false
          = Ok [p].
Proof.
  assert (Hm : 0 < merge tol_path) by (simpl; lra).
  assert (Hd : Forall (fun p : point => List.length p = 2%nat)
                 [[0; 0]; [10; 0]]) by (repeat constructor).
  assert (HL : PathSample.length (PathSample.__init__ tol_path
                                    [[0; 0]; [10; 0]]) = 10).
  { Rstep. rewrite (norm_value _ 10) by (cbn; lra). lra. }
  split; [exact Hm|]. split; [exact Hd|].
  split; [rewrite HL; lra|]. split; [rewrite HL; lra|].
  apply (resample_step_beyond_length tol_path [[0; 0]; [10; 0]] 12 2 Hm Hd);
    rewrite HL; lra.
Defined.


(** ** The argument check of resample_path (C7) *)

Lemma bind_raise {A B : Type} (r : result A) (k : A -> result B) (e : exn) :
  bind r k = Raise e ->
  r = Raise e \/ exists a, r = Ok a /\ k a = Raise e.
Proof.
  destruct r as [a|e']; cbn [bind]; intros H.
  - right. exists a. split; [reflexivity|exact H].
  - left. now injection H as ->.
Qed.

Lemma mapM_raises {A B : Type} (f : A -> result B) (P : exn -> Prop)
    (l : list A) (e : exn) :
  (forall x e, f x = Raise e -> P e) -> mapM f l = Raise e -> P e.
Proof.
  intros Hf. induction l as [|x l IH]; simpl; [discriminate|].
  intros H. apply bind_raise in H as [H|(y & _ & H)]; [eauto|].
  apply bind_raise in H as [H|(ys & _ & H)]; [auto|discriminate].
Qed.

Lemma take_raises {A : Type} (a : list A) (idx : list Z) (e : exn) :
  np.take a idx = Raise e -> e = IndexError.
Proof.
  apply (mapM_raises _ (fun e => e = IndexError)).
  intros x e'. apply getitem_raises.
Qed.













(** ** Entities under reversal of their points *)

Lemma getitem_of_nat {A : Type} (a : list A) (n : nat) :
  np.getitem a (Z.of_nat n)
  = match nth_error a n with Some x => Ok x | None => Raise IndexError end.
Proof.
  destruct (nth_error a n) as [x|] eqn:E; [now apply getitem_nth|].
  apply nth_error_None in E. unfold np.getitem, np.len.
  destruct (Z.ltb_spec (Z.of_nat n) 0); [lia|].
  destruct (Z.ltb_spec (Z.of_nat n) (Z.of_nat (List.length a))); [lia|].
  now rewrite andb_false_r.
Qed.

Lemma getitem_nil {A : Type} (i : Z) : np.getitem (@nil A) i = Raise IndexError.
Proof.
  unfold np.getitem, np.len. cbn [List.length Z.of_nat].
  destruct (i <? 0)%Z eqn:E.
  - destruct (Z.leb_spec 0 (i + 0)); [|reflexivity].
    apply Z.ltb_lt in E. lia.
  - destruct (Z.ltb_spec i 0); [discriminate|].
    destruct (Z.ltb_spec i 0); [lia|]. now rewrite andb_false_r.
Qed.

Lemma getitem_rev_first {A : Type} (l : list A) :
  np.getitem (rev l) 0 = np.getitem l (-1).
Proof.
  destruct l as [|x l]; [reflexivity|].
  destruct (rev (x :: l)) as [|y m] eqn:E.
  { apply (f_equal (@List.length A)) in E. rewrite length_rev in E.
    discriminate. }
  rewrite getitem_head, (getitem_last _ y) by discriminate.
  apply (f_equal (@rev A)) in E. rewrite rev_involutive in E.
  rewrite E. cbn [rev]. now rewrite last_last.
Qed.

Lemma getitem_rev_last {A : Type} (l : list A) :
  np.getitem (rev l) (-1) = np.getitem l 0.
Proof.
  rewrite <- (rev_involutive l) at 2. now rewrite getitem_rev_first.
Qed.

Lemma end_points_stride (pts : list nat) (c : bool) (d : Z) :
  Entity.end_points (Entity.mk (np.stride pts d) c)
  = match Entity.end_points (Entity.mk pts c) with
    | Ok p => Ok (orient d p)
    | Raise e => Raise e
    end.
Proof.
  unfold Entity.end_points, np.stride, orient. cbn [Entity.points].
  destruct (d =? -1)%Z.
  - rewrite getitem_rev_first, getitem_rev_last.
    destruct pts as [|x pts]; [now rewrite !getitem_nil|].
    rewrite getitem_head, (getitem_last _ x) by discriminate.
    reflexivity.
  - destruct (np.getitem pts 0); [|reflexivity].
    destruct (np.getitem pts (-1)); reflexivity.
Qed.

Lemma nth_error_set_nth_same {A : Type} (l : list A) (i : nat) (x v : A) :
  nth_error l i = Some x -> nth_error (set_nth l i v) i = Some v.
Proof.
  revert i; induction l as [|y l IH]; intros [|i] H; try discriminate;
    simpl; auto.
Qed.

Lemma nth_error_set_nth_other {A : Type} (l : list A) (i j : nat) (v : A) :
  j <> i -> nth_error (set_nth l i v) j = nth_error l j.
Proof.
  revert i j; induction l as [|y l IH]; intros [|i] [|j] H; simpl; auto;
    congruence.
Qed.

Lemma ends_Some (entities : list Entity.t) (a : nat) (p : nat * nat) :
  ends entities a = Some p <->
  exists e, nth_error entities a = Some e /\ Entity.end_points e = Ok p.
Proof.
  unfold ends. split.
  - destruct (nth_error entities a) as [e|]; [|discriminate].
    destruct (Entity.end_points e) eqn:E; [|discriminate].
    intros H; injection H as <-. eauto.
  - intros (e & -> & ->). reflexivity.
Qed.

(** [reverse_points] on an entity that has end points. *)
Lemma reverse_points_ends (entities : list Entity.t) (i : nat) (d : Z)
    (p : nat * nat) :
  ends entities i = Some p ->
  exists entities',
    reverse_points i d entities = (Ok tt, entities')
    /\ ends entities' i = Some (orient d p)
    /\ forall c, c <> i -> ends entities' c = ends entities c.
Proof.
  intros H. apply ends_Some in H as (e & He & Hp).
  unfold reverse_points, bindM, entity_at. rewrite getitem_of_nat, He.
  eexists. split; [reflexivity|]. split.
  - unfold ends. rewrite (nth_error_set_nth_same _ _ e) by assumption.
    rewrite end_points_stride.
    destruct e as [pts c]. cbn [Entity.points Entity.closed].
    now rewrite Hp.
  - intros c Hc. unfold ends. now rewrite nth_error_set_nth_other.
Qed.

Lemma align_ok (entities : list Entity.t) (a b : nat) (pa pb : nat * nat)
    (da db : Z) :
  ends entities a = Some pa -> ends entities b = Some pb ->
  edge_direction pa pb = Ok (da, db) ->
  exists entities',
    align (a, b) entities = (Ok tt, entities')
    /\ forall c, ends entities' c = aligned_ends entities a b pa pb da db c.
Proof.
  intros Ha Hb Hd.
  destruct (reverse_points_ends entities a da pa Ha) as (es1 & R1 & E1 & F1).
  assert (Hb1 : ends es1 b
                = Some (if (b =? a)%nat then orient da pa else pb)).
  { destruct (Nat.eqb_spec b a) as [->|Hne]; [exact E1|].
    now rewrite F1. }
  destruct (reverse_points_ends es1 b db _ Hb1) as (es2 & R2 & E2 & F2).
  exists es2. split.
  - apply ends_Some in Ha as (ea & Hea & Hpa).
    apply ends_Some in Hb as (eb & Heb & Hpb).
    unfold align, bindM at 1, entity_at. rewrite getitem_of_nat, Hea.
    unfold bindM at 1, lift. rewrite Hpa.
    unfold bindM at 1. rewrite getitem_of_nat, Heb.
    unfold bindM at 1. rewrite Hpb.
    unfold bindM at 1. rewrite Hd.
    unfold bindM. rewrite R1. exact R2.
  - intros c. unfold aligned_ends.
    destruct (Nat.eqb_spec c b) as [->|Hcb]; [exact E2|].
    rewrite F2 by assumption.
    destruct (Nat.eqb_spec c a) as [->|Hca]; [exact E1|].
    now apply F1.
Qed.

Lemma align_not_connected (entities : list Entity.t) (a b : nat)
    (pa pb : nat * nat) (e : exn) :
  ends entities a = Some pa -> ends entities b = Some pb ->
  edge_direction pa pb = Raise e ->
  align (a, b) entities = (Raise e, entities).
Proof.
  intros Ha Hb Hd.
  apply ends_Some in Ha as (ea & Hea & Hpa).
  apply ends_Some in Hb as (eb & Heb & Hpb).
  unfold align, bindM at 1, entity_at. rewrite getitem_of_nat, Hea.
  unfold bindM at 1, lift. rewrite Hpa.
  unfold bindM at 1. rewrite getitem_of_nat, Heb.
  unfold bindM at 1. rewrite Hpb.
  unfold bindM at 1. now rewrite Hd.
Qed.

Lemma align_no_ends (entities : list Entity.t) (a b : nat) :
  ends entities a = None \/ ends entities b = None ->
  exists e, align (a, b) entities = (Raise e, entities)
            /\ e = IndexError.
Proof.
  intros H. unfold align, bindM, entity_at, lift, ends in *.
  rewrite !getitem_of_nat.
  destruct (nth_error entities a) as [ea|]; [|eauto].
  destruct (Entity.end_points ea) as [pa|e] eqn:Ea.
  2:{ exists e. split; [reflexivity|].
      unfold Entity.end_points in Ea.
      apply bind_raise in Ea as [Ea|(? & _ & Ea)];
        [now apply getitem_raises in Ea|].
      apply bind_raise in Ea as [Ea|(? & _ & Ea)];
        [now apply getitem_raises in Ea|discriminate]. }
  destruct H as [H|H]; [discriminate|].
  destruct (nth_error entities b) as [eb|]; [|eauto].
  destruct (Entity.end_points eb) as [pb|e] eqn:Eb; [discriminate|].
  exists e. split; [reflexivity|].
  unfold Entity.end_points in Eb.
  apply bind_raise in Eb as [Eb|(? & _ & Eb)];
    [now apply getitem_raises in Eb|].
  apply bind_raise in Eb as [Eb|(? & _ & Eb)];
    [now apply getitem_raises in Eb|discriminate].
Qed.

(** ** The loop that aligns the entities *)

Lemma edge_direction_ok (pa pb : nat * nat) :
  shares pa pb ->
  exists da db, edge_direction pa pb = Ok (da, db)
                /\ (da = 1 \/ da = -1)%Z /\ (db = 1 \/ db = -1)%Z.
Proof.
  unfold shares, edge_direction. intros H.
  destruct (Nat.eqb_spec (fst pa) (fst pb)); [eauto 8|].
  destruct (Nat.eqb_spec (fst pa) (snd pb)); [eauto 8|].
  destruct (Nat.eqb_spec (snd pa) (fst pb)); [eauto 8|].
  destruct (Nat.eqb_spec (snd pa) (snd pb)); [eauto 8|].
  tauto.
Qed.

Lemma edge_direction_raise (pa pb : nat * nat) (e : exn) :
  edge_direction pa pb = Raise e -> e = not_connected /\ ~ shares pa pb.
Proof.
  unfold shares, edge_direction.
  destruct (Nat.eqb_spec (fst pa) (fst pb)); [discriminate|].
  destruct (Nat.eqb_spec (fst pa) (snd pb)); [discriminate|].
  destruct (Nat.eqb_spec (snd pa) (fst pb)); [discriminate|].
  destruct (Nat.eqb_spec (snd pa) (snd pb)); [discriminate|].
  intros H; injection H as <-. split; [reflexivity|tauto].
Qed.

Lemma edge_direction_shares (pa pb : nat * nat) (d : Z * Z) :
  edge_direction pa pb = Ok d -> shares pa pb.
Proof.
  unfold shares, edge_direction.
  destruct (Nat.eqb_spec (fst pa) (fst pb)); [tauto|].
  destruct (Nat.eqb_spec (fst pa) (snd pb)); [tauto|].
  destruct (Nat.eqb_spec (snd pa) (fst pb)); [tauto|].
  destruct (Nat.eqb_spec (snd pa) (snd pb)); [tauto|].
  discriminate.
Qed.

Lemma swap_swap (p : nat * nat) : swap (swap p) = p.
Proof. now destruct p. Qed.

Lemma orient_cases (d : Z) (p : nat * nat) :
  orient d p = p \/ orient d p = swap p.
Proof. unfold orient. destruct (d =? -1)%Z; auto. Qed.

Lemma shares_swap_l (pa pb : nat * nat) : shares pa pb -> shares (swap pa) pb.
Proof. unfold shares, swap; cbn [fst snd]. tauto. Qed.

Lemma shares_swap_r (pa pb : nat * nat) : shares pa pb -> shares pa (swap pb).
Proof. unfold shares, swap; cbn [fst snd]. tauto. Qed.

Lemma shares_sym (pa pb : nat * nat) : shares pa pb -> shares pb pa.
Proof. unfold shares. intuition auto. Qed.

Lemma same_ends_refl (es : list Entity.t) : same_ends es es.
Proof. intros c. destruct (ends es c); auto. Qed.

Lemma same_ends_trans (es1 es2 es3 : list Entity.t) :
  same_ends es1 es2 -> same_ends es2 es3 -> same_ends es1 es3.
Proof.
  intros H12 H23 c. specialize (H12 c). specialize (H23 c).
  destruct (ends es1 c) as [p|].
  - destruct H12 as [H|H]; rewrite H in H23; destruct H23 as [H'|H'];
      rewrite H'; rewrite ?swap_swap; auto.
  - now rewrite H12 in H23.
Qed.

Lemma same_ends_sym (es1 es2 : list Entity.t) :
  same_ends es1 es2 -> same_ends es2 es1.
Proof.
  intros H c. specialize (H c).
  destruct (ends es1 c) as [p|].
  - destruct H as [H|H]; rewrite H; rewrite ?swap_swap; auto.
  - now rewrite H.
Qed.

Lemma connected_same_ends (es es' : list Entity.t) (ab : nat * nat) :
  same_ends es es' -> connected es ab -> connected es' ab.
Proof.
  intros H (pa & pb & Ha & Hb & Hs).
  pose proof (H (fst ab)) as H1. pose proof (H (snd ab)) as H2.
  rewrite Ha in H1. rewrite Hb in H2.
  destruct H1 as [H1|H1], H2 as [H2|H2];
    do 2 eexists; (split; [exact H1|split; [exact H2|]]);
    auto using shares_swap_l, shares_swap_r.
Qed.

Lemma unconnected_same_ends (es es' : list Entity.t) (ab : nat * nat) :
  same_ends es es' -> unconnected es ab -> unconnected es' ab.
Proof.
  intros H (pa & pb & Ha & Hb & Hs).
  pose proof (H (fst ab)) as H1. pose proof (H (snd ab)) as H2.
  rewrite Ha in H1. rewrite Hb in H2.
  destruct H1 as [H1|H1], H2 as [H2|H2];
    do 2 eexists; (split; [exact H1|split; [exact H2|]]);
    intros Hs'; apply Hs.
  - assumption.
  - apply shares_swap_r in Hs'. now rewrite swap_swap in Hs'.
  - apply shares_swap_l in Hs'. now rewrite swap_swap in Hs'.
  - apply shares_swap_l, shares_swap_r in Hs'. now rewrite !swap_swap in Hs'.
Qed.

Lemma no_ends_same_ends (es es' : list Entity.t) (ab : nat * nat) :
  same_ends es es' -> no_ends es ab -> no_ends es' ab.
Proof.
  intros H [Ha|Hb]; [left|right].
  - specialize (H (fst ab)). now rewrite Ha in H.
  - specialize (H (snd ab)). now rewrite Hb in H.
Qed.

Lemma aligned_same_ends (es es' : list Entity.t) (a b : nat)
    (pa pb : nat * nat) (da db : Z) :
  ends es a = Some pa -> ends es b = Some pb ->
  (forall c, ends es' c = aligned_ends es a b pa pb da db c) ->
  same_ends es es'.
Proof.
  intros Ha Hb H c. rewrite H. unfold aligned_ends.
  destruct (Nat.eqb_spec c b) as [->|Hcb].
  - rewrite Hb.
    destruct (Nat.eqb_spec b a) as [->|Hba].
    + assert (pa = pb) by congruence. subst pb.
      destruct (orient_cases da pa) as [->| ->], (orient_cases db pa) as [E|E];
        try (destruct (orient_cases db (swap pa)) as [E'|E']; rewrite E');
        rewrite ?E, ?swap_swap; auto.
    + destruct (orient_cases db pb) as [->| ->]; auto.
  - destruct (Nat.eqb_spec c a) as [->|Hca].
    + rewrite Ha. destruct (orient_cases da pa) as [->| ->]; auto.
    + destruct (ends es c); auto.
Qed.

(** What the loop does: either every pair is connected and the loop ends
    normally, or it stops at the first pair that is not, with the error of
    that pair. *)
Lemma for_each_align_cases (l : list (nat * nat)) (es : list Entity.t) :
  (exists es',
      for_each align l es = (Ok tt, es')
      /\ same_ends es es' /\ Forall (connected es) l)
  \/ (exists es',
         for_each align l es = (Raise not_connected, es')
         /\ same_ends es es' /\ Exists (unconnected es) l)
  \/ (exists es',
         for_each align l es = (Raise IndexError, es')
         /\ same_ends es es' /\ Exists (no_ends es) l).
Proof.
  revert es; induction l as [|[a b] l IH]; intros es.
  { left. exists es. split; [reflexivity|].
    split; [apply same_ends_refl|constructor]. }
  cbn [for_each]. unfold bindM.
  destruct (ends es a) as [pa|] eqn:Ha.
  2:{ right; right. destruct (align_no_ends es a b (or_introl Ha))
        as (e & -> & ->).
      exists es. split; [reflexivity|]. split; [apply same_ends_refl|].
      left. now left. }
  destruct (ends es b) as [pb|] eqn:Hb.
  2:{ right; right. destruct (align_no_ends es a b (or_intror Hb))
        as (e & -> & ->).
      exists es. split; [reflexivity|]. split; [apply same_ends_refl|].
      left. now right. }
  destruct (edge_direction pa pb) as [[da db]|e] eqn:Hd.
  2:{ right; left. rewrite (align_not_connected es a b pa pb e Ha Hb Hd).
      apply edge_direction_raise in Hd as [-> Hs].
      exists es. split; [reflexivity|]. split; [apply same_ends_refl|].
      left. exists pa, pb. auto. }
  destruct (align_ok es a b pa pb da db Ha Hb Hd) as (es1 & -> & He1).
  assert (S1 : same_ends es es1)
    by exact (aligned_same_ends es es1 a b pa pb da db Ha Hb He1).
  assert (C1 : connected es (a, b)).
  { exists pa, pb. split; [exact Ha|]. split; [exact Hb|].
    eapply edge_direction_shares; eauto. }
  pose proof (same_ends_sym _ _ S1) as S1'.
  destruct (IH es1)
    as [(es' & -> & S & F)|[(es' & -> & S & F)|(es' & -> & S & F)]].
  - left. exists es'. split; [reflexivity|].
    split; [eapply same_ends_trans; eauto|].
    constructor; [exact C1|].
    eapply Forall_impl; [|exact F].
    intros ab. now apply connected_same_ends.
  - right; left. exists es'. split; [reflexivity|].
    split; [eapply same_ends_trans; eauto|].
    right. eapply Exists_impl; [|exact F].
    intros ab. now apply unconnected_same_ends.
  - right; right. exists es'. split; [reflexivity|].
    split; [eapply same_ends_trans; eauto|].
    right. eapply Exists_impl; [|exact F].
    intros ab. now apply no_ends_same_ends.
Qed.

(** ** The pairs of the round trip *)

Lemma slice_to_drop_last {A : Type} (l : list A) (x : A) :
  np.slice_to (l ++ [x]) (-1) = l.
Proof.
  unfold np.slice_to, np.len. change (-1 <? 0)%Z with true. cbv iota.
  rewrite length_app. cbn [List.length].
  replace (Z.to_nat (Z.of_nat (List.length l + 1) + -1)) with (List.length l)
    by lia.
  rewrite firstn_app, Nat.sub_diag, firstn_all. cbn [firstn].
  apply app_nil_r.
Qed.

Lemma round_trip_cons (x : nat) (rest : list nat) :
  round_trip (x :: rest) = Ok (combine (x :: rest) (rest ++ [x])).
Proof.
  unfold round_trip. rewrite getitem_head. cbn [bind].
  now rewrite slice_to_drop_last.
Qed.

Lemma round_trip_nil : round_trip [] = Raise IndexError.
Proof. reflexivity. Qed.

Lemma in_combine_next {A : Type} (l : list A) (z a b : A) :
  In (a, b) (combine l (tl l ++ [z])) <->
  (exists l1 l2, l = l1 ++ a :: b :: l2) \/ (exists l1, l = l1 ++ [a] /\ b = z).
Proof.
  induction l as [|x l IH].
  { split; [intros []|].
    intros [(l1 & l2 & H)|(l1 & H & _)]; destruct l1; discriminate. }
  destruct l as [|y l].
  { cbn. split.
    - intros [H|[]]. injection H as -> ->. right. exists []. auto.
    - intros [(l1 & l2 & H)|(l1 & H & ->)].
      + destruct l1 as [|? [|? ?]]; discriminate.
      + destruct l1 as [|? [|? ?]]; try discriminate.
        injection H as ->. auto. }
  change (combine (x :: y :: l) (tl (x :: y :: l) ++ [z]))
    with ((x, y) :: combine (y :: l) (tl (y :: l) ++ [z])).
  cbn [In]. rewrite IH. split.
  - intros [H|[(l1 & l2 & H)|(l1 & H & ->)]].
    + injection H as -> ->. left. exists [], l. reflexivity.
    + left. exists (x :: l1), l2. now rewrite H.
    + right. exists (x :: l1). now rewrite H.
  - intros [(l1 & l2 & H)|(l1 & H & ->)].
    + destruct l1 as [|x' l1].
      * injection H as -> -> ->. now left.
      * injection H as -> H. right; left. eauto.
    + destruct l1 as [|x' l1]; [discriminate|].
      injection H as -> H. right; right. eauto.
Qed.

Lemma in_round_trip_rev (l : list nat) (pairs pairs' : list (nat * nat))
    (a b : nat) :
  round_trip l = Ok pairs -> round_trip (rev l) = Ok pairs' ->
  In (a, b) pairs' -> In (b, a) pairs.
Proof.
  destruct l as [|x rest]; [discriminate|].
  rewrite round_trip_cons. intros H; injection H as <-.
  destruct (rev (x :: rest)) as [|y rest'] eqn:E; [discriminate|].
  rewrite round_trip_cons. intros H; injection H as <-.
  intros Hin. apply (in_combine_next (y :: rest') y a b) in Hin.
  apply (in_combine_next (x :: rest) x b a).
  apply (f_equal (@rev nat)) in E. rewrite rev_involutive in E.
  destruct Hin as [(l1 & l2 & H)|(l1 & H & ->)].
  - left. exists (rev l2), (rev l1). rewrite E, H.
    rewrite rev_app_distr. cbn [rev]. now rewrite <- !app_assoc.
  - right. rewrite E. cbn [rev]. exists (rev rest'). split; [reflexivity|].
    rewrite H in E. rewrite rev_app_distr in E. now injection E.
Qed.

Lemma connected_sym (es : list Entity.t) (a b : nat) :
  connected es (a, b) -> connected es (b, a).
Proof.
  intros (pa & pb & Ha & Hb & Hs). exists pb, pa. cbn [fst snd] in *.
  auto using shares_sym.
Qed.

Lemma connected_not_unconnected (es : list Entity.t) (ab : nat * nat) :
  connected es ab -> unconnected es ab -> False.
Proof.
  intros (pa & pb & Ha & Hb & Hs) (pa' & pb' & Ha' & Hb' & Hn).
  rewrite Ha in Ha'. rewrite Hb in Hb'.
  injection Ha' as <-. injection Hb' as <-. contradiction.
Qed.

Lemma connected_not_no_ends (es : list Entity.t) (ab : nat * nat) :
  connected es ab -> no_ends es ab -> False.
Proof.
  intros (pa & pb & Ha & Hb & Hs) [H|H]; congruence.
Qed.

Lemma Forall_Exists_contra {A : Type} (P Q : A -> Prop) (l : list A) :
  (forall x, P x -> Q x -> False) -> Forall P l -> Exists Q l -> False.
Proof.
  intros H F E. apply Exists_exists in E as (x & Hx & Hq).
  rewrite Forall_forall in F. eauto.
Qed.

(** The resolver, in terms of its three stages. *)
Lemma vertex_to_entity_path_stages (is_ccw : list point -> bool)
    (vertex_path : list nat) (graph : nx.Graph) (vertices : option ndarray)
    (entities : list Entity.t) (path : list nat) (pairs : list (nat * nat)) :
  entity_sequence is_ccw vertex_path graph vertices = Ok path ->
  round_trip path = Ok pairs ->
  vertex_to_entity_path is_ccw vertex_path graph vertices entities
  = match for_each align pairs entities with
    | (Ok _, entities') => (Ok path, entities')
    | (Raise e, entities') => (Raise e, entities')
    end.
Proof.
  intros Hs Hr. unfold vertex_to_entity_path, bindM, lift, ret.
  rewrite Hs, Hr. reflexivity.
Qed.

Lemma vertex_to_entity_path_returns (is_ccw : list point -> bool)
    (vertex_path : list nat) (graph : nx.Graph) (vertices : option ndarray)
    (entities entities' : list Entity.t) (path : list nat) :
  vertex_to_entity_path is_ccw vertex_path graph vertices entities
  = (Ok path, entities') ->
  entity_sequence is_ccw vertex_path graph vertices = Ok path
  /\ exists pairs,
       round_trip path = Ok pairs
       /\ for_each align pairs entities = (Ok tt, entities').
Proof.
  unfold vertex_to_entity_path, bindM, lift, ret.
  destruct (entity_sequence _ _ _ _) as [p|e]; [|discriminate].
  destruct (round_trip p) as [pairs|e] eqn:Hr; [|discriminate].
  destruct (for_each align pairs entities) as [[[]|e] es'] eqn:E;
    [|discriminate].
  unfold ret. intros H; injection H as -> ->. split; [reflexivity|].
  exists pairs. split; assumption.
Qed.

(** ** The error of unconnected edges (C6) *)

(** C6: an adjacent pair of end points makes [edge_direction] raise the
    "edges aren't connected!" error exactly when the two pairs have no
    vertex in common; when every entity of the path has end points, the
    resolution raises that error exactly when some adjacent pair of the
    round trip has no end point in common; and when every adjacent pair has
    one, the resolution returns the path. *)
Theorem edges_not_connected_error (is_ccw : list point -> bool)
    (vertex_path : list nat) (graph : nx.Graph) (vertices : option ndarray)
    (entities : list Entity.t) (path : list nat) (pairs : list (nat * nat)) :
  entity_sequence is_ccw vertex_path graph vertices = Ok path ->
  round_trip path = Ok pairs ->
  Forall (fun ab => exists pa pb, ends entities (fst ab) = Some pa
                                  /\ ends entities (snd ab) = Some pb) pairs ->
  (forall pa pb, edge_direction pa pb = Raise not_connected <-> ~ shares pa pb)
  /\ (fst (vertex_to_entity_path is_ccw vertex_path graph vertices entities)
      = Raise not_connected
      <-> Exists (unconnected entities) pairs)
  /\ (Forall (connected entities) pairs ->
      exists entities',
        vertex_to_entity_path is_ccw vertex_path graph vertices entities
        = (Ok path, entities')).
Proof.
  intros Hs Hr Hv.
  assert (Hvalid : forall ab, (exists pa pb, ends entities (fst ab) = Some pa
                          /\ ends entities (snd ab) = Some pb) ->
                         no_ends entities ab -> False).
  { intros ab (pa & pb & Ha & Hb) [H|H]; congruence. }
  rewrite (vertex_to_entity_path_stages _ _ _ _ _ _ _ Hs Hr).
  split; [|split].
  - intros pa pb. split.
    + intros H. now apply edge_direction_raise in H.
    + intros H. destruct (edge_direction pa pb) as [d|e] eqn:E.
      * apply edge_direction_shares in E. contradiction.
      * now apply edge_direction_raise in E as [-> _].
  - destruct (for_each_align_cases pairs entities)
      as [(es' & -> & _ & F)|[(es' & -> & _ & F)|(es' & -> & _ & F)]];
      cbn [fst].
    + split; [discriminate|]. intros E. exfalso.
      eapply Forall_Exists_contra; [|exact F|exact E].
      apply connected_not_unconnected.
    + split; auto.
    + exfalso. eapply Forall_Exists_contra; [|exact Hv|exact F].
      exact Hvalid.
  - intros Hc.
    destruct (for_each_align_cases pairs entities)
      as [(es' & -> & _ & F)|[(es' & -> & _ & F)|(es' & -> & _ & F)]].
    + eauto.
    + exfalso. eapply Forall_Exists_contra; [|exact Hc|exact F].
      apply connected_not_unconnected.
    + exfalso. eapply Forall_Exists_contra; [|exact Hc|exact F].
      apply connected_not_no_ends.
Qed.

Lemma edges_not_connected_error_witness :
  entity_sequence area_is_ccw [0; 1; 2]%nat (fst (vertex_graph triangle)) None
  = Ok [0; 1; 2]%nat
  /\ round_trip [0; 1; 2]%nat = Ok [(0, 1); (1, 2); (2, 0)]%nat
  /\ Forall (fun ab => exists pa pb, ends triangle (fst ab) = Some pa
                                     /\ ends triangle (snd ab) = Some pb)
       [(0, 1); (1, 2); (2, 0)]%nat
  /\ (fst (vertex_to_entity_path area_is_ccw [0; 1; 2]%nat
             (fst (vertex_graph triangle)) None triangle)
      = Raise not_connected
      <-> Exists (unconnected triangle) [(0, 1); (1, 2); (2, 0)]%nat).
Proof.
  assert (Hs : entity_sequence area_is_ccw [0; 1; 2]%nat
                 (fst (vertex_graph triangle)) None = Ok [0; 1; 2]%nat)
    by reflexivity.
  assert (Hr : round_trip [0; 1; 2]%nat = Ok [(0, 1); (1, 2); (2, 0)]%nat)
    by reflexivity.
  assert (Hv : Forall (fun ab => exists pa pb,
                           ends triangle (fst ab) = Some pa
                           /\ ends triangle (snd ab) = Some pb)
                 [(0, 1); (1, 2); (2, 0)]%nat).
  { repeat constructor; do 2 eexists; split; reflexivity. }
  split; [exact Hs|]. split; [exact Hr|]. split; [exact Hv|].
  exact (proj1 (proj2 (edges_not_connected_error area_is_ccw [0; 1; 2]%nat
                         (fst (vertex_graph triangle)) None triangle
                         [0; 1; 2]%nat [(0, 1); (1, 2); (2, 0)]%nat
                         Hs Hr Hv))).
Defined.

(** ** The order of the entity path (C4) *)

Lemma entity_sequence_absent (is_ccw : list point -> bool)
    (vertex_path : list nat) (graph : nx.Graph) (labels : list nat) :
  edge_entities vertex_path graph = Ok labels ->
  entity_sequence is_ccw vertex_path graph None = Ok (unique_ordered labels).
Proof.
  intros H. unfold entity_sequence. cbn [ccw_direction bind]. now rewrite H.
Qed.

Lemma entity_sequence_supplied (is_ccw : list point -> bool)
    (vertex_path : list nat) (graph : nx.Graph) (labels : list nat)
    (vertices : ndarray) (first : nat) (ring : list point) :
  edge_entities vertex_path graph = Ok labels ->
  np.getitem vertex_path 0 = Ok first ->
  np.take (rows vertices) (map Z.of_nat (vertex_path ++ [first])) = Ok ring ->
  entity_sequence is_ccw vertex_path graph (Some vertices)
  = Ok (if is_ccw ring then unique_ordered labels
        else rev (unique_ordered labels)).
Proof.
  intros H Hf Hr. unfold entity_sequence, ccw_direction.
  rewrite Hf. cbn [bind]. rewrite Hr. cbn [bind]. rewrite H. cbn [bind].
  now destruct (is_ccw ring).
Qed.

Lemma entity_sequence_labels (is_ccw : list point -> bool)
    (vertex_path : list nat) (graph : nx.Graph) (vertices : option ndarray)
    (path : list nat) :
  entity_sequence is_ccw vertex_path graph vertices = Ok path ->
  exists labels, edge_entities vertex_path graph = Ok labels.
Proof.
  unfold entity_sequence. intros H.
  destruct (ccw_direction _ _ _); [|discriminate]. cbn [bind] in H.
  destruct (edge_entities vertex_path graph); [eauto|discriminate].
Qed.

(** C4: without coordinates the deduplicated entities keep the order of the
    traversal; with coordinates they keep it when the closed ring of the
    vertex path is counter-clockwise and are reversed when it is not; the
    path the resolver returns is that sequence; and when the resolver
    returns a path for coordinates of one winding, it returns the reversed
    path for coordinates of the other winding. *)
Theorem entity_path_orientation (is_ccw : list point -> bool)
    (vertex_path : list nat) (graph : nx.Graph) (labels : list nat)
    (first : nat) :
  edge_entities vertex_path graph = Ok labels ->
  np.getitem vertex_path 0 = Ok first ->
  entity_sequence is_ccw vertex_path graph None = Ok (unique_ordered labels)
  /\ (forall vertices ring,
         np.take (rows vertices) (map Z.of_nat (vertex_path ++ [first]))
         = Ok ring ->
         entity_sequence is_ccw vertex_path graph (Some vertices)
         = Ok (if is_ccw ring then unique_ordered labels
               else rev (unique_ordered labels)))
  /\ (forall vertices entities path entities',
         vertex_to_entity_path is_ccw vertex_path graph vertices entities
         = (Ok path, entities') ->
         entity_sequence is_ccw vertex_path graph vertices = Ok path)
  /\ (forall vertices1 vertices2 ring1 ring2 entities path entities1,
         np.take (rows vertices1) (map Z.of_nat (vertex_path ++ [first]))
         = Ok ring1 ->
         np.take (rows vertices2) (map Z.of_nat (vertex_path ++ [first]))
         = Ok ring2 ->
         is_ccw ring2 = negb (is_ccw ring1) ->
         vertex_to_entity_path is_ccw vertex_path graph (Some vertices1)
           entities = (Ok path, entities1) ->
         exists entities2,
           vertex_to_entity_path is_ccw vertex_path graph (Some vertices2)
             entities = (Ok (rev path), entities2)).
Proof.
  intros Hl Hf. split; [now apply entity_sequence_absent|].
  split; [intros; now apply (entity_sequence_supplied _ _ _ _ _ first)|].
  split; [intros * H; now apply vertex_to_entity_path_returns in H|].
  intros v1 v2 ring1 ring2 es path es1 H1 H2 Hw Hret.
  apply vertex_to_entity_path_returns in Hret as (Hs1 & pairs & Hr & Hloop).
  rewrite (entity_sequence_supplied _ _ _ labels _ first ring1) in Hs1
    by assumption.
  assert (Hs2 : entity_sequence is_ccw vertex_path graph (Some v2)
                = Ok (rev path)).
  { rewrite (entity_sequence_supplied _ _ _ labels _ first ring2)
      by assumption.
    rewrite Hw. injection Hs1 as <-.
    destruct (is_ccw ring1); cbn [negb]; now rewrite ?rev_involutive. }
  assert (Hc : Forall (connected es) pairs).
  { destruct (for_each_align_cases pairs es)
      as [(es' & _ & _ & F)|[(es' & E & _ & _)|(es' & E & _ & _)]];
      [exact F|congruence|congruence]. }
  destruct (round_trip (rev path)) as [pairs'|e] eqn:Hr'.
  2:{ destruct path as [|x rest]; [discriminate|].
      destruct (rev (x :: rest)) as [|y m] eqn:E.
      - apply (f_equal (@List.length nat)) in E.
        rewrite length_rev in E. discriminate.
      - rewrite round_trip_cons in Hr'. discriminate. }
  assert (Hc' : Forall (connected es) pairs').
  { apply Forall_forall. intros [a b] Hin.
    apply connected_sym. rewrite Forall_forall in Hc. apply Hc.
    eapply in_round_trip_rev; eauto. }
  rewrite (vertex_to_entity_path_stages _ _ _ _ _ _ _ Hs2 Hr').
  destruct (for_each_align_cases pairs' es)
    as [(es' & -> & _ & F)|[(es' & -> & _ & F)|(es' & -> & _ & F)]].
  - eauto.
  - exfalso. eapply Forall_Exists_contra; [|exact Hc'|exact F].
    apply connected_not_unconnected.
  - exfalso. eapply Forall_Exists_contra; [|exact Hc'|exact F].
    apply connected_not_no_ends.
Qed.

Lemma entity_path_orientation_witness :
  edge_entities [0; 1; 2]%nat (fst (vertex_graph triangle))
  = Ok [0; 1; 2; 0]%nat
  /\ np.getitem [0; 1; 2]%nat 0 = Ok 0%nat
  /\ entity_sequence area_is_ccw [0; 1; 2]%nat (fst (vertex_graph triangle))
       None = Ok (unique_ordered [0; 1; 2; 0]%nat).
Proof.
  assert (Hl : edge_entities [0; 1; 2]%nat (fst (vertex_graph triangle))
               = Ok [0; 1; 2; 0]%nat) by reflexivity.
  assert (Hf : np.getitem [0; 1; 2]%nat 0 = Ok 0%nat) by reflexivity.
  split; [exact Hl|]. split; [exact Hf|].
  exact (proj1 (entity_path_orientation area_is_ccw [0; 1; 2]%nat
                  (fst (vertex_graph triangle)) [0; 1; 2; 0]%nat 0%nat
                  Hl Hf)).
Defined.

(** ** discretize_path (C8) *)

Lemma slice_to_removelast {A : Type} (l : list A) :
  np.slice_to l (-1) = removelast l.
Proof.
  induction l as [|x l _] using rev_ind; [reflexivity|].
  now rewrite slice_to_drop_last, removelast_last.
Qed.

Lemma discretize_curves (discrete : Entity.t -> ndarray -> R -> list point)
    (entities : list Entity.t) (vertices : ndarray) (scale : R)
    (path_len : Z) (ents : list Entity.t) (last_e : Entity.t) :
  forall (path : list nat),
    Forall2 (fun a e => nth_error entities a = Some e) path
      (ents ++ [last_e]) ->
    forall k : nat,
    path_len = Z.of_nat (k + List.length path) ->
    mapM
      (fun '(i, entity_id) =>
         entity <- np.getitem entities (Z.of_nat entity_id) ;;
         let current := discrete entity vertices scale in
         if (path_len - 1 <=? Z.of_nat i)%Z then Ok current
         else Ok (np.slice_to current (-1)))
      (combine (seq k (List.length path)) path)
    = Ok (map (fun e => removelast (discrete e vertices scale)) ents
          ++ [discrete last_e vertices scale]).
Proof.
  induction ents as [|e ents IH]; intros path HF.
  - inversion HF as [|a e' p' l' Ha Hrest]; subst.
    inversion Hrest; subst. intros k Hlen.
    cbn [List.length seq combine mapM] in *.
    rewrite (getitem_nth _ _ _ Ha). cbn [bind].
    destruct (Z.leb_spec (path_len - 1) (Z.of_nat k)); [|lia].
    reflexivity.
  - inversion HF as [|a e' p' l' Ha Hrest]; subst. intros k Hlen.
    cbn [List.length seq combine mapM] in *.
    rewrite (getitem_nth _ _ _ Ha). cbn [bind].
    assert (1 <= List.length p')%nat.
    { apply Forall2_length in Hrest. rewrite length_app in Hrest.
      cbn [List.length] in Hrest. lia. }
    destruct (Z.leb_spec (path_len - 1) (Z.of_nat k)); [lia|].
    cbn [bind]. rewrite (IH p' Hrest (S k)) by lia.
    cbn [bind map app]. now rewrite slice_to_removelast.
Qed.

(** C8, as the code has it: an empty path raises; a path of one entity
    yields the discretized points of that entity; a longer path yields the
    concatenation, in order, of the discretized points of its entities, all
    but the last without their final point; and in both cases the curve is
    returned reversed when the vertices are 2D and the curve is not
    counter-clockwise. *)
Theorem discretize_path_result (is_ccw : list point -> bool)
    (discrete : Entity.t -> ndarray -> R -> list point)
    (entities : list Entity.t) (vertices : ndarray) (scale : R) :
  let finish := fun curve : list point =>
    if (snd (shape vertices) =? 2)%nat && negb (is_ccw curve)
    then rev curve else curve in
  discretize_path is_ccw discrete entities vertices [] scale
  = Raise (ValueError "Cannot discretize empty path!")
  /\ (forall a e,
         nth_error entities a = Some e ->
         discretize_path is_ccw discrete entities vertices [a] scale
         = Ok (finish (discrete e vertices scale)))
  /\ (forall path ents last_e,
         (2 <= List.length path)%nat ->
         Forall2 (fun a e => nth_error entities a = Some e) path
           (ents ++ [last_e]) ->
         discretize_path is_ccw discrete entities vertices path scale
         = Ok (finish
                 (List.concat
                    (map (fun e => removelast (discrete e vertices scale))
                       ents)
                  ++ discrete last_e vertices scale))).
Proof.
  intros finish. split; [reflexivity|]. split.
  - intros a e He. unfold discretize_path.
    change (np.len [a] =? 0)%Z with false.
    change (np.len [a] =? 1)%Z with true. cbv iota.
    rewrite getitem_head. cbn [bind].
    rewrite (getitem_nth _ _ _ He). cbn [bind].
    subst finish. cbv beta.
    now destruct ((snd (shape vertices) =? 2)%nat && negb (is_ccw _)).
  - intros path ents last_e Hlen HF. unfold discretize_path.
    unfold np.len.
    destruct (Z.eqb_spec (Z.of_nat (List.length path)) 0); [lia|].
    destruct (Z.eqb_spec (Z.of_nat (List.length path)) 1); [lia|].
    unfold enumerate.
    rewrite (discretize_curves discrete entities vertices scale _ ents last_e
               path HF 0) by reflexivity.
    cbn [bind]. rewrite concat_app. cbn [List.concat]. rewrite app_nil_r.
    subst finish. cbv beta.
    now destruct ((snd (shape vertices) =? 2)%nat && negb (is_ccw _)).
Qed.

Lemma discretize_path_result_witness :
  nth_error [closed_triangle] 0 = Some closed_triangle
  /\ discretize_path area_is_ccw line_discrete [closed_triangle]
       clockwise_vertices [0%nat] 1
     = Ok (if (snd (shape clockwise_vertices) =? 2)%nat
              && negb (area_is_ccw
                         (line_discrete closed_triangle clockwise_vertices 1))
           then rev (line_discrete closed_triangle clockwise_vertices 1)
           else line_discrete closed_triangle clockwise_vertices 1).
Proof.
  split; [reflexivity|].
  exact (proj1 (proj2 (discretize_path_result area_is_ccw line_discrete
                         [closed_triangle] clockwise_vertices 1))
           0%nat closed_triangle eq_refl).
Defined.

(** C8, counterexample to the claim as stated: the path of the single
    closed entity through the vertices (0,0), (0,1), (1,1) and back, which
    run clockwise, is not returned as the discretized points of that
    entity, but reversed. *)
Lemma discretize_single_entity_reversed :
  line_discrete closed_triangle clockwise_vertices 1
  = [[0; 0]; [0; 1]; [1; 1]; [0; 0]]
  /\ discretize_path area_is_ccw line_discrete [closed_triangle]
       clockwise_vertices [0%nat] 1
     = Ok [[0; 0]; [1; 1]; [0; 1]; [0; 0]]
  /\ discretize_path area_is_ccw line_discrete [closed_triangle]
       clockwise_vertices [0%nat] 1
     <> Ok (line_discrete closed_triangle clockwise_vertices 1).
Proof.
  assert (Hd : line_discrete closed_triangle clockwise_vertices 1
               = [[0; 0]; [0; 1]; [1; 1]; [0; 0]]) by reflexivity.
  assert (Hr : discretize_path area_is_ccw line_discrete [closed_triangle]
                 clockwise_vertices [0%nat] 1
               = Ok [[0; 0]; [1; 1]; [0; 1]; [0; 0]]).
  { unfold discretize_path.
    change (np.len [0%nat] =? 0)%Z with false.
    change (np.len [0%nat] =? 1)%Z with true. cbv iota.
    rewrite getitem_head. cbn [bind].
    change (np.getitem [closed_triangle] (Z.of_nat 0))
      with (Ok closed_triangle).
    cbn [bind]. rewrite Hd.
    unfold area_is_ccw. cbn [ring_sum].
    rewrite Rltb_false by lra. reflexivity. }
  split; [exact Hd|]. split; [exact Hr|].
  rewrite Hr, Hd. intros H. injection H as H. lra.
Qed.

(** ** Adjacency of the resolved entities (C3) *)

(** C3, counterexample to the claim as stated: for the open polyline
    0-1-2-3 tied back to vertex 1 by the line 3-1, the loop 1-2-3 resolves
    to the entity path [0, 1] without an error, and afterwards the last
    point of entity 0 is vertex 0 while the first point of entity 1 is
    vertex 1. *)
Lemma resolved_path_not_adjacent :
  vertex_to_entity_path area_is_ccw [1; 2; 3]%nat
    (fst (vertex_graph tied_polyline)) None tied_polyline
  = (Ok [0; 1]%nat,
     [Entity.mk [3; 2; 1; 0]%nat false; Entity.mk [1; 3]%nat false])
  /\ round_trip [0; 1]%nat = Ok [(0, 1); (1, 0)]%nat
  /\ ~ adjacent
         [Entity.mk [3; 2; 1; 0]%nat false; Entity.mk [1; 3]%nat false]
         (0, 1)%nat.
Proof.
  split; [reflexivity|]. split; [reflexivity|].
  intros (ea & eb & x & Ha & Hb & Hl & Hf).
  cbn in Ha, Hb. injection Ha as <-. injection Hb as <-.
  vm_compute in Hl, Hf. congruence.
Qed.

Lemma unique_ordered_incl (l : list nat) (x : nat) :
  In x (unique_ordered l) -> In x l.
Proof.
  induction l as [|y l IH]; [auto|]. cbn [unique_ordered In].
  intros [H|H]; [auto|]. apply filter_In in H as [H _]. auto.
Qed.

Lemma unique_ordered_NoDup (l : list nat) : NoDup (unique_ordered l).
Proof.
  induction l as [|y l IH]; cbn [unique_ordered]; constructor.
  - intros H. apply filter_In in H as [_ H].
    now rewrite Nat.eqb_refl in H.
  - now apply NoDup_filter.
Qed.

Lemma entity_sequence_NoDup (is_ccw : list point -> bool)
    (vertex_path : list nat) (graph : nx.Graph) (vertices : option ndarray)
    (path : list nat) :
  entity_sequence is_ccw vertex_path graph vertices = Ok path -> NoDup path.
Proof.
  unfold entity_sequence. intros H.
  destruct (ccw_direction _ _ _) as [d|]; [|discriminate]. cbn [bind] in H.
  destruct (edge_entities _ _) as [labels|]; [|discriminate].
  cbn [bind] in H. injection H as <-. unfold np.stride.
  destruct (d =? -1)%Z; [apply NoDup_rev|]; apply unique_ordered_NoDup.
Qed.

Lemma ends_adjacent (es : list Entity.t) (a b u v w : nat) :
  ends es a = Some (u, v) -> ends es b = Some (v, w) -> adjacent es (a, b).
Proof.
  intros Ha Hb.
  apply ends_Some in Ha as (ea & Hea & Hpa).
  apply ends_Some in Hb as (eb & Heb & Hpb).
  exists ea, eb, v. cbn [fst snd]. split; [exact Hea|]. split; [exact Heb|].
  unfold Entity.end_points in *.
  destruct (np.getitem (Entity.points ea) 0); [|discriminate].
  destruct (np.getitem (Entity.points ea) (-1)); [|discriminate].
  destruct (np.getitem (Entity.points eb) 0); [|discriminate].
  destruct (np.getitem (Entity.points eb) (-1)); [|discriminate].
  cbn [bind] in *. split; congruence.
Qed.

Lemma adjacent_same_ends (es es' : list Entity.t) (ab : nat * nat) :
  (forall c, ends es' c = ends es c) ->
  (exists u v w, ends es (fst ab) = Some (u, v)
                 /\ ends es (snd ab) = Some (v, w)) ->
  adjacent es' ab.
Proof.
  intros H (u & v & w & Ha & Hb). destruct ab as [a b].
  apply (ends_adjacent es' a b u v w); now rewrite H.
Qed.

(** One run of [align] on two distinct entities that meet at [v]. *)
Lemma align_meeting (es : list Entity.t) (a b u v w : nat) :
  a <> b -> u <> v -> v <> w -> u <> w ->
  joins es a u v -> joins es b v w ->
  exists es',
    align (a, b) es = (Ok tt, es')
    /\ ends es' a = Some (u, v) /\ ends es' b = Some (v, w)
    /\ forall c, c <> a -> c <> b -> ends es' c = ends es c.
Proof.
  intros Hab Huv Hvw Huw Ja Jb.
  assert (Hd : forall pa pb,
             pa = (u, v) \/ pa = (v, u) -> pb = (v, w) \/ pb = (w, v) ->
             exists da db, edge_direction pa pb = Ok (da, db)
                           /\ orient da pa = (u, v) /\ orient db pb = (v, w)).
  { intros pa pb [-> | ->] [-> | ->]; unfold edge_direction; cbn [fst snd].
    - destruct (Nat.eqb_spec u v); [congruence|].
      destruct (Nat.eqb_spec u w); [congruence|].
      rewrite Nat.eqb_refl. do 2 eexists. split; [reflexivity|]. auto.
    - destruct (Nat.eqb_spec u w); [congruence|].
      destruct (Nat.eqb_spec u v); [congruence|].
      destruct (Nat.eqb_spec v w); [congruence|].
      rewrite Nat.eqb_refl. do 2 eexists. split; [reflexivity|]. auto.
    - rewrite Nat.eqb_refl. do 2 eexists. split; [reflexivity|]. auto.
    - destruct (Nat.eqb_spec v w); [congruence|].
      rewrite Nat.eqb_refl. do 2 eexists. split; [reflexivity|]. auto. }
  assert (exists pa, ends es a = Some pa /\ (pa = (u, v) \/ pa = (v, u)))
    as (pa & Ha & Hpa) by (destruct Ja; eauto).
  assert (exists pb, ends es b = Some pb /\ (pb = (v, w) \/ pb = (w, v)))
    as (pb & Hb & Hpb) by (destruct Jb; eauto).
  destruct (Hd pa pb Hpa Hpb) as (da & db & He & Oa & Ob).
  destruct (align_ok es a b pa pb da db Ha Hb He) as (es' & Hal & Hends).
  exists es'. split; [exact Hal|].
  assert (Hba : (b =? a)%nat = false) by (apply Nat.eqb_neq; congruence).
  assert (Hab' : (a =? b)%nat = false) by (now apply Nat.eqb_neq).
  split; [|split].
  - rewrite Hends. unfold aligned_ends.
    now rewrite Hab', Nat.eqb_refl, Oa.
  - rewrite Hends. unfold aligned_ends.
    now rewrite Nat.eqb_refl, Hba, Ob.
  - intros c Hca Hcb. rewrite Hends. unfold aligned_ends.
    apply Nat.eqb_neq in Hca, Hcb. now rewrite Hcb, Hca.
Qed.

Lemma linked_ext (link link' : nat -> nat -> nat -> Prop) (path js : list nat)
    (u : nat) :
  (forall a x y, In a path -> link a x y -> link' a x y) ->
  linked link u path js -> linked link' u path js.
Proof.
  revert js u; induction path as [|a path IH]; intros [|v js] u H;
    cbn [linked]; auto.
  intros [Ha Hrest]. split; [apply H; [now left|assumption]|].
  apply IH; [|assumption]. intros; apply H; [now right|assumption].
Qed.

Lemma linked_length (link : nat -> nat -> nat -> Prop) (path js : list nat)
    (u : nat) :
  linked link u path js -> List.length path = List.length js.
Proof.
  revert js u; induction path as [|a path IH]; intros [|v js] u;
    cbn [linked List.length]; try tauto.
  intros [_ H]. f_equal. eauto.
Qed.

Lemma for_each_app {A : Type} (body : A -> M unit) (l1 l2 : list A)
    (es es1 : list Entity.t) :
  for_each body l1 es = (Ok tt, es1) ->
  for_each body (l1 ++ l2) es = for_each body l2 es1.
Proof.
  revert es; induction l1 as [|x l1 IH]; intros es; cbn [for_each app].
  - unfold ret. intros H; now injection H as ->.
  - unfold bindM. destruct (body x es) as [[[]|e] es']; [|discriminate].
    apply IH.
Qed.

(** The loop along an open run of entities: once the first entity runs
    forward, every pair is left running forward. *)
Lemma walk (path : list nat) :
  forall (js : list nat) (es : list Entity.t) (a u v : nat),
    NoDup (a :: path) -> NoDup (u :: v :: js) ->
    ends es a = Some (u, v) -> chain es v path js ->
    exists es',
      for_each align (combine (a :: path) path) es = (Ok tt, es')
      /\ ends es' a = Some (u, v)
      /\ forward es' v path js
      /\ forall c, ~ In c (a :: path) -> ends es' c = ends es c.
Proof.
  induction path as [|b path IH]; intros js es a u v Np Nj Ha Hc.
  { destruct js; [|contradiction]. exists es. cbn. auto. }
  destruct js as [|w js]; [contradiction|]. destruct Hc as [Jb Hc].
  assert (a <> b)
    by (inversion Np as [|? ? Hn _]; intros ->; apply Hn; now left).
  assert (u <> v /\ u <> w /\ v <> w) as (Huv & Huw & Hvw).
  { inversion Nj as [|? ? Hu Nj']; inversion Nj' as [|? ? Hv _]; subst.
    cbn [In] in *. repeat split; intros ->; tauto. }
  destruct (align_meeting es a b u v w) as (es1 & Hal & Ea & Eb & Fr);
    auto; [now left|].
  assert (Nb : NoDup (b :: path)) by now inversion Np.
  assert (Nj' : NoDup (v :: w :: js)) by now inversion Nj.
  assert (Hc1 : chain es1 w path js).
  { unfold chain in *. eapply linked_ext; [|exact Hc].
    intros c x y Hin. unfold joins. rewrite Fr; [auto| |].
    - intros ->. inversion Np; cbn [In] in *; tauto.
    - intros ->. inversion Nb; tauto. }
  destruct (IH js es1 b v w Nb Nj' Eb Hc1) as (es' & Hloop & Eb' & Fw & Fr').
  exists es'. split; [|split; [|split]].
  - change (combine (a :: b :: path) (b :: path))
      with ((a, b) :: combine (b :: path) path).
    cbn [for_each]. unfold bindM. now rewrite Hal.
  - rewrite Fr'; [exact Ea|]. inversion Np; assumption.
  - split; assumption.
  - intros c Hn. rewrite Fr' by (cbn [In] in *; tauto).
    apply Fr; intros ->; cbn [In] in *; tauto.
Qed.

Lemma forward_adjacent (es : list Entity.t) (path js : list nat) :
  forall a u v,
    ends es a = Some (u, v) -> forward es v path js ->
    Forall (adjacent es) (combine (a :: path) path).
Proof.
  revert js; induction path as [|b path IH]; intros js a u v Ha Hf;
    [constructor|].
  destruct js as [|w js]; [contradiction|]. destruct Hf as [Hb Hf].
  change (combine (a :: b :: path) (b :: path))
    with ((a, b) :: combine (b :: path) path).
  constructor; [now apply (ends_adjacent es a b u v w)|].
  now apply (IH js b v w).
Qed.

Lemma forward_last (es : list Entity.t) (path js : list nat) :
  forall a u v,
    ends es a = Some (u, v) -> forward es v path js ->
    exists x, ends es (last (a :: path) 0%nat)
              = Some (x, last (v :: js) 0%nat)
              /\ In x (u :: removelast (v :: js)).
Proof.
  revert js; induction path as [|b path IH]; intros js a u v Ha Hf.
  { destruct js; [|contradiction]. exists u. cbn. auto. }
  destruct js as [|w js]; [contradiction|]. destruct Hf as [Hb Hf].
  destruct (IH js b v w Hb Hf) as (x & Hx & Hin).
  exists x. split.
  - exact Hx.
  - change (removelast (v :: w :: js)) with (v :: removelast (w :: js)).
    now right.
Qed.

Lemma adjacent_ends (es : list Entity.t) (a b : nat) :
  adjacent es (a, b) <->
  exists u v w, ends es a = Some (u, v) /\ ends es b = Some (v, w).
Proof.
  split.
  - intros (ea & eb & x & Ha & Hb & Hl & Hf). cbn [fst snd] in *.
    unfold ends. rewrite Ha, Hb. unfold Entity.end_points.
    destruct (Entity.points ea) as [|y l];
      [rewrite getitem_nil in Hl; discriminate|].
    destruct (Entity.points eb) as [|z m];
      [rewrite getitem_nil in Hf; discriminate|].
    rewrite getitem_head in Hf. injection Hf as <-.
    rewrite !getitem_head, Hl.
    rewrite (getitem_last _ z) by discriminate. cbn [bind]. eauto.
  - intros (u & v & w & Ha & Hb). now apply (ends_adjacent es a b u v w).
Qed.

Lemma adjacent_ext (es es' : list Entity.t) (ab : nat * nat) :
  (forall c, ends es' c = ends es c) -> adjacent es ab -> adjacent es' ab.
Proof.
  destruct ab as [a b]. intros H Hadj.
  apply adjacent_ends in Hadj as (u & v & w & Ha & Hb).
  apply adjacent_ends. exists u, v, w. now rewrite !H.
Qed.

Lemma combine_snoc {A : Type} (rest : list A) :
  forall (a z : A) (d : A),
    combine (a :: rest) (rest ++ [z])
    = combine (a :: rest) rest ++ [(last (a :: rest) d, z)].
Proof.
  induction rest as [|b rest IH]; intros a z d; [reflexivity|].
  change (combine (a :: b :: rest) ((b :: rest) ++ [z]))
    with ((a, b) :: combine (b :: rest) (rest ++ [z])).
  rewrite (IH b z d). reflexivity.
Qed.

Lemma in_removelast {A : Type} (l : list A) (x : A) :
  In x (removelast l) -> In x l.
Proof.
  induction l as [|y l IH]; [auto|].
  destruct l as [|z l]; [intros []|].
  change (removelast (y :: z :: l)) with (y :: removelast (z :: l)).
  intros [H|H]; [now left|right; now apply IH].
Qed.

Lemma removelast_not_last {A : Type} (l : list A) (x d : A) :
  NoDup l -> In x (removelast l) -> x <> last l d.
Proof.
  induction l as [|y l IH]; [intros _ []|].
  destruct l as [|z l]; [intros _ []|].
  change (removelast (y :: z :: l)) with (y :: removelast (z :: l)).
  change (last (y :: z :: l) d) with (last (z :: l) d).
  intros N [H|H].
  - subst y. inversion N as [|? ? Hn _]. intros ->. apply Hn.
    destruct (exists_last (l := z :: l)) as (m & t & E); [discriminate|].
    rewrite E, last_last. apply in_or_app. right. now left.
  - apply IH; [now inversion N|assumption].
Qed.

Lemma in_last {A : Type} (l : list A) (d : A) : l <> [] -> In (last l d) l.
Proof.
  intros H. destruct (exists_last H) as (m & t & ->).
  rewrite last_last. apply in_or_app. right. now left.
Qed.

(** One run of [align] on two distinct entities between the same two
    vertices: afterwards they run in opposite directions. *)
Lemma align_facing (es : list Entity.t) (a b x y : nat) :
  a <> b -> x <> y -> joins es a x y -> joins es b x y ->
  exists es' q,
    align (a, b) es = (Ok tt, es')
    /\ ends es' a = Some q /\ ends es' b = Some (swap q)
    /\ (q = (x, y) \/ q = (y, x))
    /\ forall c, c <> a -> c <> b -> ends es' c = ends es c.
Proof.
  intros Hab Hxy Ja Jb.
  assert (Hd : forall pa pb,
             pa = (x, y) \/ pa = (y, x) -> pb = (x, y) \/ pb = (y, x) ->
             exists da db, edge_direction pa pb = Ok (da, db)
                           /\ orient db pb = swap (orient da pa)
                           /\ (orient da pa = (x, y) \/ orient da pa = (y, x))).
  { intros pa pb [-> | ->] [-> | ->]; unfold edge_direction; cbn [fst snd];
      rewrite ?Nat.eqb_refl;
      try (destruct (Nat.eqb_spec x y); [congruence|]);
      try (destruct (Nat.eqb_spec y x); [congruence|]);
      rewrite ?Nat.eqb_refl;
      do 2 eexists; (split; [reflexivity|]); cbn; auto. }
  assert (exists pa, ends es a = Some pa /\ (pa = (x, y) \/ pa = (y, x)))
    as (pa & Ha & Hpa) by (destruct Ja; eauto).
  assert (exists pb, ends es b = Some pb /\ (pb = (x, y) \/ pb = (y, x)))
    as (pb & Hb & Hpb) by (destruct Jb; eauto).
  destruct (Hd pa pb Hpa Hpb) as (da & db & He & Ob & Oa).
  destruct (align_ok es a b pa pb da db Ha Hb He) as (es' & Hal & Hends).
  exists es', (orient da pa). split; [exact Hal|].
  assert (Hba : (b =? a)%nat = false) by (apply Nat.eqb_neq; congruence).
  assert (Hab' : (a =? b)%nat = false) by (now apply Nat.eqb_neq).
  split; [|split; [|split]].
  - rewrite Hends. unfold aligned_ends. now rewrite Hab', Nat.eqb_refl.
  - rewrite Hends. unfold aligned_ends. now rewrite Nat.eqb_refl, Hba, Ob.
  - exact Oa.
  - intros c Hca Hcb. rewrite Hends. unfold aligned_ends.
    apply Nat.eqb_neq in Hca, Hcb. now rewrite Hcb, Hca.
Qed.

(** The loop on a simple closed loop of at least two entities ends
    normally and leaves every adjacent pair meeting tail to head. *)
Lemma simple_cycle_aligned (es : list Entity.t) (path : list nat)
    (pairs : list (nat * nat)) :
  NoDup path -> (2 <= List.length path)%nat -> simple_cycle es path ->
  round_trip path = Ok pairs ->
  exists es', for_each align pairs es = (Ok tt, es')
              /\ Forall (adjacent es') pairs.
Proof.
  intros Np Hlen (js & Nj & Hc) Hr.
  destruct path as [|p0 [|p1 rest]]; cbn [List.length] in Hlen; try lia.
  pose proof (linked_length _ _ _ _ Hc) as Hl.
  destruct js as [|s0 [|s1 js']]; try discriminate.
  rewrite round_trip_cons in Hr.
  assert (Hp : pairs = (p0, p1) :: combine (p1 :: rest) (rest ++ [p0]))
    by (now injection Hr).
  clear Hr.
  assert (H01 : p0 <> p1)
    by (inversion Np as [|? ? Hn _]; intros ->; apply Hn; now left).
  assert (Hs01 : s0 <> s1)
    by (inversion Nj as [|? ? Hn _]; intros ->; apply Hn; now left).
  destruct Hc as (J0 & J1 & Hc).
  destruct rest as [|b rest'].
  - (* two entities *)
    destruct js' as [|? ?]; [|discriminate]. cbn [last] in J0.
    assert (J0' : joins es p0 s0 s1) by (destruct J0; [right|left]; auto).
    destruct (align_facing es p0 p1 s0 s1 H01 Hs01 J0' J1)
      as (es1 & q & Hal1 & E0 & E1 & Hq & _).
    assert (J1' : joins es1 p1 s0 s1).
    { unfold joins. rewrite E1.
      destruct Hq as [-> | ->]; cbn; auto. }
    assert (J0'' : joins es1 p0 s0 s1)
      by (unfold joins; rewrite E0; destruct Hq as [-> | ->]; auto).
    destruct (align_facing es1 p1 p0 s0 s1 (not_eq_sym H01) Hs01 J1' J0'')
      as (es2 & q2 & Hal2 & F1 & F0 & _ & _).
    subst pairs. exists es2. split.
    + cbn [app combine for_each]. unfold bindM. rewrite Hal1, Hal2.
      reflexivity.
    + destruct q2 as [x y]. cbn [app combine].
      constructor; [|constructor; [|constructor]].
      * now apply (ends_adjacent es2 p0 p1 y x y).
      * now apply (ends_adjacent es2 p1 p0 x y x).
  - (* three entities or more *)
    destruct js' as [|w js'']; [discriminate|].
    change (last (s0 :: s1 :: w :: js'') 0%nat)
      with (last (w :: js'') 0%nat) in J0.
    set (rest := b :: rest') in *. set (js' := w :: js'') in *.
    set (sl := last js' 0%nat) in *.
    assert (Hsl : In sl js') by (apply in_last; discriminate).
    assert (Hsl0 : sl <> s0).
    { inversion Nj as [|? ? Hn _]. intros E. apply Hn. rewrite <- E.
      now right. }
    assert (Hsl1 : sl <> s1).
    { inversion Nj as [|? ? _ Nj1]. inversion Nj1 as [|? ? Hn _].
      intros E. apply Hn. now rewrite <- E. }
    destruct (align_meeting es p0 p1 sl s0 s1)
      as (es1 & Hal1 & E0 & E1 & Fr1); auto.
    assert (Np1 : NoDup (p1 :: rest)) by now inversion Np.
    assert (Hc1 : chain es1 s1 rest js').
    { unfold chain in *. eapply linked_ext; [|exact Hc].
      intros c x y Hin. unfold joins. rewrite Fr1; [auto| |].
      - intros ->. inversion Np as [|? ? Hn _]. apply Hn. now right.
      - intros ->. inversion Np1; tauto. }
    destruct (walk rest js' es1 p1 s0 s1 Np1 Nj E1 Hc1)
      as (es2 & Hwalk & E1' & Fw & Fr2).
    assert (E0' : ends es2 p0 = Some (sl, s0)).
    { rewrite Fr2; [exact E0|]. now inversion Np. }
    destruct Fw as [Eb Fw'].
    destruct (forward_last es2 rest' js'' b s1 w Eb Fw') as (x & Hx & Hin).
    set (pl := last (b :: rest') 0%nat) in *.
    change (last (w :: js'') 0%nat) with sl in Hx.
    assert (Hpl : In pl (p1 :: rest)) by (right; apply in_last; discriminate).
    assert (Hpl0 : pl <> p0).
    { intros E. inversion Np as [|? ? Hn _]. apply Hn. now rewrite <- E. }
    assert (Nj1 : NoDup (s1 :: js')) by now inversion Nj.
    assert (Hx0 : x <> s0).
    { intros ->. inversion Nj as [|? ? Hn _]. apply Hn.
      destruct Hin as [<-|Hin]; [now left|right].
      now apply in_removelast. }
    assert (Hxl : x <> sl).
    { destruct Hin as [<-|Hin]; [now apply not_eq_sym|].
      apply removelast_not_last; [now inversion Nj1|assumption]. }
    destruct (align_meeting es2 pl p0 x sl s0)
      as (es3 & Hal3 & El & E0'' & Fr3); auto;
      [now left|now left|].
    assert (Hsame : forall c, ends es3 c = ends es2 c).
    { intros c. destruct (Nat.eq_dec c pl) as [->|Hcl]; [congruence|].
      destruct (Nat.eq_dec c p0) as [->|Hc0]; [congruence|]. now apply Fr3. }
    rewrite (combine_snoc rest p1 p0 0%nat) in Hp. subst pairs.
    change (last (p1 :: rest) 0%nat) with pl.
    exists es3. split.
    + cbn [for_each]. unfold bindM at 1. rewrite Hal1.
      rewrite (for_each_app _ _ _ _ _ Hwalk).
      cbn [for_each]. unfold bindM. rewrite Hal3. reflexivity.
    + constructor.
      * apply (adjacent_ext es2); [exact Hsame|].
        now apply (ends_adjacent es2 p0 p1 sl s0 s1).
      * apply Forall_app. split.
        -- eapply Forall_impl;
             [intros ab; apply (adjacent_ext es2); exact Hsame|].
           apply (forward_adjacent es2 rest js' p1 s0 s1); [exact E1'|].
           split; assumption.
        -- constructor; [|constructor].
           now apply (ends_adjacent es3 _ _ x sl s0).
Qed.


(** * Further properties *)

(** ** The arrays of PathSample *)

Lemma diff_length (a : list point) :
  List.length (np.diff a) = (List.length a - 1)%nat.
Proof.
  induction a as [|p a IH]; [reflexivity|].
  destruct a as [|q a]; [reflexivity|].
  change (np.diff (p :: q :: a)) with (np.sub q p :: np.diff (q :: a)).
  cbn [List.length] in *. lia.
Qed.

Lemma init_lengths (tol : Tolerance) (points : list point) :
  let self := PathSample.__init__ tol points in
  List.length (PathSample._vectors self) = (List.length points - 1)%nat
  /\ List.length (PathSample._norms self) = (List.length points - 1)%nat
  /\ List.length (PathSample._unit_vec self) = (List.length points - 1)%nat
  /\ List.length (PathSample._cum_norm self) = (List.length points - 1)%nat
  /\ PathSample._points self = points.
Proof.
  cbn [PathSample.__init__ PathSample._vectors PathSample._norms
       PathSample._unit_vec PathSample._cum_norm PathSample._points].
  unfold np.cumsum.
  rewrite zip_with_map_length, cumsum_from_length, length_map, diff_length.
  auto.
Qed.

(** X1: the arrays [__init__] computes have one entry per segment: for
    an [(n, d)] array of points there are [n - 1] vectors, norms, unit
    vectors and cumulative lengths (none when [n] is 0), and the points
    are kept as given. *)
Theorem init_shapes (tol : Tolerance) (points : list point) :
  let self := PathSample.__init__ tol points in
  List.length (PathSample._vectors self) = (List.length points - 1)%nat
  /\ List.length (PathSample._norms self) = (List.length points - 1)%nat
  /\ List.length (PathSample._unit_vec self) = (List.length points - 1)%nat
  /\ List.length (PathSample._cum_norm self) = (List.length points - 1)%nat
  /\ PathSample._points self = points.
Proof. exact (init_lengths tol points). Qed.

Lemma sum_sq_nonneg (v : point) : 0 <= np.sum (map (fun x => x * x) v).
Proof.
  induction v as [|x v IH]; cbn [map np.sum fold_right]; [lra|].
  fold (np.sum (map (fun x => x * x) v)). nra.
Qed.

Lemma norm_sq (v : point) :
  np.norm v * np.norm v = np.sum (map (fun x => x * x) v).
Proof. unfold np.norm. apply sqrt_sqrt, sum_sq_nonneg. Qed.

Lemma sum_sq_scale (v : point) (k : R) :
  np.sum (map (fun x => x * x) (np.scale v k))
  = k * k * np.sum (map (fun x => x * x) v).
Proof.
  unfold np.scale. induction v as [|x v IH];
    cbn [map np.sum fold_right]; [lra|].
  fold (np.sum (map (fun x => x * x) (map (fun x => x * k) v))).
  fold (np.sum (map (fun x => x * x) v)). rewrite IH. lra.
Qed.

Lemma norm_scale (v : point) (k : R) :
  0 <= k -> np.norm (np.scale v k) = k * np.norm v.
Proof.
  intros Hk. apply norm_value.
  - pose proof (norm_nonneg v). nra.
  - rewrite sum_sq_scale, <- norm_sq. lra.
Qed.

Lemma divide_scale (v : point) (k : R) : np.divide v k = np.scale v (/ k).
Proof. reflexivity. Qed.

Lemma norm_unit (v : point) :
  0 < np.norm v -> np.norm (np.divide v (np.norm v)) = 1.
Proof.
  intros H. rewrite divide_scale, norm_scale.
  - field. lra.
  - left. now apply Rinv_0_lt_compat.
Qed.

(** X2: with a non-negative zero tolerance, the unit direction of every
    segment longer than [tol.zero] has Euclidean norm 1. *)
Theorem unit_vec_has_unit_norm (tol : Tolerance) (points : list point)
    (i : nat) (n : R) (u : point) :
  0 <= zero tol ->
  nth_error (PathSample._norms (PathSample.__init__ tol points)) i = Some n ->
  zero tol < n ->
  nth_error (PathSample._unit_vec (PathSample.__init__ tol points)) i
  = Some u ->
  np.norm u = 1.
Proof.
  cbn [PathSample.__init__ PathSample._norms PathSample._unit_vec].
  intros Hz Hn Hlt Hu. rewrite zip_with_map_nth in Hu.
  rewrite nth_error_map in Hn.
  destruct (nth_error (np.diff points) i) as [v|]; [|discriminate].
  cbn [option_map] in *. injection Hn as <-. injection Hu as <-.
  rewrite Rltb_true by assumption. apply norm_unit. lra.
Qed.

Lemma unit_vec_has_unit_norm_witness :
  0 <= zero tol_path
  /\ nth_error
       (PathSample._norms (PathSample.__init__ tol_path [[0; 0]; [3; 4]])) 0
     = Some (np.norm [3 - 0; 4 - 0])
  /\ zero tol_path < np.norm [3 - 0; 4 - 0]
  /\ np.norm (np.divide [3 - 0; 4 - 0] (np.norm [3 - 0; 4 - 0])) = 1.
Proof.
  assert (Hz : 0 <= zero tol_path) by (simpl; lra).
  assert (Hn : nth_error
                 (PathSample._norms
                    (PathSample.__init__ tol_path [[0; 0]; [3; 4]])) 0
               = Some (np.norm [3 - 0; 4 - 0])) by reflexivity.
  assert (Hlt : zero tol_path < np.norm [3 - 0; 4 - 0]).
  { rewrite (norm_value _ 5) by (cbn; lra). simpl. lra. }
  split; [exact Hz|]. split; [exact Hn|]. split; [exact Hlt|].
  apply (unit_vec_has_unit_norm tol_path [[0; 0]; [3; 4]] 0
           (np.norm [3 - 0; 4 - 0]) _ Hz Hn Hlt).
  cbn [PathSample.__init__ PathSample._unit_vec np.diff map np.zip_with
       nth_error].
  now rewrite Rltb_true by exact Hlt.
Defined.

(** ** PathSample.sample, one distance at a time *)

Lemma mapM_app {A B : Type} (f : A -> result B) (l1 l2 : list A) :
  mapM f (l1 ++ l2)
  = (r1 <- mapM f l1 ;; r2 <- mapM f l2 ;; Ok (r1 ++ r2)).
Proof.
  induction l1 as [|x l1 IH]; cbn [app mapM bind].
  - now destruct (mapM f l2).
  - destruct (f x) as [y|e]; [|reflexivity]. cbn [bind]. rewrite IH.
    destruct (mapM f l1) as [r1|e]; [|reflexivity]. cbn [bind].
    now destruct (mapM f l2).
Qed.

Lemma mapM_length {A B : Type} (f : A -> result B) (l : list A)
    (r : list B) :
  mapM f l = Ok r -> List.length r = List.length l.
Proof.
  revert r; induction l as [|x l IH]; intros r; cbn [mapM].
  - intros H; now injection H as <-.
  - destruct (f x) as [y|]; [|discriminate]. cbn [bind].
    destruct (mapM f l) as [ys|]; [|discriminate]. cbn [bind].
    intros H; injection H as <-. cbn [List.length]. f_equal. now apply IH.
Qed.

Lemma getitem_error {A : Type} (a : list A) (i : Z) :
  (exists x, np.getitem a i = Ok x) \/ np.getitem a i = Raise IndexError.
Proof.
  destruct (np.getitem a i) as [x|e] eqn:E; [eauto|].
  right. now apply getitem_raises in E as ->.
Qed.

Lemma take_error {A : Type} (a : list A) (idx : list Z) :
  (exists l, np.take a idx = Ok l) \/ np.take a idx = Raise IndexError.
Proof.
  destruct (np.take a idx) as [l|e] eqn:E; [eauto|].
  right. now apply take_raises in E as ->.
Qed.

Lemma sample_pointwise (self : PathSample.t) (distances : list R) :
  PathSample.sample self distances = mapM (sample_at self) distances.
Proof.
  unfold PathSample.sample.
  induction distances as [|d ds IH]; [reflexivity|].
  cbn [map np.take mapM] in *. unfold sample_at at 1.
  set (pos := np.clip _ _ _).
  set (positions := map _ (map _ ds)) in *.
  fold (np.take (0 :: PathSample._cum_norm self) positions) in *.
  fold (np.take (PathSample._unit_vec self) positions) in *.
  fold (np.take (PathSample._points self) positions) in *.
  rewrite <- IH. clear IH.
  destruct (getitem_error (0 :: PathSample._cum_norm self) pos)
    as [(o & ->)| ->]; [|reflexivity].
  cbn [bind].
  destruct (take_error (0 :: PathSample._cum_norm self) positions)
    as [(os & ->)| ->]; cbn [bind].
  - destruct (getitem_error (PathSample._unit_vec self) pos)
      as [(u & ->)| ->]; [|reflexivity].
    cbn [bind].
    destruct (take_error (PathSample._unit_vec self) positions)
      as [(us & ->)| ->]; cbn [bind].
    + destruct (getitem_error (PathSample._points self) pos)
        as [(p & ->)| ->]; [|reflexivity].
      cbn [bind].
      destruct (take_error (PathSample._points self) positions)
        as [(ps & ->)| ->]; reflexivity.
    + destruct (getitem_error (PathSample._points self) pos)
        as [(p & ->)| ->]; reflexivity.
  - destruct (getitem_error (PathSample._unit_vec self) pos)
      as [(u & ->)| ->]; [|reflexivity].
    cbn [bind].
    destruct (getitem_error (PathSample._points self) pos)
      as [(p & ->)| ->]; reflexivity.
Qed.

(** X3: a batch of distances is sampled distance by distance, in the order
    given: sampling the batch [ds1 ++ ds2] gives the samples of [ds1]
    followed by those of [ds2], and fails exactly when one of them fails. *)
Theorem sample_batch (self : PathSample.t) (ds1 ds2 : list R) :
  PathSample.sample self (ds1 ++ ds2)
  = (r1 <- PathSample.sample self ds1 ;;
     r2 <- PathSample.sample self ds2 ;;
     Ok (r1 ++ r2)).
Proof. rewrite !sample_pointwise. apply mapM_app. Qed.

Lemma getitem_in_range {A : Type} (a : list A) (i : Z) :
  (0 <= i < np.len a)%Z -> exists x, np.getitem a i = Ok x.
Proof.
  intros H. unfold np.len in H.
  destruct (nth_error a (Z.to_nat i)) as [x|] eqn:E.
  - exists x. rewrite <- (Z2Nat.id i) by lia. now apply getitem_nth.
  - apply nth_error_None in E. lia.
Qed.

Lemma sample_at_ok (tol : Tolerance) (p q : point) (rest : list point)
    (d : R) :
  exists r, sample_at (PathSample.__init__ tol (p :: q :: rest)) d = Ok r.
Proof.
  unfold sample_at.
  set (self := PathSample.__init__ tol (p :: q :: rest)).
  destruct (init_lengths tol (p :: q :: rest)) as (_ & _ & Hu & Hc & Hp).
  fold self in Hu, Hc, Hp. cbn [List.length] in Hu, Hc.
  set (pos := np.clip _ _ _).
  assert (Hpos : (0 <= pos < np.len (PathSample._unit_vec self))%Z).
  { subst pos. unfold np.clip, np.len. rewrite Hu. lia. }
  unfold np.len in Hpos. rewrite Hu in Hpos.
  destruct (getitem_in_range (0 :: PathSample._cum_norm self) pos)
    as (o & ->).
  { unfold np.len. cbn [List.length]. rewrite Hc. lia. }
  destruct (getitem_in_range (PathSample._unit_vec self) pos) as (u & ->).
  { unfold np.len. rewrite Hu. lia. }
  destruct (getitem_in_range (PathSample._points self) pos) as (o' & ->).
  { unfold np.len. rewrite Hp. cbn [List.length]. lia. }
  cbn [bind]. eauto.
Qed.

(** X4: on a polyline of at least two points [sample] never raises: every
    batch of distances, whatever their values, yields one point per
    distance. *)
Theorem sample_total (tol : Tolerance) (p q : point) (rest : list point)
    (distances : list R) :
  exists resampled,
    PathSample.sample (PathSample.__init__ tol (p :: q :: rest)) distances
    = Ok resampled
    /\ List.length resampled = List.length distances.
Proof.
  rewrite sample_pointwise.
  assert (H : exists r,
             mapM (sample_at (PathSample.__init__ tol (p :: q :: rest)))
               distances = Ok r).
  { induction distances as [|d ds (rs & IH)]; [now exists []|].
    destruct (sample_at_ok tol p q rest d) as (r & Hr).
    exists (r :: rs). cbn [mapM]. now rewrite Hr, IH. }
  destruct H as (r & H). exists r. split; [exact H|].
  now apply mapM_length in H.
Qed.

(** X5: on an [(n, d)] array of fewer than two points [sample] raises
    [IndexError] for every non-empty batch of distances: there is no
    segment direction to read. *)
Theorem sample_without_segment (tol : Tolerance) (points : list point)
    (d : R) (ds : list R) :
  (List.length points < 2)%nat ->
  PathSample.sample (PathSample.__init__ tol points) (d :: ds)
  = Raise IndexError.
Proof.
  intros H. rewrite sample_pointwise. cbn [mapM].
  assert (E : sample_at (PathSample.__init__ tol points) d = Raise IndexError).
  { destruct points as [|p [|q rest]]; [reflexivity|reflexivity|].
    cbn [List.length] in H. lia. }
  now rewrite E.
Qed.

Lemma sample_without_segment_witness :
  (List.length [[1; 2]] < 2)%nat
  /\ PathSample.sample (PathSample.__init__ tol_path [[1; 2]]) [0; 1]
     = Raise IndexError.
Proof.
  assert (H : (List.length [[1; 2]] < 2)%nat) by (cbn; lia).
  split; [exact H|].
  exact (sample_without_segment tol_path [[1; 2]] 0 [1] H).
Defined.

(** ** Locating a distance on the polyline *)

Lemma diff_nth (pts : list point) (k : nat) (a b : point) :
  nth_error pts k = Some a -> nth_error pts (S k) = Some b ->
  nth_error (np.diff pts) k = Some (np.sub b a).
Proof.
  revert k; induction pts as [|p pts IH]; intros k Ha Hb;
    [destruct k; discriminate|].
  destruct pts as [|q pts]; [destruct k as [|[|k]]; discriminate|].
  change (np.diff (p :: q :: pts)) with (np.sub q p :: np.diff (q :: pts)).
  destruct k as [|k].
  - cbn in Ha, Hb. injection Ha as <-. injection Hb as <-. reflexivity.
  - cbn [nth_error] in *. now apply IH.
Qed.

(** The segment that contains the arc length [d]: [searchsorted] returns
    its index [k], and the cumulative lengths on either side of it
    enclose [d]. *)
Lemma locate (pts : list point) :
  forall (acc d : R),
    acc < d <= acc + np.sum (map np.norm (np.diff pts)) ->
    exists (k : nat) (a b : point) (c c' : R),
      np.searchsorted (np.cumsum_from acc (map np.norm (np.diff pts))) d
      = Z.of_nat k
      /\ nth_error
           (acc :: np.cumsum_from acc (map np.norm (np.diff pts))) k = Some c
      /\ nth_error (np.cumsum_from acc (map np.norm (np.diff pts))) k
         = Some c'
      /\ c < d <= c'
      /\ nth_error pts k = Some a /\ nth_error pts (S k) = Some b
      /\ c' = c + np.norm (np.sub b a)
      /\ c = acc + np.sum (map np.norm (np.diff (firstn (S k) pts))).
Proof.
  induction pts as [|p pts IH]; intros acc d Hd; [cbn in Hd; lra|].
  destruct pts as [|q pts]; [cbn in Hd; lra|].
  change (np.diff (p :: q :: pts)) with (np.sub q p :: np.diff (q :: pts))
    in *.
  cbn [map np.cumsum_from np.searchsorted np.sum fold_right] in *.
  fold (np.sum (map np.norm (np.diff (q :: pts)))) in Hd.
  set (n := np.norm (np.sub q p)) in *.
  destruct (Rlt_dec (acc + n) d) as [Hlt|Hge].
  - rewrite Rltb_true by assumption.
    destruct (IH (acc + n) d) as (k & a & b & c & c' & Hs & Hc & Hc' & Hcd
                                  & Ha & Hb & Hn & Hp); [lra|].
    exists (S k), a, b, c, c'. rewrite Hs.
    split; [lia|]. split; [exact Hc|]. split; [exact Hc'|].
    split; [exact Hcd|]. split; [exact Ha|]. split; [exact Hb|].
    split; [exact Hn|].
    change (firstn (S (S k)) (p :: q :: pts))
      with (p :: q :: firstn k pts).
    change (np.diff (p :: q :: firstn k pts))
      with (np.sub q p :: np.diff (firstn (S k) (q :: pts))).
    cbn [map np.sum fold_right].
    fold (np.sum (map np.norm (np.diff (firstn (S k) (q :: pts))))).
    fold n. lra.
  - rewrite Rltb_false by lra.
    exists 0%nat, p, q, acc, (acc + n).
    cbn [nth_error firstn np.diff map np.sum fold_right].
    repeat split; try reflexivity; lra.
Qed.

Lemma sub_add_cancel (a w : point) :
  List.length w = List.length a -> np.sub (np.add a w) a = w.
Proof.
  revert w; induction a as [|x a IH]; intros [|y w] H; try discriminate;
    [reflexivity|].
  injection H as H. unfold np.sub, np.add in *. cbn [np.zip_with].
  rewrite IH by assumption. f_equal. lra.
Qed.

Lemma scale_length (v : point) (k : R) :
  List.length (np.scale v k) = List.length v.
Proof. unfold np.scale. apply length_map. Qed.

Lemma sub_length (dim : nat) (a b : point) :
  List.length a = dim -> List.length b = dim ->
  List.length (np.sub b a) = dim.
Proof.
  intros Ha Hb. unfold np.sub. rewrite zip_with_length. lia.
Qed.

Lemma scale_scale (v : point) (j k : R) :
  np.scale (np.scale v j) k = np.scale v (j * k).
Proof.
  unfold np.scale. rewrite map_map. apply map_ext. intros; lra.
Qed.

Lemma Forall_nth_error {A : Type} (P : A -> Prop) (l : list A) (k : nat)
    (x : A) :
  Forall P l -> nth_error l k = Some x -> P x.
Proof.
  intros F H. rewrite Forall_forall in F. eapply F, nth_error_In; eauto.
Qed.

Lemma slice_to_of_nat {A : Type} (a : list A) (n : nat) :
  np.slice_to a (Z.of_nat n) = firstn n a.
Proof.
  unfold np.slice_to. destruct (Z.ltb_spec (Z.of_nat n) 0); [lia|].
  now rewrite Nat2Z.id.
Qed.

(** ** PathSample.sample at an arc length inside the path *)

(** The sample at a distance whose segment is known. *)
Lemma sample_at_located (tol : Tolerance) (points : list point) (dim : nat)
    (d : R) (k : nat) (a b : point) (c : R) :
  Forall (fun p => List.length p = dim) points ->
  np.searchsorted (np.cumsum_from 0 (map np.norm (np.diff points))) d
  = Z.of_nat k ->
  nth_error (0 :: np.cumsum_from 0 (map np.norm (np.diff points))) k
  = Some c ->
  nth_error points k = Some a -> nth_error points (S k) = Some b ->
  zero tol < np.norm (np.sub b a) ->
  sample_at (PathSample.__init__ tol points) d
  = Ok (np.add a (np.scale (np.sub b a) ((d - c) / np.norm (np.sub b a)))).
Proof.
  intros Hdim Hs Hc0 Ha Hb Hnk.
  destruct (init_lengths tol points) as (_ & _ & Hu & _ & _).
  cbn [PathSample.__init__ PathSample._unit_vec] in Hu.
  assert (Hk : (S k < List.length points)%nat)
    by (apply nth_error_Some; congruence).
  assert (Hv : nth_error (np.diff points) k = Some (np.sub b a))
    by now apply diff_nth.
  unfold sample_at.
  cbn [PathSample.__init__ PathSample._unit_vec PathSample._cum_norm
       PathSample._points].
  unfold np.cumsum. rewrite Hs.
  replace (np.clip (Z.of_nat k) 0 _) with (Z.of_nat k)
    by (unfold np.clip, np.len; rewrite Hu; lia).
  rewrite (getitem_nth _ _ _ Hc0). cbn [bind].
  erewrite getitem_nth by (rewrite zip_with_map_nth, Hv; reflexivity).
  cbn [bind]. rewrite (getitem_nth _ _ _ Ha). cbn [bind].
  rewrite Rltb_true by assumption.
  rewrite divide_scale, scale_scale.
  do 3 f_equal. unfold Rdiv. lra.
Qed.

(** X6: on a polyline of points of one dimension whose segments are all
    longer than [tol.zero], sampling one arc length [d] with
    [0 < d <= length] returns the point [r] of the segment [a]-[b] that
    contains [d]: [r = a + t (b - a)] with [0 < t <= 1], and the length of
    the path up to [a] plus the distance from [a] to [r] is [d]. *)
Theorem sample_inside (tol : Tolerance) (points : list point) (dim : nat)
    (d : R) :
  0 <= zero tol ->
  Forall (fun p => List.length p = dim) points ->
  Forall (fun n => zero tol < n)
    (PathSample._norms (PathSample.__init__ tol points)) ->
  0 < d <= PathSample.length (PathSample.__init__ tol points) ->
  exists (k : nat) (a b r : point) (t : R),
    PathSample.sample (PathSample.__init__ tol points) [d] = Ok [r]
    /\ nth_error points k = Some a /\ nth_error points (S k) = Some b
    /\ r = np.add a (np.scale (np.sub b a) t)
    /\ 0 < t <= 1
    /\ np.sum (map np.norm (np.diff (firstn (S k) points)))
       + np.norm (np.sub r a) = d.
Proof.
  intros Hz Hdim Hnorms Hd.
  cbn [PathSample.__init__ PathSample._norms PathSample.length] in Hnorms, Hd.
  destruct (locate points 0 d) as (k & a & b & c & c' & Hs & Hc0 & Hc' & Hcd
                                   & Ha & Hb & Hn & Hp); [lra|].
  set (n := np.norm (np.sub b a)) in *.
  assert (Hv : nth_error (np.diff points) k = Some (np.sub b a))
    by now apply diff_nth.
  assert (Hnk : zero tol < n).
  { apply (Forall_nth_error _ _ k _ Hnorms).
    now rewrite nth_error_map, Hv. }
  assert (Hla : List.length a = dim)
    by exact (Forall_nth_error _ _ _ _ Hdim Ha).
  assert (Hlb : List.length b = dim)
    by exact (Forall_nth_error _ _ _ _ Hdim Hb).
  exists k, a, b,
    (np.add a (np.scale (np.sub b a) ((d - c) / n))), ((d - c) / n).
  assert (Hi : 0 < / n) by (apply Rinv_0_lt_compat; lra).
  assert (Ht : 0 < (d - c) / n <= 1).
  { split.
    - apply Rdiv_lt_0_compat; lra.
    - unfold Rdiv. replace 1 with (n * / n) by (field; lra).
      apply Rmult_le_compat_r; lra. }
  split; [|split; [exact Ha|split; [exact Hb|split; [reflexivity|split]]]].
  - rewrite sample_pointwise. cbn [mapM].
    now rewrite (sample_at_located tol points dim d k a b c).
  - exact Ht.
  - rewrite sub_add_cancel
      by (rewrite scale_length; rewrite (sub_length dim); auto).
    rewrite norm_scale by lra. fold n.
    replace ((d - c) / n * n) with (d - c) by (field; lra). lra.
Qed.

Lemma sample_inside_witness :
  0 <= zero tol_path
  /\ Forall (fun p => List.length p = 2%nat) [[0; 0]; [10; 0]]
  /\ Forall (fun n => zero tol_path < n)
       (PathSample._norms (PathSample.__init__ tol_path [[0; 0]; [10; 0]]))
  /\ 0 < 4
       <= PathSample.length (PathSample.__init__ tol_path [[0; 0]; [10; 0]])
  /\ exists (k : nat) (a b r : point) (t : R),
       PathSample.sample (PathSample.__init__ tol_path [[0; 0]; [10; 0]]) [4]
       = Ok [r]
       /\ nth_error [[0; 0]; [10; 0]] k = Some a
       /\ nth_error [[0; 0]; [10; 0]] (S k) = Some b
       /\ r = np.add a (np.scale (np.sub b a) t)
       /\ 0 < t <= 1
       /\ np.sum (map np.norm (np.diff (firstn (S k) [[0; 0]; [10; 0]])))
          + np.norm (np.sub r a) = 4.
Proof.
  assert (Hz : 0 <= zero tol_path) by (simpl; lra).
  assert (Hd : Forall (fun p : point => List.length p = 2%nat)
                 [[0; 0]; [10; 0]]) by (repeat constructor).
  assert (Hn : np.norm [10 - 0; 0 - 0] = 10)
    by (apply norm_value; [lra|cbn; lra]).
  assert (Hs : Forall (fun n => zero tol_path < n)
                 (PathSample._norms
                    (PathSample.__init__ tol_path [[0; 0]; [10; 0]]))).
  { cbn [PathSample.__init__ PathSample._norms np.diff map np.sub
         np.zip_with].
    constructor; [|constructor]. rewrite Hn. simpl. lra. }
  assert (HL : 0 < 4 <= PathSample.length
                          (PathSample.__init__ tol_path [[0; 0]; [10; 0]])).
  { cbn [PathSample.__init__ PathSample.length np.diff map np.sub
         np.zip_with np.sum fold_right]. rewrite Hn. lra. }
  split; [exact Hz|]. split; [exact Hd|]. split; [exact Hs|].
  split; [exact HL|].
  exact (sample_inside tol_path [[0; 0]; [10; 0]] 2 4 Hz Hd Hs HL).
Defined.

(** ** PathSample.truncate past the first vertex *)

Lemma diff_snoc (l : list point) (x d : point) :
  l <> [] -> np.diff (l ++ [x]) = np.diff l ++ [np.sub x (last l d)].
Proof.
  induction l as [|p l IH]; intros H; [congruence|].
  destruct l as [|q l]; [reflexivity|].
  change (np.diff ((p :: q :: l) ++ [x]))
    with (np.sub q p :: np.diff ((q :: l) ++ [x])).
  rewrite IH by discriminate. reflexivity.
Qed.

Lemma firstn_last {A : Type} (l : list A) (k : nat) (a d : A) :
  nth_error l k = Some a -> last (firstn (S k) l) d = a.
Proof.
  revert k; induction l as [|x l IH]; intros k H; [destruct k; discriminate|].
  destruct k as [|k]; [cbn in *; congruence|].
  cbn [nth_error] in H. specialize (IH k H).
  change (firstn (S (S k)) (x :: l)) with (x :: firstn (S k) l).
  destruct l as [|y l]; [destruct k; discriminate|].
  exact IH.
Qed.

Lemma sum_app (l m : list R) : np.sum (l ++ m) = np.sum l + np.sum m.
Proof.
  unfold np.sum. induction l as [|x l IH]; cbn [app fold_right]; [lra|].
  rewrite IH. lra.
Qed.

(** X7: for a polyline of at least two points of one dimension and a
    distance beyond the first segment and not beyond the total length,
    [truncate] returns a polyline that starts at the first point and whose
    length differs from the distance by less than [tol.merge]. *)
Theorem truncate_past_first_segment (tol : Tolerance) (p q : point)
    (rest : list point) (dim : nat) (d : R) :
  0 < merge tol ->
  Forall (fun x => List.length x = dim) (p :: q :: rest) ->
  np.norm (np.sub q p) < d ->
  d <= PathSample.length (PathSample.__init__ tol (p :: q :: rest)) ->
  exists truncated,
    PathSample.truncate tol (PathSample.__init__ tol (p :: q :: rest)) d
    = Ok (p :: truncated)
    /\ d - merge tol < np.sum (map np.norm (np.diff (p :: truncated))) <= d.
Proof.
  intros Hm Hdim Hlo Hhi.
  unfold PathSample.truncate. rewrite init_cum_norm.
  cbn [PathSample.__init__ PathSample.length PathSample._points] in *.
  change (np.diff (p :: q :: rest))
    with (np.sub q p :: np.diff (q :: rest)) in Hhi.
  cbn [map np.sum fold_right] in Hhi.
  fold (np.sum (map np.norm (np.diff (q :: rest)))) in Hhi.
  set (n0 := np.norm (np.sub q p)) in *.
  cbn [np.searchsorted]. rewrite (Rltb_true (0 + n0)) by lra.
  destruct (locate (q :: rest) (0 + n0) d)
    as (k & a & b & c & c' & Hs & Hc & Hc' & Hcd & Ha & Hb & Hn & Hp); [lra|].
  rewrite Hs.
  replace (1 + Z.of_nat k - 1)%Z with (Z.of_nat k) by lia.
  rewrite (getitem_nth _ _ _ Hc). cbn [bind].
  replace (1 + Z.of_nat k + 1)%Z with (Z.of_nat (S (S k))) by lia.
  rewrite slice_to_of_nat.
  change (firstn (S (S k)) (p :: q :: rest))
    with (p :: firstn (S k) (q :: rest)).
  set (prefix := firstn (S k) (q :: rest)) in *.
  assert (Hprefix : np.sum (map np.norm (np.diff (p :: prefix))) = c).
  { subst prefix. change (firstn (S k) (q :: rest)) with (q :: firstn k rest).
    change (np.diff (p :: q :: firstn k rest))
      with (np.sub q p :: np.diff (firstn (S k) (q :: rest))).
    cbn [map np.sum fold_right].
    fold (np.sum (map np.norm (np.diff (firstn (S k) (q :: rest))))).
    fold n0. lra. }
  destruct (Rlt_dec (d - c) (merge tol)) as [Hsmall|Hlarge].
  - rewrite Rltb_true by assumption. cbn [bind].
    unfold PathSample.truncate_check. rewrite Hprefix.
    rewrite Rltb_true by lra. cbn [assert bind].
    exists prefix. split; [reflexivity|]. rewrite Hprefix. lra.
  - rewrite Rltb_false by lra.
    assert (Ha' : nth_error (p :: q :: rest) (S k) = Some a) by exact Ha.
    assert (Hb' : nth_error (p :: q :: rest) (S (S k)) = Some b) by exact Hb.
    replace (1 + Z.of_nat k)%Z with (Z.of_nat (S k)) by lia.
    cbn [np.take mapM].
    rewrite (getitem_nth _ _ _ Ha'), (getitem_nth _ _ _ Hb').
    cbn [bind]. change (np.diff [a; b]) with [np.sub b a].
    cbn [List.concat]. rewrite app_nil_r.
    set (v := np.sub b a) in *.
    set (w := np.scale (unitize v) (d - c)).
    pose proof (Forall_inv Hdim) as Hlp. cbv beta in Hlp.
    pose proof (Forall_inv_tail Hdim) as Hdim'.
    assert (Hla : List.length a = List.length p)
      by (rewrite (Forall_nth_error _ _ _ _ Hdim' Ha); now symmetry).
    assert (Hlb : List.length b = List.length p)
      by (rewrite (Forall_nth_error _ _ _ _ Hdim' Hb); now symmetry).
    assert (Hlw : List.length w = List.length a).
    { subst w. rewrite scale_length. unfold unitize, np.divide.
      rewrite length_map. subst v.
      rewrite (sub_length (List.length p)); auto. }
    assert (Hnw : np.norm w = d - c).
    { subst w. rewrite norm_scale by lra. unfold unitize.
      rewrite norm_unit by lra. lra. }
    assert (Hlen : np.sum (map np.norm
                             (np.diff ((p :: prefix) ++ [np.add a w])))
                   = d).
    { rewrite (diff_snoc _ _ p) by discriminate.
      rewrite map_app, sum_app, Hprefix.
      change (last (p :: prefix) p) with (last prefix p).
      subst prefix. rewrite (firstn_last _ _ a) by assumption.
      cbn [map np.sum fold_right]. rewrite sub_add_cancel by assumption.
      rewrite Hnw. lra. }
    unfold PathSample.truncate_check. rewrite Hlen.
    rewrite Rltb_true by lra. cbn [assert bind].
    exists (prefix ++ [np.add a w]). split; [reflexivity|].
    change (p :: prefix ++ [np.add a w])
      with ((p :: prefix) ++ [np.add a w]).
    rewrite Hlen. lra.
Qed.

Lemma truncate_past_first_segment_witness :
  0 < merge tol_path
  /\ Forall (fun x => List.length x = 2%nat) [[0; 0]; [10; 0]; [10; 10]]
  /\ np.norm (np.sub [10; 0] [0; 0]) < 15
  /\ 15 <= PathSample.length
             (PathSample.__init__ tol_path [[0; 0]; [10; 0]; [10; 10]])
  /\ exists truncated,
       PathSample.truncate tol_path
         (PathSample.__init__ tol_path [[0; 0]; [10; 0]; [10; 10]]) 15
       = Ok ([0; 0] :: truncated)
       /\ 15 - merge tol_path
          < np.sum (map np.norm (np.diff ([0; 0] :: truncated))) <= 15.
Proof.
  assert (Hm : 0 < merge tol_path) by (simpl; lra).
  assert (Hd : Forall (fun x : point => List.length x = 2%nat)
                 [[0; 0]; [10; 0]; [10; 10]]) by (repeat constructor).
  assert (H1 : np.norm (np.sub [10; 0] [0; 0]) = 10)
    by (apply norm_value; [lra|cbn; lra]).
  assert (H2 : np.norm (np.sub [10; 10] [10; 0]) = 10)
    by (apply norm_value; [lra|cbn; lra]).
  assert (Hlo : np.norm (np.sub [10; 0] [0; 0]) < 15) by (rewrite H1; lra).
  assert (Hhi : 15 <= PathSample.length
                        (PathSample.__init__ tol_path
                           [[0; 0]; [10; 0]; [10; 10]])).
  { cbn [PathSample.__init__ PathSample.length np.diff map np.sum
         fold_right]. rewrite H1, H2. lra. }
  split; [exact Hm|]. split; [exact Hd|]. split; [exact Hlo|].
  split; [exact Hhi|].
  exact (truncate_past_first_segment tol_path [0; 0] [10; 0] [[10; 10]] 2 15
           Hm Hd Hlo Hhi).
Defined.

(** ** PathSample.truncate at the edges *)

(** X8: on an [(n, d)] array of fewer than two points [truncate] raises
    [IndexError] for every distance: there is no cumulative length to
    read. *)
Theorem truncate_without_segment (tol : Tolerance) (points : list point)
    (d : R) :
  (List.length points < 2)%nat ->
  PathSample.truncate tol (PathSample.__init__ tol points) d
  = Raise IndexError.
Proof.
  intros H. destruct points as [|p [|q rest]]; [reflexivity|reflexivity|].
  cbn [List.length] in H. lia.
Qed.

Lemma truncate_without_segment_witness :
  (List.length [[1; 2]] < 2)%nat
  /\ PathSample.truncate tol_path (PathSample.__init__ tol_path [[1; 2]]) 0
     = Raise IndexError.
Proof.
  assert (H : (List.length [[1; 2]] < 2)%nat) by (cbn; lia).
  split; [exact H|].
  exact (truncate_without_segment tol_path [[1; 2]] 0 H).
Defined.

Lemma cumsum_from_upper (l : list R) (acc : R) :
  Forall (fun x => 0 <= x) l ->
  Forall (fun c => c <= acc + np.sum l) (np.cumsum_from acc l).
Proof.
  revert acc; induction l as [|x l IH]; intros acc Hl; [constructor|].
  inversion Hl as [|? ? Hx Hl']; subst.
  cbn [np.cumsum_from np.sum fold_right]. fold (np.sum l).
  assert (0 <= np.sum l).
  { clear -Hl'. induction Hl'; cbn [np.sum fold_right]; [lra|].
    fold (np.sum l). lra. }
  constructor; [lra|].
  eapply Forall_impl; [|apply IH; assumption]. cbv beta. intros; lra.
Qed.

Lemma searchsorted_beyond (a : list R) (v : R) :
  Forall (fun c => c < v) a -> np.searchsorted a v = np.len a.
Proof.
  unfold np.len. induction 1 as [|x a Hx _ IH]; [reflexivity|].
  cbn [np.searchsorted List.length]. rewrite Rltb_true by assumption.
  rewrite IH. lia.
Qed.

(** X9: truncating beyond the end of a polyline of at least two points
    returns the whole polyline when the excess is below [tol.merge], and
    raises [IndexError] otherwise (there is no segment to extend). *)
Theorem truncate_beyond_length (tol : Tolerance) (p q : point)
    (rest : list point) (d : R) :
  PathSample.length (PathSample.__init__ tol (p :: q :: rest)) < d ->
  let self := PathSample.__init__ tol (p :: q :: rest) in
  (d - PathSample.length self < merge tol ->
   PathSample.truncate tol self d = Ok (p :: q :: rest))
  /\ (merge tol <= d - PathSample.length self ->
      PathSample.truncate tol self d = Raise IndexError).
Proof.
  intros HL self.
  assert (HL' : PathSample.length self < d) by exact HL.
  destruct (init_lengths tol (p :: q :: rest)) as (_ & _ & _ & Hc & Hp).
  fold self in Hc, Hp. cbn [List.length] in Hc.
  assert (Hlast : last (PathSample._cum_norm self) 0 = PathSample.length self).
  { subst self.
    cbn [PathSample.__init__ PathSample._cum_norm PathSample.length].
    unfold np.cumsum.
    change (np.diff (p :: q :: rest))
      with (np.sub q p :: np.diff (q :: rest)).
    cbn [map]. rewrite cumsum_from_last by discriminate. lra. }
  assert (Hall : Forall (fun c => c < d) (PathSample._cum_norm self)).
  { pose proof (cumsum_from_upper (map np.norm (np.diff (p :: q :: rest))) 0
                  (norms_nonneg _)) as Hup.
    eapply Forall_impl; [|exact Hup]. cbv beta.
    cbn [PathSample.__init__ PathSample.length] in HL. intros; lra. }
  assert (Hne : PathSample._cum_norm self <> [])
    by (intros E; rewrite E in Hc; discriminate).
  assert (Hlen : List.length (PathSample._cum_norm self)
                 = S (List.length rest)) by (rewrite Hc; lia).
  assert (Hnth : nth_error (PathSample._cum_norm self) (List.length rest)
                 = Some (PathSample.length self)).
  { rewrite <- Hlast, <- (nth_error_last _ 0 Hne). f_equal. lia. }
  unfold PathSample.truncate. rewrite (searchsorted_beyond _ _ Hall).
  unfold np.len. rewrite Hlen.
  replace (Z.of_nat (S (List.length rest)) - 1)%Z
    with (Z.of_nat (List.length rest)) by lia.
  rewrite (getitem_nth _ _ _ Hnth).
  cbn [bind]. rewrite Hp.
  split; intros Hex.
  - rewrite Rltb_true by assumption. cbn [bind].
    replace (Z.of_nat (S (List.length rest)) + 1)%Z
      with (Z.of_nat (List.length (p :: q :: rest)))
      by (cbn [List.length]; lia).
    rewrite slice_to_of_nat, firstn_all.
    unfold PathSample.truncate_check.
    change (np.sum (map np.norm (np.diff (p :: q :: rest))))
      with (PathSample.length self).
    rewrite Rltb_true by lra. reflexivity.
  - rewrite Rltb_false by lra. cbn [np.take mapM].
    destruct (getitem_error (p :: q :: rest)
                (Z.of_nat (S (List.length rest)))) as [(x & ->)| ->];
      [|reflexivity].
    cbn [bind].
    assert (E : np.getitem (p :: q :: rest)
                  (Z.of_nat (S (List.length rest)) + 1)
                = Raise IndexError).
    { replace (Z.of_nat (S (List.length rest)) + 1)%Z
        with (Z.of_nat (S (S (List.length rest)))) by lia.
      rewrite getitem_of_nat.
      replace (nth_error (p :: q :: rest) (S (S (List.length rest))))
        with (@None point); [reflexivity|].
      symmetry. apply nth_error_None. cbn [List.length]. lia. }
    now rewrite E.
Qed.

Lemma truncate_beyond_length_witness :
  PathSample.length (PathSample.__init__ tol_path [[0; 0]; [10; 0]]) < 12
  /\ merge tol_path
     <= 12 - PathSample.length (PathSample.__init__ tol_path [[0; 0]; [10; 0]])
  /\ PathSample.truncate tol_path
       (PathSample.__init__ tol_path [[0; 0]; [10; 0]]) 12
     = Raise IndexError.
Proof.
  assert (HL : PathSample.length (PathSample.__init__ tol_path
                                    [[0; 0]; [10; 0]]) = 10).
  { cbn [PathSample.__init__ PathSample.length np.diff map np.sum
         fold_right].
    rewrite (norm_value _ 10) by (cbn; lra). lra. }
  assert (H1 : PathSample.length (PathSample.__init__ tol_path
                                    [[0; 0]; [10; 0]]) < 12)
    by (rewrite HL; lra).
  assert (H2 : merge tol_path
               <= 12 - PathSample.length (PathSample.__init__ tol_path
                                            [[0; 0]; [10; 0]]))
    by (rewrite HL; simpl; lra).
  split; [exact H1|]. split; [exact H2|].
  exact (proj2 (truncate_beyond_length tol_path [0; 0] [10; 0] [] 12 H1) H2).
Defined.

(** ** resample_path *)

Lemma take_ends {A : Type} (x : A) (l : list A) :
  np.take (x :: l) [0%Z; (-1)%Z] = Ok [x; last (x :: l) x].
Proof.
  unfold np.take. cbn [mapM].
  rewrite getitem_head, (getitem_last _ x) by discriminate. reflexivity.
Qed.

(** X10: with step rounding and a step not below the total length,
    [resample_path] returns exactly the first and the last input point
    (twice the same point for a path of one point), whatever the
    tolerances; on an array of no points it raises [IndexError]. *)
Theorem resample_step_round_short_path (tol : Tolerance)
    (points : list point) (step : R) :
  PathSample.length (PathSample.__init__ tol points) <= step ->
  resample_path tol points None (Some step) true
  = match points with
    | [] => Raise IndexError
    | p :: rest => Ok [p; last points p]
    end.
Proof.
  intros H. unfold resample_path. rewrite Rleb_true by assumption.
  destruct points as [|p rest]; [reflexivity|apply take_ends].
Qed.

Lemma resample_step_round_short_path_witness :
  PathSample.length (PathSample.__init__ tol_path [[1; 2]]) <= 3
  /\ resample_path tol_path [[1; 2]] None (Some 3) true
     = Ok [[1; 2]; [1; 2]].
Proof.
  assert (H : PathSample.length (PathSample.__init__ tol_path [[1; 2]]) <= 3)
    by (cbn; lra).
  split; [exact H|].
  exact (resample_step_round_short_path tol_path [[1; 2]] 3 H).
Defined.

Lemma sample_at_start (tol : Tolerance) (p q : point) (rest : list point)
    (dim : nat) :
  Forall (fun x => List.length x = dim) (p :: q :: rest) ->
  sample_at (PathSample.__init__ tol (p :: q :: rest)) 0 = Ok p.
Proof.
  intros Hdim. unfold sample_at. rewrite init_cum_norm.
  pose proof (norm_nonneg (np.sub q p)) as Hn0.
  cbn [np.searchsorted]. rewrite Rltb_false by lra.
  destruct (init_lengths tol (p :: q :: rest)) as (_ & _ & Hu & _ & _).
  cbn [List.length] in Hu.
  replace (np.clip 0 0 _) with 0%Z
    by (unfold np.clip, np.len; rewrite Hu; lia).
  rewrite getitem_head. cbn [bind].
  cbn [PathSample.__init__ PathSample._unit_vec PathSample._points
       np.diff map np.zip_with].
  rewrite !getitem_head. cbn [bind].
  replace (0 - 0) with 0 by lra.
  rewrite add_scale_zero; [reflexivity|].
  pose proof (Forall_inv Hdim) as Hp. cbv beta in Hp.
  pose proof (Forall_inv (Forall_inv_tail Hdim)) as Hq. cbv beta in Hq.
  assert (Hs : List.length (np.sub q p) = List.length p)
    by (rewrite (sub_length dim); auto).
  destruct (Rltb (zero tol) (np.norm (np.sub q p))); [|exact Hs].
  unfold np.divide. now rewrite length_map.
Qed.





(** ** resample_path with a count *)

Lemma last_cons_default {A : Type} (l : list A) :
  forall (x d d' : A), last (x :: l) d = last (x :: l) d'.
Proof.
  induction l as [|y l IH]; intros x d d'; [reflexivity|].
  change (last (x :: y :: l) d) with (last (y :: l) d).
  change (last (x :: y :: l) d') with (last (y :: l) d').
  apply IH.
Qed.









(** X13: counts below two.  With [count = 0] the resampler raises
    [IndexError] for every array of points.  With [count = 1] on a
    polyline of at least two points of one dimension it samples the first
    point only: it returns that single point when the two end points of
    the path are closer than [tol.merge], and fails its end-point
    assertion otherwise. *)
Theorem resample_count_below_two (tol : Tolerance) :
  (forall points step_round,
      resample_path tol points (Some 0%Z) None step_round = Raise IndexError)
  /\ (forall (p q : point) (rest : list point) (dim : nat)
             (step_round : bool),
         0 < merge tol ->
         Forall (fun x => List.length x = dim) (p :: q :: rest) ->
         resample_path tol (p :: q :: rest) (Some 1%Z) None step_round
         = if Rltb (np.norm (np.sub (last (q :: rest) q) p)) (merge tol)
           then Ok [p] else Raise AssertionError).
Proof.
  split.
  - intros points step_round. unfold resample_path, resample_samples.
    change (np.linspace 0 _ 0) with (Ok (@nil R)). cbn [bind].
    change (PathSample.sample _ []) with (Ok (@nil point)). cbn [bind].
    destruct (take_error points [0%Z; (-1)%Z]) as [(pe & ->)| ->];
      reflexivity.
  - intros p q rest dim step_round Hm Hdim.
    unfold resample_path, resample_samples.
    set (self := PathSample.__init__ tol (p :: q :: rest)).
    change (np.linspace 0 (PathSample.length self) 1)
      with (Ok [0 * (PathSample.length self - 0) + 0]).
    cbn [bind]. rewrite sample_pointwise. cbn [mapM].
    replace (0 * (PathSample.length self - 0) + 0) with 0 by lra.
    subst self. rewrite (sample_at_start tol p q rest dim Hdim).
    cbn [bind]. rewrite !take_ends.
    change (last [p] p) with p.
    change (last (p :: q :: rest) p) with (last (q :: rest) p).
    rewrite (last_cons_default rest q p q).
    cbn [bind np.zip_with map].
    rewrite getitem_head. cbn [bind].
    rewrite norm_sub_self, Rltb_true by lra. cbn [assert bind].
    match goal with
    | |- context [np.getitem [0; ?x] 1] =>
        change (np.getitem [0; x] 1) with (Ok x)
    end.
    cbn [bind].
    destruct (Rltb _ (merge tol)); reflexivity.
Qed.

Lemma resample_count_below_two_witness :
  0 < merge tol_path
  /\ Forall (fun x => List.length x = 2%nat) [[0; 0]; [10; 0]]
  /\ resample_path tol_path [[0; 0]; [10; 0]] (Some 1%Z) None true
     = Raise AssertionError.
Proof.
  assert (Hm : 0 < merge tol_path) by (simpl; lra).
  assert (Hd : Forall (fun x : point => List.length x = 2%nat)
                 [[0; 0]; [10; 0]]) by (repeat constructor).
  split; [exact Hm|]. split; [exact Hd|].
  refine (eq_trans
            (proj2 (resample_count_below_two tol_path) [0; 0] [10; 0] []
               2%nat true Hm Hd) _).
  cbn [last]. rewrite (norm_value _ 10) by (cbn; lra).
  rewrite Rltb_false by (simpl; lra). reflexivity.
Defined.

(** ** vertex_graph *)

Lemma combine_app {A B : Type} (l1 l2 : list A) (m1 m2 : list B) :
  List.length l1 = List.length m1 ->
  combine (l1 ++ l2) (m1 ++ m2) = combine l1 m1 ++ combine l2 m2.
Proof.
  revert m1; induction l1 as [|x l1 IH]; intros [|y m1] H; try discriminate;
    [reflexivity|].
  cbn [app combine]. f_equal. apply IH. now injection H.
Qed.

Lemma enumerate_snoc {A : Type} (l : list A) (x : A) :
  enumerate (l ++ [x]) = enumerate l ++ [(List.length l, x)].
Proof.
  unfold enumerate. rewrite length_app. cbn [List.length].
  rewrite seq_app. cbn [seq Nat.add].
  now rewrite combine_app by (now rewrite length_seq).
Qed.

Lemma vertex_graph_snoc (es : list Entity.t) (e : Entity.t) :
  vertex_graph (es ++ [e])
  = (let '(graph, closed) := vertex_graph es in
     if Entity.closed e then (graph, closed ++ [List.length es])
     else (nx.add_edges_from graph (Entity.nodes e) (List.length es),
           closed)).
Proof.
  unfold vertex_graph. rewrite enumerate_snoc, fold_left_app.
  cbn [fold_left].
  now destruct (fold_left _ (enumerate es) _) as [graph closed].
Qed.

(** X14: the second component of [vertex_graph] lists exactly the indices
    of the closed entities, in increasing order. *)
Theorem vertex_graph_closed (entities : list Entity.t) :
  (forall i,
      In i (snd (vertex_graph entities)) <->
      exists e, nth_error entities i = Some e /\ Entity.closed e = true)
  /\ StronglySorted lt (snd (vertex_graph entities)).
Proof.
  induction entities as [|e es [IHin IHs]] using rev_ind.
  { split; [|constructor]. intros i. split; [intros []|].
    intros (e & H & _). destruct i; discriminate. }
  assert (Hb : forall i, In i (snd (vertex_graph es)) ->
                         (i < List.length es)%nat).
  { intros i Hi. apply IHin in Hi as (e' & He' & _).
    apply nth_error_Some. congruence. }
  rewrite vertex_graph_snoc.
  destruct (vertex_graph es) as [graph closed]. cbn [snd] in *.
  destruct (Entity.closed e) eqn:Ec; cbn [snd].
  - split.
    + intros i. rewrite in_app_iff, IHin. cbn [In]. split.
      * intros [(e' & He' & Hc)|[<-|[]]].
        -- exists e'. split; [|exact Hc].
           rewrite nth_error_app1; [exact He'|].
           apply nth_error_Some. congruence.
        -- exists e. split; [|exact Ec].
           now rewrite nth_error_app2, Nat.sub_diag by lia.
      * intros (e' & He' & Hc).
        destruct (Nat.lt_ge_cases i (List.length es)) as [Hlt|Hge].
        -- left. exists e'. split; [|exact Hc].
           now rewrite nth_error_app1 in He' by assumption.
        -- right; left.
           assert (i < List.length (es ++ [e]))%nat
             by (apply nth_error_Some; congruence).
           rewrite length_app in H. cbn [List.length] in H. lia.
    + clear IHin. induction closed as [|c closed IH]; cbn [app].
      * repeat constructor.
      * inversion IHs as [|? ? Hs Hall]; subst. constructor.
        -- apply IH; [assumption|]. intros i Hi. apply Hb. now right.
        -- apply Forall_app. split; [assumption|].
           constructor; [|constructor]. apply Hb. now left.
  - split; [|exact IHs].
    intros i. rewrite IHin. split.
    + intros (e' & He' & Hc). exists e'. split; [|exact Hc].
      rewrite nth_error_app1; [exact He'|].
      apply nth_error_Some. congruence.
    + intros (e' & He' & Hc).
      destruct (Nat.lt_ge_cases i (List.length es)) as [Hlt|Hge].
      * exists e'. split; [|exact Hc].
        now rewrite nth_error_app1 in He' by assumption.
      * assert (i < List.length (es ++ [e]))%nat
          by (apply nth_error_Some; congruence).
        rewrite length_app in H. cbn [List.length] in H.
        assert (i = List.length es) by lia. subst i.
        rewrite nth_error_app2, Nat.sub_diag in He' by lia.
        cbn in He'. congruence.
Qed.

Lemma same_edge_sym (u v a b : nat) :
  nx.same_edge u v a b = nx.same_edge a b u v.
Proof.
  unfold nx.same_edge.
  destruct (Nat.eqb_spec u a), (Nat.eqb_spec v b), (Nat.eqb_spec u b),
    (Nat.eqb_spec v a), (Nat.eqb_spec a u), (Nat.eqb_spec b v),
    (Nat.eqb_spec a v), (Nat.eqb_spec b u); cbn; congruence.
Qed.

Lemma same_edge_trans (u v a b x y : nat) :
  nx.same_edge u v a b = true -> nx.same_edge a b x y = true ->
  nx.same_edge u v x y = true.
Proof.
  unfold nx.same_edge. rewrite !orb_true_iff, !andb_true_iff, !Nat.eqb_eq.
  intros [[-> ->]|[-> ->]] [[-> ->]|[-> ->]]; auto.
Qed.

Lemma get_edge_data_filter (graph : nx.Graph) (a b u v : nat) :
  nx.same_edge u v a b = false ->
  nx.get_edge_data
    (filter (fun '(x, y, _) => negb (nx.same_edge a b x y)) graph) u v
  = nx.get_edge_data graph u v.
Proof.
  intros H. induction graph as [|[[x y] i] graph IH]; [reflexivity|].
  cbn [filter nx.get_edge_data].
  destruct (nx.same_edge a b x y) eqn:E; cbn [negb nx.get_edge_data].
  - destruct (nx.same_edge u v x y) eqn:E'; [|exact IH].
    rewrite same_edge_sym in E.
    rewrite (same_edge_trans u v x y a b E' E) in H. discriminate.
  - now rewrite IH.
Qed.

Lemma get_add_edge (graph : nx.Graph) (a b i u v : nat) :
  nx.get_edge_data (nx.add_edge graph a b i) u v
  = if nx.same_edge u v a b then Some i else nx.get_edge_data graph u v.
Proof.
  unfold nx.add_edge. cbn [nx.get_edge_data].
  destruct (nx.same_edge u v a b) eqn:E; [reflexivity|].
  now apply get_edge_data_filter.
Qed.

Lemma get_add_edges_from (ebunch : list (nat * nat)) :
  forall (graph : nx.Graph) (i u v : nat),
    nx.get_edge_data (nx.add_edges_from graph ebunch i) u v
    = if existsb (fun '(a, b) => nx.same_edge u v a b) ebunch
      then Some i else nx.get_edge_data graph u v.
Proof.
  unfold nx.add_edges_from.
  induction ebunch as [|[a b] ebunch IH]; intros graph i u v; [reflexivity|].
  cbn [fold_left existsb]. rewrite IH, get_add_edge.
  destruct (existsb _ ebunch), (nx.same_edge u v a b); reflexivity.
Qed.

Lemma has_edge_existsb (e : Entity.t) (u v : nat) :
  existsb (fun '(a, b) => nx.same_edge u v a b) (Entity.nodes e) = true
  <-> has_edge e u v.
Proof.
  unfold has_edge. rewrite existsb_exists. split.
  - intros ([a b] & Hin & Hs). unfold nx.same_edge in Hs.
    rewrite orb_true_iff, !andb_true_iff, !Nat.eqb_eq in Hs.
    destruct Hs as [[-> ->]|[-> ->]]; auto.
  - intros [H|H]; eexists; (split; [exact H|]); unfold nx.same_edge;
      rewrite !Nat.eqb_refl; cbn; auto using orb_true_r.
Qed.

(** X15: looking up an edge in the graph of [vertex_graph] returns the
    index of an open entity that has this edge among its nodes (in either
    direction), namely the last such entity of the list; it returns
    nothing exactly when no open entity has the edge.  Closed entities
    contribute no edge. *)
Theorem vertex_graph_lookup (entities : list Entity.t) (u v : nat) :
  match nx.get_edge_data (fst (vertex_graph entities)) u v with
  | Some i =>
      exists e,
        nth_error entities i = Some e /\ Entity.closed e = false
        /\ has_edge e u v
        /\ forall j e',
             nth_error entities j = Some e' -> Entity.closed e' = false ->
             has_edge e' u v -> (j <= i)%nat
  | None =>
      forall j e',
        nth_error entities j = Some e' -> Entity.closed e' = false ->
        ~ has_edge e' u v
  end.
Proof.
  induction entities as [|e es IH] using rev_ind.
  { cbn. intros j e' H. destruct j; discriminate. }
  assert (Hsplit : forall j e',
             nth_error (es ++ [e]) j = Some e' ->
             (j < List.length es)%nat /\ nth_error es j = Some e'
             \/ j = List.length es /\ e' = e).
  { intros j e' H.
    destruct (Nat.lt_ge_cases j (List.length es)) as [Hlt|Hge].
    - left. split; [assumption|]. now rewrite nth_error_app1 in H.
    - right. assert (j < List.length (es ++ [e]))%nat
        by (apply nth_error_Some; congruence).
      rewrite length_app in H0. cbn [List.length] in H0.
      assert (j = List.length es) by lia. subst j. split; [reflexivity|].
      rewrite nth_error_app2, Nat.sub_diag in H by lia. cbn in H.
      congruence. }
  assert (Hold : forall i e', nth_error es i = Some e' ->
                              nth_error (es ++ [e]) i = Some e'
                              /\ (i < List.length es)%nat).
  { intros i e' H.
    assert (i < List.length es)%nat by (apply nth_error_Some; congruence).
    split; [|assumption]. now rewrite nth_error_app1. }
  rewrite vertex_graph_snoc.
  destruct (vertex_graph es) as [graph closed]. cbn [fst] in *.
  destruct (Entity.closed e) eqn:Ec; cbn [fst].
  - destruct (nx.get_edge_data graph u v) as [i|].
    + destruct IH as (ei & Hi & Hci & Hei & Hmax).
      exists ei. destruct (Hold _ _ Hi) as [Hi' _].
      split; [exact Hi'|]. split; [exact Hci|]. split; [exact Hei|].
      intros j e' Hj Hc He.
      destruct (Hsplit _ _ Hj) as [[_ Hj']|[_ ->]]; [eauto|congruence].
    + intros j e' Hj Hc.
      destruct (Hsplit _ _ Hj) as [[_ Hj']|[_ ->]]; [eauto|congruence].
  - rewrite get_add_edges_from.
    destruct (existsb _ (Entity.nodes e)) eqn:Ex.
    + apply has_edge_existsb in Ex. exists e.
      split; [now rewrite nth_error_app2, Nat.sub_diag by lia|].
      split; [exact Ec|]. split; [exact Ex|].
      intros j e' Hj _ _.
      destruct (Hsplit _ _ Hj) as [[Hlt _]|[-> _]]; lia.
    + assert (Hno : ~ has_edge e u v).
      { intros H. apply has_edge_existsb in H. congruence. }
      destruct (nx.get_edge_data graph u v) as [i|].
      * destruct IH as (ei & Hi & Hci & Hei & Hmax).
        exists ei. destruct (Hold _ _ Hi) as [Hi' _].
        split; [exact Hi'|]. split; [exact Hci|]. split; [exact Hei|].
        intros j e' Hj Hc He.
        destruct (Hsplit _ _ Hj) as [[_ Hj']|[_ ->]];
          [eauto|contradiction].
      * intros j e' Hj Hc.
        destruct (Hsplit _ _ Hj) as [[_ Hj']|[_ ->]]; [eauto|assumption].
Qed.

(** ** vertex_to_entity_path: which entities the path holds *)

Lemma mapM_in {A B : Type} (f : A -> result B) (l : list A) (r : list B) :
  mapM f l = Ok r ->
  forall y, In y r <-> exists x, In x l /\ f x = Ok y.
Proof.
  revert r; induction l as [|x l IH]; intros r; cbn [mapM].
  - intros H y. injection H as <-. split; [intros []|intros (? & [] & _)].
  - destruct (f x) as [y0|] eqn:E; [|discriminate]. cbn [bind].
    destruct (mapM f l) as [ys|]; [|discriminate]. cbn [bind].
    intros H y. injection H as <-. cbn [In]. rewrite (IH ys eq_refl y).
    split.
    + intros [<-|(x' & Hin & Hx)]; [exists x; auto|exists x'; auto].
    + intros (x' & [<-|Hin] & Hx); [left; congruence|right; eauto].
Qed.

Lemma in_range (n x : Z) : In x (np.range n) <-> (0 <= x < n)%Z.
Proof.
  unfold np.range. rewrite in_map_iff. split.
  - intros (k & <- & Hk). apply in_seq in Hk. lia.
  - intros H. exists (Z.to_nat x). split; [lia|]. apply in_seq. lia.
Qed.

Lemma unique_ordered_complete (l : list nat) (x : nat) :
  In x l -> In x (unique_ordered l).
Proof.
  induction l as [|y l IH]; [auto|]. cbn [unique_ordered In].
  intros [->|H]; [now left|].
  destruct (Nat.eq_dec x y) as [->|Hne]; [now left|].
  right. apply filter_In. split; [auto|].
  apply negb_true_iff, Nat.eqb_neq. exact Hne.
Qed.

Lemma getitem_ok_range {A : Type} (a : list A) (i : Z) (x : A) :
  np.getitem a i = Ok x -> (0 < np.len a)%Z.
Proof.
  unfold np.getitem.
  destruct (i <? 0)%Z eqn:E;
    destruct (Z.leb_spec 0 (if true then i + np.len a else i)%Z);
    destruct (Z.leb_spec 0 i); cbn [andb]; try discriminate;
    try (destruct (Z.ltb_spec (i + np.len a) (np.len a)); try discriminate);
    try (destruct (Z.ltb_spec i (np.len a)); try discriminate);
    intros _; apply Z.ltb_lt in E || apply Z.ltb_ge in E; lia.
Qed.

Lemma entity_sequence_edges (is_ccw : list point -> bool)
    (vertex_path : list nat) (graph : nx.Graph) (vertices : option ndarray)
    (path : list nat) :
  entity_sequence is_ccw vertex_path graph vertices = Ok path ->
  forall a,
    In a path <->
    exists i u v,
      (0 <= i < np.len vertex_path)%Z
      /\ np.getitem vertex_path i = Ok u
      /\ np.getitem vertex_path ((1 + i) mod np.len vertex_path) = Ok v
      /\ nx.get_edge_data graph u v = Some a.
Proof.
  intros Hs. unfold entity_sequence in Hs.
  destruct (ccw_direction _ _ _) as [d|]; [|discriminate]. cbn [bind] in Hs.
  destruct (edge_entities vertex_path graph) as [labels|] eqn:El;
    [|discriminate].
  cbn [bind] in Hs. injection Hs as <-. intros a.
  assert (Hin : In a (np.stride (unique_ordered labels) d) <-> In a labels).
  { unfold np.stride. destruct (d =? -1)%Z; rewrite <- ?in_rev; split;
      auto using unique_ordered_incl, unique_ordered_complete. }
  rewrite Hin. unfold edge_entities in El.
  rewrite (mapM_in _ _ _ El a). set (n := np.len vertex_path). split.
  - intros (x & Hx & Hf). apply in_range in Hx.
    destruct (np.getitem vertex_path (x mod n)) as [u|] eqn:Eu;
      [|discriminate].
    cbn [bind] in Hf.
    destruct (np.getitem vertex_path ((1 + x) mod n)) as [v|] eqn:Ev;
      [|discriminate].
    cbn [bind] in Hf.
    destruct (nx.get_edge_data graph u v) as [a'|] eqn:Eg; [|discriminate].
    injection Hf as ->.
    pose proof (getitem_ok_range _ _ _ Eu) as Hn. fold n in Hn.
    exists (x mod n)%Z, u, v.
    split; [apply Z.mod_pos_bound; lia|]. split; [exact Eu|].
    split; [|exact Eg].
    now rewrite Zplus_mod_idemp_r.
  - intros (i & u & v & Hi & Eu & Ev & Eg).
    exists i. split; [apply in_range; lia|].
    rewrite (Z.mod_small i n) by lia. rewrite Eu. cbn [bind].
    rewrite Ev. cbn [bind]. now rewrite Eg.
Qed.

(** X16: the entity path the resolver returns holds no entity twice, and
    it holds exactly the entities that label the edges between cyclically
    consecutive vertices of the vertex path. *)
Theorem resolved_path_entities (is_ccw : list point -> bool)
    (vertex_path : list nat) (graph : nx.Graph) (vertices : option ndarray)
    (entities entities' : list Entity.t) (path : list nat) :
  vertex_to_entity_path is_ccw vertex_path graph vertices entities
  = (Ok path, entities') ->
  NoDup path
  /\ forall a,
       In a path <->
       exists i u v,
         (0 <= i < np.len vertex_path)%Z
         /\ np.getitem vertex_path i = Ok u
         /\ np.getitem vertex_path ((1 + i) mod np.len vertex_path) = Ok v
         /\ nx.get_edge_data graph u v = Some a.
Proof.
  intros Hret. apply vertex_to_entity_path_returns in Hret as (Hs & _).
  split; [now apply entity_sequence_NoDup in Hs|].
  now apply entity_sequence_edges with (is_ccw := is_ccw)
                                       (vertices := vertices).
Qed.

Lemma resolved_path_entities_witness :
  vertex_to_entity_path area_is_ccw [0; 1; 2]%nat
    (fst (vertex_graph triangle)) None triangle
  = (Ok [0; 1; 2]%nat,
     [Entity.mk [0; 1]%nat false; Entity.mk [1; 2]%nat false;
      Entity.mk [2; 0]%nat false])
  /\ NoDup [0; 1; 2]%nat.
Proof.
  assert (Hret : vertex_to_entity_path area_is_ccw [0; 1; 2]%nat
                   (fst (vertex_graph triangle)) None triangle
                 = (Ok [0; 1; 2]%nat,
                    [Entity.mk [0; 1]%nat false; Entity.mk [1; 2]%nat false;
                     Entity.mk [2; 0]%nat false])) by reflexivity.
  split; [exact Hret|].
  exact (proj1 (resolved_path_entities area_is_ccw [0; 1; 2]%nat
                  (fst (vertex_graph triangle)) None triangle _ _ Hret)).
Defined.

(** ** vertex_to_entity_path: failures before any entity is touched *)

Lemma mapM_raise_uniform {A B : Type} (f : A -> result B) (e : exn)
    (l : list A) :
  (forall x, In x l -> (exists y, f x = Ok y) \/ f x = Raise e) ->
  (exists x, In x l /\ f x = Raise e) ->
  mapM f l = Raise e.
Proof.
  induction l as [|x l IH]; intros Hall (x0 & Hin & Hx0); [destruct Hin|].
  cbn [mapM].
  destruct (Hall x (or_introl eq_refl)) as [(y & Hy)|Hy]; rewrite Hy;
    [|reflexivity].
  cbn [bind]. rewrite IH; [reflexivity| |].
  - intros x' Hx'. apply Hall. now right.
  - destruct Hin as [<-|Hin]; [congruence|eauto].
Qed.

(** X17: an empty vertex path makes the resolver raise [IndexError], and
    a vertex path with two cyclically consecutive vertices that no edge of
    the graph joins makes it raise [TypeError] (here without coordinates);
    in both cases no entity has been modified. *)
Theorem resolution_fails_untouched (is_ccw : list point -> bool)
    (graph : nx.Graph) (entities : list Entity.t) :
  (forall vertices,
      vertex_to_entity_path is_ccw [] graph vertices entities
      = (Raise IndexError, entities))
  /\ (forall vertex_path i u v,
         (0 <= i < np.len vertex_path)%Z ->
         np.getitem vertex_path i = Ok u ->
         np.getitem vertex_path ((1 + i) mod np.len vertex_path) = Ok v ->
         nx.get_edge_data graph u v = None ->
         vertex_to_entity_path is_ccw vertex_path graph None entities
         = (Raise TypeError, entities)).
Proof.
  split.
  - intros [vs|]; reflexivity.
  - intros vertex_path i u v Hi Eu Ev Eg.
    unfold vertex_to_entity_path, bindM, lift, entity_sequence.
    cbn [ccw_direction bind].
    assert (E : edge_entities vertex_path graph = Raise TypeError).
    { unfold edge_entities. set (n := np.len vertex_path) in *.
      apply mapM_raise_uniform.
      - intros x _.
        destruct (getitem_in_range vertex_path (x mod n)) as (a & ->);
          [apply Z.mod_pos_bound; lia|].
        destruct (getitem_in_range vertex_path ((1 + x) mod n)) as (b & ->);
          [apply Z.mod_pos_bound; lia|].
        cbn [bind]. destruct (nx.get_edge_data graph a b); eauto.
      - exists i. split; [apply in_range; lia|].
        rewrite (Z.mod_small i n) by lia. rewrite Eu. cbn [bind].
        rewrite Ev. cbn [bind]. now rewrite Eg. }
    now rewrite E.
Qed.

Lemma resolution_fails_untouched_witness :
  (0 <= 2 < np.len [0; 1; 5]%nat)%Z
  /\ np.getitem [0; 1; 5]%nat 2 = Ok 5%nat
  /\ np.getitem [0; 1; 5]%nat ((1 + 2) mod np.len [0; 1; 5]%nat)
     = Ok 0%nat
  /\ nx.get_edge_data (fst (vertex_graph triangle)) 5 0 = None
  /\ vertex_to_entity_path area_is_ccw [0; 1; 5]%nat
       (fst (vertex_graph triangle)) None triangle
     = (Raise TypeError, triangle).
Proof.
  assert (H1 : (0 <= 2 < np.len [0; 1; 5]%nat)%Z) by (cbn; lia).
  assert (H2 : np.getitem [0; 1; 5]%nat 2 = Ok 5%nat) by reflexivity.
  assert (H3 : np.getitem [0; 1; 5]%nat ((1 + 2) mod np.len [0; 1; 5]%nat)
               = Ok 0%nat) by reflexivity.
  assert (H4 : nx.get_edge_data (fst (vertex_graph triangle)) 5 0 = None)
    by reflexivity.
  split; [exact H1|]. split; [exact H2|]. split; [exact H3|].
  split; [exact H4|].
  exact (proj2 (resolution_fails_untouched area_is_ccw
                  (fst (vertex_graph triangle)) triangle)
           [0; 1; 5]%nat 2%Z 5%nat 0%nat H1 H2 H3 H4).
Defined.

(** ** vertex_to_entity_path: what it does to the entities *)

Lemma flipped_refl (e : Entity.t) : flipped e e.
Proof. split; auto. Qed.

Lemma flipped_trans (e1 e2 e3 : Entity.t) :
  flipped e1 e2 -> flipped e2 e3 -> flipped e1 e3.
Proof.
  intros [H1 H1'] [H2 H2']. split; [congruence|].
  destruct H1' as [E1|E1], H2' as [E2|E2]; rewrite E2, E1;
    rewrite ?rev_involutive; auto.
Qed.

Lemma Forall2_flipped_refl (s : list Entity.t) : Forall2 flipped s s.
Proof. induction s; constructor; auto using flipped_refl. Qed.

Lemma Forall2_flipped_trans (s1 s2 s3 : list Entity.t) :
  Forall2 flipped s1 s2 -> Forall2 flipped s2 s3 -> Forall2 flipped s1 s3.
Proof.
  intros H; revert s3; induction H as [|x y l l' Hxy _ IH]; intros s3 H';
    inversion H'; subst; constructor; eauto using flipped_trans.
Qed.

Lemma only_reverses_refl (cs : list nat) (s : list Entity.t) :
  only_reverses cs s s.
Proof. split; [apply Forall2_flipped_refl|auto]. Qed.

Lemma only_reverses_trans (cs : list nat) (s1 s2 s3 : list Entity.t) :
  only_reverses cs s1 s2 -> only_reverses cs s2 s3 ->
  only_reverses cs s1 s3.
Proof.
  intros [F1 N1] [F2 N2]. split; [eapply Forall2_flipped_trans; eauto|].
  intros c Hc. now rewrite N2, N1.
Qed.

Lemma set_nth_flipped (s : list Entity.t) (i : nat) (e e' : Entity.t) :
  nth_error s i = Some e -> flipped e e' ->
  Forall2 flipped s (set_nth s i e').
Proof.
  revert i; induction s as [|x s IH]; intros [|i] H Hf; try discriminate;
    cbn [set_nth].
  - cbn in H. injection H as ->. constructor;
      [assumption|apply Forall2_flipped_refl].
  - constructor; [apply flipped_refl|]. now apply IH.
Qed.

Lemma preserves_ret {A : Type} (cs : list nat) (a : A) : preserves cs (ret a).
Proof.
  intros s r s' H. unfold ret in H. injection H as _ <-.
  apply only_reverses_refl.
Qed.

Lemma preserves_lift {A : Type} (cs : list nat) (r : result A) :
  preserves cs (lift r).
Proof.
  intros s r' s' H. unfold lift in H. injection H as _ <-.
  apply only_reverses_refl.
Qed.

Lemma preserves_entity_at (cs : list nat) (i : nat) :
  preserves cs (entity_at i).
Proof.
  intros s r s' H. unfold entity_at in H. injection H as _ <-.
  apply only_reverses_refl.
Qed.

Lemma preserves_bind {A B : Type} (cs : list nat) (m : M A) (k : A -> M B) :
  preserves cs m -> (forall a, preserves cs (k a)) ->
  preserves cs (bindM m k).
Proof.
  intros Hm Hk s r s' H. unfold bindM in H.
  destruct (m s) as [[a|e] s1] eqn:E.
  - eapply only_reverses_trans; [eapply Hm; eauto|eapply Hk; eauto].
  - injection H as _ <-. eapply Hm; eauto.
Qed.

Lemma preserves_reverse_points (cs : list nat) (i : nat) (d : Z) :
  In i cs -> preserves cs (reverse_points i d).
Proof.
  intros Hi s r s' H. unfold reverse_points, bindM, entity_at in H.
  rewrite getitem_of_nat in H.
  destruct (nth_error s i) as [e|] eqn:E.
  - injection H as _ <-. split.
    + apply (set_nth_flipped s i e); [assumption|].
      split; [reflexivity|]. cbn [Entity.points]. unfold np.stride.
      destruct (d =? -1)%Z; auto.
    + intros c Hc. apply nth_error_set_nth_other. intros ->. contradiction.
  - injection H as _ <-. apply only_reverses_refl.
Qed.

Lemma preserves_align (cs : list nat) (a b : nat) :
  In a cs -> In b cs -> preserves cs (align (a, b)).
Proof.
  intros Ha Hb. unfold align.
  apply preserves_bind; [apply preserves_entity_at|intros ea].
  apply preserves_bind; [apply preserves_lift|intros pa].
  apply preserves_bind; [apply preserves_entity_at|intros eb].
  apply preserves_bind; [apply preserves_lift|intros pb].
  apply preserves_bind; [apply preserves_lift|intros [da db]].
  apply preserves_bind; [now apply preserves_reverse_points|intros _].
  now apply preserves_reverse_points.
Qed.

Lemma preserves_for_each (cs : list nat) (l : list (nat * nat)) :
  Forall (fun ab => In (fst ab) cs /\ In (snd ab) cs) l ->
  preserves cs (for_each align l).
Proof.
  induction 1 as [|[a b] l [Ha Hb] _ IH]; cbn [for_each].
  - apply preserves_ret.
  - apply preserves_bind; [now apply preserves_align|intros _; exact IH].
Qed.

Lemma round_trip_in (path : list nat) (pairs : list (nat * nat)) :
  round_trip path = Ok pairs ->
  Forall (fun ab => In (fst ab) path /\ In (snd ab) path) pairs.
Proof.
  destruct path as [|x rest]; [discriminate|].
  rewrite round_trip_cons. intros H.
  assert (Hp : pairs = combine (x :: rest) (rest ++ [x])) by congruence.
  clear H. apply Forall_forall. intros [a b] Hin. cbn [fst snd].
  rewrite Hp in Hin.
  split; [now apply in_combine_l in Hin|].
  apply in_combine_r in Hin. apply in_app_or in Hin as [Hin|[<-|[]]].
  - now right.
  - now left.
Qed.

Lemma preserves_incl {A : Type} (cs cs' : list nat) (m : M A) :
  incl cs cs' -> preserves cs m -> preserves cs' m.
Proof.
  intros Hi Hm s r s' H. destruct (Hm s r s' H) as [F N].
  split; [exact F|]. intros c Hc. apply N. intros Hin. apply Hc, Hi, Hin.
Qed.

Lemma resolve_raises_untouched (is_ccw : list point -> bool)
    (vertex_path : list nat) (graph : nx.Graph) (vertices : option ndarray)
    (es : list Entity.t) (e : exn) :
  entity_sequence is_ccw vertex_path graph vertices = Raise e ->
  vertex_to_entity_path is_ccw vertex_path graph vertices es = (Raise e, es).
Proof.
  intros Hs. unfold vertex_to_entity_path, bindM, lift. now rewrite Hs.
Qed.

Lemma resolve_preserves_path (is_ccw : list point -> bool)
    (vertex_path : list nat) (graph : nx.Graph) (vertices : option ndarray)
    (path : list nat) :
  entity_sequence is_ccw vertex_path graph vertices = Ok path ->
  preserves path (vertex_to_entity_path is_ccw vertex_path graph vertices).
Proof.
  intros Hs s r s' H. unfold vertex_to_entity_path in H.
  unfold bindM at 1, lift at 1 in H. rewrite Hs in H.
  unfold bindM at 1, lift in H.
  destruct (round_trip path) as [pairs|e] eqn:Hr.
  2:{ injection H as _ <-. apply only_reverses_refl. }
  assert (Hp : preserves path (for_each align pairs ;;~ ret path)).
  { apply preserves_bind; [|intros _; apply preserves_ret].
    apply preserves_for_each, round_trip_in, Hr. }
  exact (Hp s r s' H).
Qed.

(** X18: whatever the outcome of the resolution, also when it raises, the
    entity list keeps its length, every entity keeps its [closed] flag and
    its points, as they were or reversed, and the entities that are not on
    the entity path are left as they were. *)
Theorem resolution_only_reverses (is_ccw : list point -> bool)
    (vertex_path : list nat) (graph : nx.Graph) (vertices : option ndarray)
    (entities entities' : list Entity.t) (outcome : result (list nat)) :
  vertex_to_entity_path is_ccw vertex_path graph vertices entities
  = (outcome, entities') ->
  Forall2 flipped entities entities'
  /\ forall path,
       entity_sequence is_ccw vertex_path graph vertices = Ok path ->
       forall c, ~ In c path -> nth_error entities' c = nth_error entities c.
Proof.
  intros H.
  destruct (entity_sequence is_ccw vertex_path graph vertices)
    as [path|e] eqn:Hs.
  - destruct (resolve_preserves_path _ _ _ _ _ Hs _ _ _ H) as [F N].
    split; [exact F|]. intros path' Hp. injection Hp as <-. exact N.
  - rewrite (resolve_raises_untouched _ _ _ _ entities e Hs) in H.
    injection H as _ <-. split; [apply Forall2_flipped_refl|discriminate].
Qed.

Lemma resolution_only_reverses_witness :
  vertex_to_entity_path area_is_ccw [1; 2; 3]%nat
    (fst (vertex_graph tied_polyline)) None tied_polyline
  = (Ok [0; 1]%nat,
     [Entity.mk [3; 2; 1; 0]%nat false; Entity.mk [1; 3]%nat false])
  /\ Forall2 flipped tied_polyline
       [Entity.mk [3; 2; 1; 0]%nat false; Entity.mk [1; 3]%nat false].
Proof.
  assert (Hret : vertex_to_entity_path area_is_ccw [1; 2; 3]%nat
                   (fst (vertex_graph tied_polyline)) None tied_polyline
                 = (Ok [0; 1]%nat,
                    [Entity.mk [3; 2; 1; 0]%nat false;
                     Entity.mk [1; 3]%nat false])) by reflexivity.
  split; [exact Hret|].
  exact (proj1 (resolution_only_reverses area_is_ccw [1; 2; 3]%nat
                  (fst (vertex_graph tied_polyline)) None tied_polyline
                  _ _ Hret)).
Defined.

(** ** vertex_to_entity_path: entities that are already aligned *)

Lemma set_nth_same {A : Type} (l : list A) (i : nat) (x : A) :
  nth_error l i = Some x -> set_nth l i x = l.
Proof.
  revert i; induction l as [|y l IH]; intros [|i] H; try discriminate;
    cbn [set_nth].
  - cbn in H. congruence.
  - f_equal. now apply IH.
Qed.

Lemma reverse_points_forward (es : list Entity.t) (i : nat) (e : Entity.t) :
  nth_error es i = Some e -> reverse_points i 1 es = (Ok tt, es).
Proof.
  intros He. unfold reverse_points, bindM, entity_at.
  rewrite getitem_of_nat, He. f_equal.
  apply set_nth_same. rewrite He. now destruct e.
Qed.

Lemma align_identity (es : list Entity.t) (ab : nat * nat) :
  aligned es ab -> align ab es = (Ok tt, es).
Proof.
  destruct ab as [a b]. intros (u & v & w & Ha & Hb & Huv & Huw).
  cbn [fst snd] in Ha, Hb.
  apply ends_Some in Ha as (ea & Hea & Hpa).
  apply ends_Some in Hb as (eb & Heb & Hpb).
  assert (Hd : edge_direction (u, v) (v, w) = Ok (1%Z, 1%Z)).
  { unfold edge_direction. cbn [fst snd].
    destruct (Nat.eqb_spec u v); [congruence|].
    destruct (Nat.eqb_spec u w); [congruence|].
    now rewrite Nat.eqb_refl. }
  unfold align, bindM at 1, entity_at. rewrite getitem_of_nat, Hea.
  unfold bindM at 1, lift. rewrite Hpa.
  unfold bindM at 1. rewrite getitem_of_nat, Heb.
  unfold bindM at 1. rewrite Hpb.
  unfold bindM at 1. rewrite Hd.
  unfold bindM. rewrite (reverse_points_forward es a ea Hea).
  exact (reverse_points_forward es b eb Heb).
Qed.

Lemma for_each_align_identity (es : list Entity.t)
    (pairs : list (nat * nat)) :
  Forall (aligned es) pairs -> for_each align pairs es = (Ok tt, es).
Proof.
  induction 1 as [|ab l Hab _ IH]; [reflexivity|].
  cbn [for_each]. unfold bindM. now rewrite (align_identity es ab Hab).
Qed.

Lemma resolve_aligned (is_ccw : list point -> bool) (vertex_path : list nat)
    (graph : nx.Graph) (vertices : option ndarray) (es : list Entity.t)
    (path : list nat) (pairs : list (nat * nat)) :
  entity_sequence is_ccw vertex_path graph vertices = Ok path ->
  round_trip path = Ok pairs ->
  Forall (aligned es) pairs ->
  vertex_to_entity_path is_ccw vertex_path graph vertices es = (Ok path, es).
Proof.
  intros Hs Hr Hal. unfold vertex_to_entity_path, bindM, lift.
  rewrite Hs, Hr. now rewrite (for_each_align_identity es pairs Hal).
Qed.

(** X19: when every pair of the round trip already runs head to tail (the
    first entity ends where the second starts, at a vertex other than its
    own start, and does not start where the second ends), the resolver
    returns the entity path and leaves every entity as it was. *)
Theorem aligned_path_unchanged (is_ccw : list point -> bool)
    (vertex_path : list nat) (graph : nx.Graph) (vertices : option ndarray)
    (entities : list Entity.t) (path : list nat)
    (pairs : list (nat * nat)) :
  entity_sequence is_ccw vertex_path graph vertices = Ok path ->
  round_trip path = Ok pairs ->
  Forall (aligned entities) pairs ->
  vertex_to_entity_path is_ccw vertex_path graph vertices entities
  = (Ok path, entities).
Proof. exact (resolve_aligned is_ccw vertex_path graph vertices entities
                path pairs). Qed.

Lemma aligned_path_unchanged_witness :
  entity_sequence area_is_ccw [0; 1; 2]%nat
    (fst (vertex_graph aligned_triangle)) None
  = Ok [0; 1; 2]%nat
  /\ round_trip [0; 1; 2]%nat = Ok [(0, 1); (1, 2); (2, 0)]%nat
  /\ Forall (aligned aligned_triangle) [(0, 1); (1, 2); (2, 0)]%nat
  /\ vertex_to_entity_path area_is_ccw [0; 1; 2]%nat
       (fst (vertex_graph aligned_triangle)) None aligned_triangle
     = (Ok [0; 1; 2]%nat, aligned_triangle).
Proof.
  set (es := aligned_triangle).
  assert (Hs : entity_sequence area_is_ccw [0; 1; 2]%nat
                 (fst (vertex_graph es)) None = Ok [0; 1; 2]%nat)
    by reflexivity.
  assert (Hr : round_trip [0; 1; 2]%nat = Ok [(0, 1); (1, 2); (2, 0)]%nat)
    by reflexivity.
  assert (Hal : Forall (aligned es) [(0, 1); (1, 2); (2, 0)]%nat).
  { repeat constructor.
    - exists 0%nat, 1%nat, 2%nat. repeat split; try reflexivity; lia.
    - exists 1%nat, 2%nat, 0%nat. repeat split; try reflexivity; lia.
    - exists 2%nat, 0%nat, 1%nat. repeat split; try reflexivity; lia. }
  split; [exact Hs|]. split; [exact Hr|]. split; [exact Hal|].
  exact (aligned_path_unchanged area_is_ccw [0; 1; 2]%nat
           (fst (vertex_graph es)) None es _ _ Hs Hr Hal).
Defined.

(** ** vertex_to_entity_path: resolving twice *)

Lemma aligned_ext (es es' : list Entity.t) (ab : nat * nat) :
  (forall c, ends es' c = ends es c) -> aligned es ab -> aligned es' ab.
Proof.
  intros H (u & v & w & Ha & Hb & Hn). exists u, v, w.
  rewrite !H. auto.
Qed.

Lemma forward_aligned (es : list Entity.t) (path js : list nat) :
  forall a u v,
    ends es a = Some (u, v) -> forward es v path js ->
    NoDup (u :: v :: js) ->
    Forall (aligned es) (combine (a :: path) path).
Proof.
  revert js; induction path as [|b path IH]; intros js a u v Ha Hf Nj;
    [constructor|].
  destruct js as [|w js]; [contradiction|]. destruct Hf as [Hb Hf].
  change (combine (a :: b :: path) (b :: path))
    with ((a, b) :: combine (b :: path) path).
  constructor.
  - exists u, v, w. cbn [fst snd].
    inversion Nj as [|? ? Hn _]. cbn [In] in Hn.
    repeat split; auto; intros ->; tauto.
  - apply (IH js b v w); auto. now inversion Nj.
Qed.

(** The loop on a simple closed loop of at least three entities leaves
    every pair of the round trip running head to tail. *)
Lemma simple_cycle_settles (es : list Entity.t) (path : list nat)
    (pairs : list (nat * nat)) :
  NoDup path -> (3 <= List.length path)%nat -> simple_cycle es path ->
  round_trip path = Ok pairs ->
  exists es', for_each align pairs es = (Ok tt, es')
              /\ Forall (aligned es') pairs.
Proof.
  intros Np Hlen (js & Nj & Hc) Hr.
  destruct path as [|p0 [|p1 [|b rest']]]; cbn [List.length] in Hlen;
    try lia.
  pose proof (linked_length _ _ _ _ Hc) as Hl.
  destruct js as [|s0 [|s1 [|w js'']]]; try discriminate.
  rewrite round_trip_cons in Hr.
  assert (Hp : pairs
               = (p0, p1) :: combine (p1 :: b :: rest')
                               ((b :: rest') ++ [p0]))
    by (now injection Hr).
  clear Hr.
  assert (H01 : p0 <> p1)
    by (inversion Np as [|? ? Hn _]; intros ->; apply Hn; now left).
  assert (Hs01 : s0 <> s1)
    by (inversion Nj as [|? ? Hn _]; intros ->; apply Hn; now left).
  destruct Hc as (J0 & J1 & Hc).
  change (last (s0 :: s1 :: w :: js'') 0%nat)
    with (last (w :: js'') 0%nat) in J0.
  set (rest := b :: rest') in *. set (js' := w :: js'') in *.
  set (sl := last js' 0%nat) in *.
  assert (Hsl : In sl js') by (apply in_last; discriminate).
  assert (Hsl0 : sl <> s0).
  { inversion Nj as [|? ? Hn _]. intros E. apply Hn. rewrite <- E.
    now right. }
  assert (Hsl1 : sl <> s1).
  { inversion Nj as [|? ? _ Nj1]. inversion Nj1 as [|? ? Hn _].
    intros E. apply Hn. now rewrite <- E. }
  destruct (align_meeting es p0 p1 sl s0 s1)
    as (es1 & Hal1 & E0 & E1 & Fr1); auto.
  assert (Np1 : NoDup (p1 :: rest)) by now inversion Np.
  assert (Hc1 : chain es1 s1 rest js').
  { unfold chain in *. eapply linked_ext; [|exact Hc].
    intros c x y Hin. unfold joins. rewrite Fr1; [auto| |].
    - intros ->. inversion Np as [|? ? Hn _]. apply Hn. now right.
    - intros ->. inversion Np1; tauto. }
  destruct (walk rest js' es1 p1 s0 s1 Np1 Nj E1 Hc1)
    as (es2 & Hwalk & E1' & Fw & Fr2).
  assert (E0' : ends es2 p0 = Some (sl, s0)).
  { rewrite Fr2; [exact E0|]. now inversion Np. }
  pose proof Fw as Fw0. destruct Fw as [Eb Fw'].
  destruct (forward_last es2 rest' js'' b s1 w Eb Fw') as (x & Hx & Hin).
  set (pl := last (b :: rest') 0%nat) in *.
  change (last (w :: js'') 0%nat) with sl in Hx.
  assert (Hpl : In pl (p1 :: rest)) by (right; apply in_last; discriminate).
  assert (Hpl0 : pl <> p0).
  { intros E. inversion Np as [|? ? Hn _]. apply Hn. now rewrite <- E. }
  assert (Nj1 : NoDup (s1 :: js')) by now inversion Nj.
  assert (Hx0 : x <> s0).
  { intros ->. inversion Nj as [|? ? Hn _]. apply Hn.
    destruct Hin as [<-|Hin]; [now left|right].
    now apply in_removelast. }
  assert (Hxl : x <> sl).
  { destruct Hin as [<-|Hin]; [now apply not_eq_sym|].
    apply removelast_not_last; [now inversion Nj1|assumption]. }
  destruct (align_meeting es2 pl p0 x sl s0)
    as (es3 & Hal3 & El & E0'' & Fr3); auto;
    [now left|now left|].
  assert (Hsame : forall c, ends es3 c = ends es2 c).
  { intros c. destruct (Nat.eq_dec c pl) as [->|Hcl]; [congruence|].
    destruct (Nat.eq_dec c p0) as [->|Hc0]; [congruence|]. now apply Fr3. }
  rewrite (combine_snoc rest p1 p0 0%nat) in Hp. subst pairs.
  change (last (p1 :: rest) 0%nat) with pl.
  exists es3. split.
  - cbn [for_each]. unfold bindM at 1. rewrite Hal1.
    rewrite (for_each_app _ _ _ _ _ Hwalk).
    cbn [for_each]. unfold bindM. rewrite Hal3. reflexivity.
  - constructor.
    + apply (aligned_ext es2); [exact Hsame|].
      exists sl, s0, s1. cbn [fst snd]. auto.
    + apply Forall_app. split.
      * eapply Forall_impl;
          [intros ab; apply (aligned_ext es2); exact Hsame|].
        apply (forward_aligned es2 rest js' p1 s0 s1); assumption.
      * constructor; [|constructor].
        exists x, sl, s0. cbn [fst snd]. auto.
Qed.

(** X20: resolving is idempotent on simple closed loops: when the
    entities of the returned path form a simple closed loop of at least
    three entities, resolving the same vertex path again on the entities
    the first run left returns the same entity path and changes no
    entity. *)
Theorem resolution_idempotent (is_ccw : list point -> bool)
    (vertex_path : list nat) (graph : nx.Graph) (vertices : option ndarray)
    (entities entities' : list Entity.t) (path : list nat) :
  vertex_to_entity_path is_ccw vertex_path graph vertices entities
  = (Ok path, entities') ->
  simple_cycle entities path -> (3 <= List.length path)%nat ->
  vertex_to_entity_path is_ccw vertex_path graph vertices entities'
  = (Ok path, entities').
Proof.
  intros Hret Hcyc Hlen.
  apply vertex_to_entity_path_returns in Hret as (Hs & pairs & Hr & Hloop).
  pose proof (entity_sequence_NoDup _ _ _ _ _ Hs) as Np.
  destruct (simple_cycle_settles entities path pairs Np Hlen Hcyc Hr)
    as (es' & Hloop' & Hal).
  rewrite Hloop in Hloop'. injection Hloop' as <-.
  exact (resolve_aligned is_ccw vertex_path graph vertices entities'
           path pairs Hs Hr Hal).
Qed.

Lemma resolution_idempotent_witness :
  vertex_to_entity_path area_is_ccw [0; 1; 2]%nat
    (fst (vertex_graph triangle)) None triangle
  = (Ok [0; 1; 2]%nat, aligned_triangle)
  /\ simple_cycle triangle [0; 1; 2]%nat
  /\ (3 <= List.length [0; 1; 2]%nat)%nat
  /\ vertex_to_entity_path area_is_ccw [0; 1; 2]%nat
       (fst (vertex_graph triangle)) None aligned_triangle
     = (Ok [0; 1; 2]%nat, aligned_triangle).
Proof.
  set (es' := aligned_triangle).
  assert (Hret : vertex_to_entity_path area_is_ccw [0; 1; 2]%nat
                   (fst (vertex_graph triangle)) None triangle
                 = (Ok [0; 1; 2]%nat, es')) by reflexivity.
  assert (Hcyc : simple_cycle triangle [0; 1; 2]%nat).
  { exists [1; 2; 0]%nat. split.
    - repeat constructor; cbn [In]; intros H;
        repeat (destruct H as [H|H]; try discriminate); exact H.
    - cbn [last chain linked]. unfold joins.
      split; [right; reflexivity|]. split; [left; reflexivity|].
      split; [right; reflexivity|exact I]. }
  assert (Hlen : (3 <= List.length [0; 1; 2]%nat)%nat) by (cbn; lia).
  split; [exact Hret|]. split; [exact Hcyc|]. split; [exact Hlen|].
  exact (resolution_idempotent area_is_ccw [0; 1; 2]%nat
           (fst (vertex_graph triangle)) None triangle es' [0; 1; 2]%nat
           Hret Hcyc Hlen).
Defined.

(** ** closed_paths *)

Lemma get_edge_data_label (graph : nx.Graph) (u v a : nat) :
  nx.get_edge_data graph u v = Some a -> In a (edge_labels graph).
Proof.
  induction graph as [|[[x y] i] graph IH]; [discriminate|].
  cbn [nx.get_edge_data edge_labels map snd In].
  destruct (nx.same_edge u v x y); [intros H; left; congruence|].
  intros H. right. now apply IH.
Qed.

Lemma labels_add_edge (graph : nx.Graph) (a b i c : nat) :
  In c (edge_labels (nx.add_edge graph a b i)) ->
  c = i \/ In c (edge_labels graph).
Proof.
  unfold nx.add_edge, edge_labels. cbn [map snd In].
  intros [<-|H]; [now left|right].
  apply in_map_iff in H as (x & <- & Hx). apply filter_In in Hx as [Hx _].
  now apply in_map.
Qed.

Lemma labels_add_edges_from (ebunch : list (nat * nat)) :
  forall (graph : nx.Graph) (i c : nat),
    In c (edge_labels (nx.add_edges_from graph ebunch i)) ->
    c = i \/ In c (edge_labels graph).
Proof.
  unfold nx.add_edges_from.
  induction ebunch as [|[a b] ebunch IH]; intros graph i c H; [now right|].
  cbn [fold_left] in H. apply IH in H as [->|H]; [now left|].
  now apply labels_add_edge in H.
Qed.

Lemma vertex_graph_labels (es : list Entity.t) (c : nat) :
  In c (edge_labels (fst (vertex_graph es))) ->
  exists e, nth_error es c = Some e /\ Entity.closed e = false.
Proof.
  induction es as [|e es IH] using rev_ind; [intros []|].
  rewrite vertex_graph_snoc.
  destruct (vertex_graph es) as [graph closed] eqn:E. cbn [fst] in IH.
  assert (Hold : In c (edge_labels graph) ->
                 exists e0, nth_error (es ++ [e]) c = Some e0
                            /\ Entity.closed e0 = false).
  { intros H. destruct (IH H) as (e0 & He0 & Hc). exists e0.
    split; [|exact Hc]. rewrite nth_error_app1; [exact He0|].
    apply nth_error_Some. congruence. }
  destruct (Entity.closed e) eqn:Ec; cbn [fst]; [exact Hold|].
  intros H. apply labels_add_edges_from in H as [->|H]; [|now apply Hold].
  exists e. split; [|exact Ec].
  rewrite nth_error_app2, Nat.sub_diag by lia. reflexivity.
Qed.

Lemma preserves_resolve (is_ccw : list point -> bool)
    (vertex_path : list nat) (graph : nx.Graph) (vertices : option ndarray) :
  preserves (edge_labels graph)
    (vertex_to_entity_path is_ccw vertex_path graph vertices).
Proof.
  destruct (entity_sequence is_ccw vertex_path graph vertices)
    as [path|e] eqn:Hs.
  - apply (preserves_incl path); [|now apply resolve_preserves_path].
    intros a Ha.
    apply (entity_sequence_edges _ _ _ _ _ Hs) in Ha
      as (i & u & v & _ & _ & _ & Hg).
    now apply get_edge_data_label in Hg.
  - intros s r s' H.
    rewrite (resolve_raises_untouched _ _ _ _ s e Hs) in H.
    injection H as _ <-. apply only_reverses_refl.
Qed.

Lemma preserves_cycles (is_ccw : list point -> bool) (graph : nx.Graph)
    (vertices : ndarray) (vertex_paths : list (list nat)) :
  forall acc : M (list (list nat)),
    preserves (edge_labels graph) acc ->
    preserves (edge_labels graph)
      (fold_left
         (fun (acc : M (list (list nat))) vertex_path =>
            entity_paths <~ acc ;;
            if (np.len vertex_path <? 2)%Z then ret entity_paths
            else
              entity_path <~
                vertex_to_entity_path is_ccw vertex_path graph
                  (Some vertices) ;;
              ret (entity_paths ++ [entity_path]))
         vertex_paths acc).
Proof.
  induction vertex_paths as [|vp vps IH]; intros acc Hacc; [exact Hacc|].
  cbn [fold_left]. apply IH.
  apply preserves_bind; [exact Hacc|intros paths].
  destruct (np.len vp <? 2)%Z; [apply preserves_ret|].
  apply preserves_bind; [apply preserves_resolve|intros p].
  apply preserves_ret.
Qed.

Lemma fold_cycles (is_ccw : list point -> bool) (graph : nx.Graph)
    (vertices : ndarray) (vertex_paths : list (list nat)) :
  forall (acc : M (list (list nat))) (s s' : list Entity.t)
         (paths : list (list nat)),
    fold_left
      (fun (acc : M (list (list nat))) vertex_path =>
         entity_paths <~ acc ;;
         if (np.len vertex_path <? 2)%Z then ret entity_paths
         else
           entity_path <~
             vertex_to_entity_path is_ccw vertex_path graph
               (Some vertices) ;;
           ret (entity_paths ++ [entity_path]))
      vertex_paths acc s
    = (Ok paths, s') ->
    exists first s0 rest,
      acc s = (Ok first, s0)
      /\ paths = first ++ rest
      /\ Forall2
           (fun vertex_path entity_path =>
              entity_sequence is_ccw vertex_path graph (Some vertices)
              = Ok entity_path)
           (filter (fun vertex_path => negb (np.len vertex_path <? 2)%Z)
              vertex_paths)
           rest.
Proof.
  induction vertex_paths as [|vp vps IH]; intros acc s s' paths H.
  { cbn [fold_left] in H. exists paths, s', []. rewrite app_nil_r.
    repeat split; [exact H|constructor]. }
  cbn [fold_left] in H.
  apply IH in H as (first1 & s1 & rest1 & Hstep & -> & HF).
  unfold bindM at 1 in Hstep.
  destruct (acc s) as [[first|e] s0] eqn:Ea; [|discriminate].
  cbn [filter]. destruct (np.len vp <? 2)%Z; cbn [negb].
  - unfold ret in Hstep. injection Hstep as <- <-.
    exists first, s0, rest1. auto.
  - unfold bindM in Hstep.
    destruct (vertex_to_entity_path is_ccw vp graph (Some vertices) s0)
      as [[p|e] s2] eqn:Ev; [|discriminate].
    unfold ret in Hstep. injection Hstep as <- <-.
    apply vertex_to_entity_path_returns in Ev as (Hs & _).
    exists first, s0, (p :: rest1). split; [reflexivity|].
    split; [now rewrite <- app_assoc|]. now constructor.
Qed.

Lemma closed_paths_triangle :
  closed_paths area_is_ccw triangle_basis triangle_vertices
    (triangle ++ [closed_triangle])
  = (Ok [[3]; [0; 1; 2]]%nat, aligned_triangle ++ [closed_triangle]).
Proof.
  unfold closed_paths, bindM at 1, get_entities.
  change (vertex_graph (triangle ++ [closed_triangle]))
    with ([(0, 2, 2); (1, 2, 1); (1, 0, 0)]%nat, [3%nat]).
  cbn [triangle_basis map fold_left].
  change (np.len [0; 1; 2]%nat <? 2)%Z with false. cbv iota.
  unfold bindM at 1, ret at 1. unfold bindM at 1.
  unfold vertex_to_entity_path, bindM at 1, lift at 1.
  assert (Hs : entity_sequence area_is_ccw [0; 1; 2]%nat
                 [(0, 2, 2); (1, 2, 1); (1, 0, 0)]%nat
                 (Some triangle_vertices)
               = Ok [0; 1; 2]%nat).
  { unfold entity_sequence, ccw_direction.
    change (np.getitem [0; 1; 2]%nat 0) with (Ok 0%nat). cbn [bind].
    change (np.take (rows triangle_vertices)
              (map Z.of_nat ([0; 1; 2]%nat ++ [0%nat])))
      with (Ok [[0; 0]; [1; 0]; [1; 1]; [0; 0]]).
    cbn [bind]. unfold area_is_ccw. cbn [ring_sum].
    rewrite Rltb_true by lra. reflexivity. }
  rewrite Hs. reflexivity.
Qed.

(** X21: the paths [closed_paths] returns are first one single-entity
    path per closed entity, in the order of the entities, then one entity
    path per cycle of the cycle basis that has at least two vertices, in
    the order of the basis, each the deduplicated and oriented entity
    sequence of its cycle; cycles of fewer than two vertices give no
    path. *)
Theorem closed_paths_structure (is_ccw : list point -> bool)
    (cycle_basis : nx.Graph -> list (list nat)) (vertices : ndarray)
    (entities entities' : list Entity.t) (paths : list (list nat)) :
  closed_paths is_ccw cycle_basis vertices entities = (Ok paths, entities') ->
  exists rest,
    paths = map (fun c => [c]) (snd (vertex_graph entities)) ++ rest
    /\ Forall2
         (fun vertex_path entity_path =>
            entity_sequence is_ccw vertex_path (fst (vertex_graph entities))
              (Some vertices)
            = Ok entity_path)
         (filter (fun vertex_path => negb (np.len vertex_path <? 2)%Z)
            (cycle_basis (fst (vertex_graph entities))))
         rest.
Proof.
  unfold closed_paths, bindM at 1, get_entities.
  destruct (vertex_graph entities) as [graph closed]. cbn [fst snd].
  intros H. apply fold_cycles in H as (first & s0 & rest & Hf & -> & HF).
  unfold ret in Hf. injection Hf as <- _. now exists rest.
Qed.

Lemma closed_paths_structure_witness :
  closed_paths area_is_ccw triangle_basis triangle_vertices
    (triangle ++ [closed_triangle])
  = (Ok [[3]; [0; 1; 2]]%nat, aligned_triangle ++ [closed_triangle])
  /\ exists rest,
       [[3]; [0; 1; 2]]%nat
       = map (fun c => [c])
           (snd (vertex_graph (triangle ++ [closed_triangle]))) ++ rest
       /\ Forall2
            (fun vertex_path entity_path =>
               entity_sequence area_is_ccw vertex_path
                 (fst (vertex_graph (triangle ++ [closed_triangle])))
                 (Some triangle_vertices)
               = Ok entity_path)
            (filter (fun vertex_path => negb (np.len vertex_path <? 2)%Z)
               (triangle_basis
                  (fst (vertex_graph (triangle ++ [closed_triangle])))))
            rest.
Proof.
  pose proof closed_paths_triangle as Hret.
  split; [exact Hret|].
  exact (closed_paths_structure area_is_ccw triangle_basis triangle_vertices
           (triangle ++ [closed_triangle]) _ _ Hret).
Defined.

(** X22: whatever its outcome, [closed_paths] at most reverses the points
    of entities: the entity list keeps its length, every entity keeps its
    [closed] flag and its points as they were or reversed, and no closed
    entity is modified. *)
Theorem closed_paths_keeps_closed (is_ccw : list point -> bool)
    (cycle_basis : nx.Graph -> list (list nat)) (vertices : ndarray)
    (entities entities' : list Entity.t)
    (outcome : result (list (list nat))) :
  closed_paths is_ccw cycle_basis vertices entities = (outcome, entities') ->
  Forall2 flipped entities entities'
  /\ forall c e,
       nth_error entities c = Some e -> Entity.closed e = true ->
       nth_error entities' c = Some e.
Proof.
  unfold closed_paths, bindM at 1, get_entities.
  pose proof (vertex_graph_labels entities) as Hopen.
  destruct (vertex_graph entities) as [graph closed]. cbn [fst] in Hopen.
  intros H.
  apply (preserves_cycles is_ccw graph vertices (cycle_basis graph)) in H
    as [F N]; [|apply preserves_ret].
  split; [exact F|]. intros c e He Hc. rewrite N; [exact He|].
  intros Hin. apply Hopen in Hin as (e' & He' & Hc'). congruence.
Qed.

Lemma closed_paths_keeps_closed_witness :
  closed_paths area_is_ccw triangle_basis triangle_vertices
    (triangle ++ [closed_triangle])
  = (Ok [[3]; [0; 1; 2]]%nat, aligned_triangle ++ [closed_triangle])
  /\ Forall2 flipped (triangle ++ [closed_triangle])
       (aligned_triangle ++ [closed_triangle]).
Proof.
  pose proof closed_paths_triangle as Hret.
  split; [exact Hret|].
  exact (proj1 (closed_paths_keeps_closed area_is_ccw triangle_basis
                  triangle_vertices (triangle ++ [closed_triangle]) _ _
                  Hret)).
Defined.

(** ** Adjacency after resolution and after extraction (C3) *)

Lemma adjacent_local (es es' : list Entity.t) (ab : nat * nat) :
  nth_error es' (fst ab) = nth_error es (fst ab) ->
  nth_error es' (snd ab) = nth_error es (snd ab) ->
  adjacent es ab -> adjacent es' ab.
Proof.
  intros Ha Hb (ea & eb & x & H1 & H2 & H3). exists ea, eb, x.
  rewrite Ha, Hb. auto.
Qed.

Lemma simple_cycle_local (es es' : list Entity.t) (path : list nat) :
  (forall c, In c path -> nth_error es' c = nth_error es c) ->
  simple_cycle es path -> simple_cycle es' path.
Proof.
  intros H (js & Nj & Hc). exists js. split; [exact Nj|].
  unfold chain in *. eapply linked_ext; [|exact Hc].
  intros a x y Hin. unfold joins, ends. now rewrite (H a Hin).
Qed.

Lemma simple_cycle_single_ends (es : list Entity.t) (a : nat) :
  simple_cycle es [a] -> exists v, ends es a = Some (v, v).
Proof.
  intros (js & _ & Hc). destruct js as [|v [|w js]]; cbn in Hc;
    try tauto.
  destruct Hc as [[J|J] _]; eauto.
Qed.

(** A loop made of a single entity: the entity is reversed, and still
    ends where it starts. *)
Lemma simple_cycle_single (es : list Entity.t) (a : nat) :
  simple_cycle es [a] ->
  exists es', for_each align [(a, a)] es = (Ok tt, es')
              /\ Forall (adjacent es') [(a, a)].
Proof.
  intros Hc. apply simple_cycle_single_ends in Hc as (v & Ha).
  assert (Hd : edge_direction (v, v) (v, v) = Ok ((-1)%Z, 1%Z)).
  { unfold edge_direction. cbn [fst snd]. now rewrite Nat.eqb_refl. }
  destruct (align_ok es a a (v, v) (v, v) (-1) 1 Ha Ha Hd)
    as (es' & Hal & Hends).
  exists es'. split.
  - cbn [for_each]. unfold bindM. now rewrite Hal.
  - constructor; [|constructor].
    apply (ends_adjacent es' a a v v v); rewrite Hends;
      unfold aligned_ends; now rewrite Nat.eqb_refl.
Qed.

(** The loop on a simple closed loop of any number of entities ends
    normally and leaves every adjacent pair meeting tail to head. *)
Lemma simple_cycle_adjacent (es : list Entity.t) (path : list nat)
    (pairs : list (nat * nat)) :
  NoDup path -> simple_cycle es path -> round_trip path = Ok pairs ->
  exists es', for_each align pairs es = (Ok tt, es')
              /\ Forall (adjacent es') pairs.
Proof.
  intros Np Hc Hr. destruct path as [|a [|b rest]].
  - rewrite round_trip_nil in Hr. discriminate.
  - assert (Hp : pairs = [(a, a)])
      by (rewrite round_trip_cons in Hr; cbn in Hr; congruence).
    subst pairs. now apply simple_cycle_single.
  - apply (simple_cycle_aligned es (a :: b :: rest)); auto.
    cbn [List.length]. lia.
Qed.

Lemma resolve_adjacent (is_ccw : list point -> bool)
    (vertex_path : list nat) (graph : nx.Graph) (vertices : option ndarray)
    (es es' : list Entity.t) (path : list nat) (pairs : list (nat * nat)) :
  vertex_to_entity_path is_ccw vertex_path graph vertices es
  = (Ok path, es') ->
  simple_cycle es path -> round_trip path = Ok pairs ->
  Forall (adjacent es') pairs.
Proof.
  intros Hret Hcyc Hr.
  apply vertex_to_entity_path_returns in Hret as (Hs & pairs' & Hr' & Hloop).
  rewrite Hr in Hr'. injection Hr' as <-.
  apply entity_sequence_NoDup in Hs.
  destruct (simple_cycle_adjacent es path pairs Hs Hcyc Hr)
    as (es1 & Hloop' & Hadj).
  rewrite Hloop in Hloop'. injection Hloop' as <-. exact Hadj.
Qed.

Lemma NoDup_app_disjoint {A : Type} (l l' : list A) (x : A) :
  NoDup (l ++ l') -> In x l -> ~ In x l'.
Proof.
  induction l as [|y l IH]; [intros _ []|].
  cbn [app]. intros N [->|H] H'.
  - inversion N as [|? ? Hn _]. apply Hn, in_or_app. now right.
  - inversion N. now apply IH.
Qed.

Lemma concat_singles {A : Type} (l : list A) :
  List.concat (map (fun c => [c]) l) = l.
Proof. induction l as [|x l IH]; cbn; [reflexivity|now rewrite IH]. Qed.

(** The loop of [closed_paths]: when the paths it adds are simple closed
    loops that share no entity, each of them is adjacent in the final
    entities, and the entities on none of them are as they were. *)
Lemma fold_cycles_adjacent (is_ccw : list point -> bool) (graph : nx.Graph)
    (vertices : ndarray) (vertex_paths : list (list nat)) :
  forall (acc : M (list (list nat))) (s s' : list Entity.t)
         (paths : list (list nat)),
    fold_left
      (fun (acc : M (list (list nat))) vertex_path =>
         entity_paths <~ acc ;;
         if (np.len vertex_path <? 2)%Z then ret entity_paths
         else
           entity_path <~
             vertex_to_entity_path is_ccw vertex_path graph
               (Some vertices) ;;
           ret (entity_paths ++ [entity_path]))
      vertex_paths acc s
    = (Ok paths, s') ->
    exists first s0 rest,
      acc s = (Ok first, s0)
      /\ paths = first ++ rest
      /\ (NoDup (List.concat rest) ->
          (forall path, In path rest -> simple_cycle s0 path) ->
          (forall path pairs,
              In path rest -> round_trip path = Ok pairs ->
              Forall (adjacent s') pairs)
          /\ forall c, ~ In c (List.concat rest) ->
                       nth_error s' c = nth_error s0 c).
Proof.
  induction vertex_paths as [|vp vps IH]; intros acc s s' paths H.
  { cbn [fold_left] in H. exists paths, s', []. rewrite app_nil_r.
    split; [exact H|]. split; [reflexivity|].
    intros _ _. split; [intros ? ? []|auto]. }
  cbn [fold_left] in H.
  apply IH in H as (first1 & s1 & rest1 & Hstep & -> & HP).
  unfold bindM at 1 in Hstep.
  destruct (acc s) as [[first|e] s0] eqn:Ea; [|discriminate].
  destruct (np.len vp <? 2)%Z.
  - unfold ret in Hstep. injection Hstep as <- <-.
    exists first, s0, rest1. auto.
  - unfold bindM in Hstep.
    destruct (vertex_to_entity_path is_ccw vp graph (Some vertices) s0)
      as [[p|e] s2] eqn:Ev; [|discriminate].
    unfold ret in Hstep. injection Hstep as <- <-.
    exists first, s0, (p :: rest1). split; [reflexivity|].
    split; [now rewrite <- app_assoc|].
    cbn [List.concat]. intros Nd Hsimple.
    pose proof (vertex_to_entity_path_returns _ _ _ _ _ _ _ Ev)
      as (Hs & _).
    destruct (resolve_preserves_path _ _ _ _ _ Hs _ _ _ Ev) as [_ Hframe].
    assert (Hoff : forall c, In c (List.concat rest1) ->
                             nth_error s2 c = nth_error s0 c).
    { intros c Hc. apply Hframe. intros Hp.
      exact (NoDup_app_disjoint _ _ c Nd Hp Hc). }
    destruct HP as [Hadj Hrest].
    { now apply NoDup_app_remove_l in Nd. }
    { intros q Hq. apply (simple_cycle_local s0); [|apply Hsimple; now right].
      intros c Hc. apply Hoff. apply in_concat. eauto. }
    split.
    + intros q pairs [<-|Hq] Hr; [|now apply (Hadj q)].
      assert (Hadj1 : Forall (adjacent s2) pairs).
      { apply (resolve_adjacent _ _ _ _ _ _ _ _ Ev); [|exact Hr].
        apply Hsimple. now left. }
      pose proof (round_trip_in _ _ Hr) as Hin.
      rewrite Forall_forall in *. intros ab Hab.
      destruct (Hin ab Hab) as [Ha Hb].
      apply (adjacent_local s2); [| |now apply Hadj1]; apply Hrest.
      * exact (NoDup_app_disjoint _ _ _ Nd Ha).
      * exact (NoDup_app_disjoint _ _ _ Nd Hb).
    + intros c Hc. rewrite Hrest by (intros Hin; apply Hc, in_or_app; auto).
      apply Hframe. intros Hin. apply Hc, in_or_app. auto.
Qed.

(** C3, as the code has it.  For the cycle resolver: when the entities of
    the returned path form a simple closed loop (consecutive entities
    meet at a junction, the junctions are pairwise distinct; a single
    entity ends where it starts), every adjacent pair [(a, b)] of the
    round trip satisfies [entities[a].points[-1] == entities[b].points[0]]
    after resolution.  For the path extractor: when every returned path
    is such a loop and no entity lies on two returned paths, the same
    holds of every returned path in the entities [closed_paths] leaves. *)
Theorem resolved_path_adjacency (is_ccw : list point -> bool)
    (cycle_basis : nx.Graph -> list (list nat)) :
  (forall (vertex_path : list nat) (graph : nx.Graph)
          (vertices : option ndarray) (entities entities' : list Entity.t)
          (path : list nat) (pairs : list (nat * nat)),
      vertex_to_entity_path is_ccw vertex_path graph vertices entities
      = (Ok path, entities') ->
      simple_cycle entities path ->
      round_trip path = Ok pairs ->
      Forall (adjacent entities') pairs)
  /\ (forall (vertices : ndarray) (entities entities' : list Entity.t)
             (paths : list (list nat)),
         closed_paths is_ccw cycle_basis vertices entities
         = (Ok paths, entities') ->
         (forall path, In path paths -> simple_cycle entities path) ->
         NoDup (List.concat paths) ->
         forall (path : list nat) (pairs : list (nat * nat)),
           In path paths -> round_trip path = Ok pairs ->
           Forall (adjacent entities') pairs).
Proof.
  split; [exact (resolve_adjacent is_ccw)|].
  intros vertices entities entities' paths H Hsimple Nd path pairs Hin Hr.
  unfold closed_paths, bindM at 1, get_entities in H.
  destruct (vertex_graph entities) as [graph closed].
  apply fold_cycles_adjacent in H as (first & s0 & rest & Hf & -> & HP).
  unfold ret in Hf. injection Hf as <- <-.
  rewrite concat_app, concat_singles in Nd.
  destruct HP as [Hadj Hrest].
  { now apply NoDup_app_remove_l in Nd. }
  { intros q Hq. apply Hsimple, in_or_app. now right. }
  apply in_app_or in Hin as [Hin|Hin]; [|now apply (Hadj path)].
  apply in_map_iff in Hin as (c & <- & Hc).
  assert (Hp : pairs = [(c, c)])
    by (rewrite round_trip_cons in Hr; cbn in Hr; congruence).
  subst pairs. constructor; [|constructor].
  assert (Hsc : simple_cycle entities [c]).
  { apply Hsimple, in_or_app. left. apply in_map_iff. eauto. }
  apply simple_cycle_single_ends in Hsc as (v & Hv).
  assert (E : nth_error entities' c = nth_error entities c).
  { apply Hrest. exact (NoDup_app_disjoint _ _ c Nd Hc). }
  apply (adjacent_local entities); [exact E|exact E|].
  now apply (ends_adjacent entities c c v v v).
Qed.

Lemma resolved_path_adjacency_witness :
  vertex_to_entity_path area_is_ccw [0; 1; 2]%nat
    (fst (vertex_graph triangle)) None triangle
  = (Ok [0; 1; 2]%nat, aligned_triangle)
  /\ simple_cycle triangle [0; 1; 2]%nat
  /\ round_trip [0; 1; 2]%nat = Ok [(0, 1); (1, 2); (2, 0)]%nat
  /\ Forall (adjacent aligned_triangle) [(0, 1); (1, 2); (2, 0)]%nat
  /\ closed_paths area_is_ccw triangle_basis triangle_vertices
       (triangle ++ [closed_triangle])
     = (Ok [[3]; [0; 1; 2]]%nat, aligned_triangle ++ [closed_triangle])
  /\ (forall path,
         In path [[3]; [0; 1; 2]]%nat ->
         simple_cycle (triangle ++ [closed_triangle]) path)
  /\ NoDup (List.concat [[3]; [0; 1; 2]]%nat)
  /\ round_trip [3%nat] = Ok [(3, 3)%nat]
  /\ Forall (adjacent (aligned_triangle ++ [closed_triangle]))
       [(3, 3)%nat]
  /\ Forall (adjacent (aligned_triangle ++ [closed_triangle]))
       [(0, 1); (1, 2); (2, 0)]%nat.
Proof.
  assert (Hret : vertex_to_entity_path area_is_ccw [0; 1; 2]%nat
                   (fst (vertex_graph triangle)) None triangle
                 = (Ok [0; 1; 2]%nat, aligned_triangle)) by reflexivity.
  assert (Hcyc : simple_cycle triangle [0; 1; 2]%nat).
  { exists [1; 2; 0]%nat. split.
    - repeat constructor; cbn [In]; intros H;
        repeat (destruct H as [H|H]; try discriminate); exact H.
    - cbn [last chain linked]. unfold joins.
      split; [right; reflexivity|]. split; [left; reflexivity|].
      split; [right; reflexivity|exact I]. }
  assert (Hr : round_trip [0; 1; 2]%nat = Ok [(0, 1); (1, 2); (2, 0)]%nat)
    by reflexivity.
  pose proof closed_paths_triangle as Hext.
  assert (Hall : forall path,
             In path [[3]; [0; 1; 2]]%nat ->
             simple_cycle (triangle ++ [closed_triangle]) path).
  { intros path [<-|[<-|[]]].
    - exists [0%nat]. split; [repeat constructor; intros []|].
      cbn [last chain linked]. unfold joins.
      split; [left; reflexivity|exact I].
    - exists [1; 2; 0]%nat. split.
      + repeat constructor; cbn [In]; intros H;
          repeat (destruct H as [H|H]; try discriminate); exact H.
      + cbn [last chain linked]. unfold joins.
        split; [right; reflexivity|]. split; [left; reflexivity|].
        split; [right; reflexivity|exact I]. }
  assert (Nd : NoDup (List.concat [[3]; [0; 1; 2]]%nat)).
  { cbn [List.concat app]. repeat constructor; cbn [In]; intros H;
      repeat (destruct H as [H|H]; try discriminate); exact H. }
  assert (Hr3 : round_trip [3%nat] = Ok [(3, 3)%nat]) by reflexivity.
  pose proof (resolved_path_adjacency area_is_ccw triangle_basis)
    as [Hres Hextr].
  split; [exact Hret|]. split; [exact Hcyc|]. split; [exact Hr|].
  split; [exact (Hres _ _ _ _ _ _ _ Hret Hcyc Hr)|].
  split; [exact Hext|]. split; [exact Hall|]. split; [exact Nd|].
  split; [exact Hr3|]. split.
  - exact (Hextr _ _ _ _ Hext Hall Nd [3%nat] _
             (or_introl eq_refl) Hr3).
  - exact (Hextr _ _ _ _ Hext Hall Nd [0; 1; 2]%nat _
             (or_intror (or_introl eq_refl)) Hr).
Defined.

Lemma closed_paths_two_triangles :
  closed_paths area_is_ccw two_triangles_basis two_triangles_vertices
    two_triangles
  = (Ok [[0; 1; 2]; [4; 3; 0]]%nat,
     [Entity.mk [1; 0]%nat false; Entity.mk [1; 2]%nat false;
      Entity.mk [2; 0]%nat false; Entity.mk [3; 1]%nat false;
      Entity.mk [0; 3]%nat false]).
Proof.
  set (graph := [(3, 0, 4); (1, 3, 3); (2, 0, 2); (1, 2, 1); (0, 1, 0)]%nat).
  assert (R1 : vertex_to_entity_path area_is_ccw [0; 1; 2]%nat graph
                 (Some two_triangles_vertices) two_triangles
               = (Ok [0; 1; 2]%nat, two_triangles)).
  { unfold vertex_to_entity_path, bindM at 1, lift at 1.
    assert (Hs : entity_sequence area_is_ccw [0; 1; 2]%nat graph
                   (Some two_triangles_vertices)
                 = Ok [0; 1; 2]%nat).
    { unfold entity_sequence, ccw_direction.
      change (np.getitem [0; 1; 2]%nat 0) with (Ok 0%nat). cbn [bind].
      change (np.take (rows two_triangles_vertices)
                (map Z.of_nat ([0; 1; 2]%nat ++ [0%nat])))
        with (Ok [[0; 0]; [1; 0]; [1; 1]; [0; 0]]).
      cbn [bind]. unfold area_is_ccw. cbn [ring_sum].
      rewrite Rltb_true by lra. reflexivity. }
    rewrite Hs. reflexivity. }
  assert (R2 : vertex_to_entity_path area_is_ccw [0; 1; 3]%nat graph
                 (Some two_triangles_vertices) two_triangles
               = (Ok [4; 3; 0]%nat,
                  [Entity.mk [1; 0]%nat false; Entity.mk [1; 2]%nat false;
                   Entity.mk [2; 0]%nat false; Entity.mk [3; 1]%nat false;
                   Entity.mk [0; 3]%nat false])).
  { unfold vertex_to_entity_path, bindM at 1, lift at 1.
    assert (Hs : entity_sequence area_is_ccw [0; 1; 3]%nat graph
                   (Some two_triangles_vertices)
                 = Ok [4; 3; 0]%nat).
    { unfold entity_sequence, ccw_direction.
      change (np.getitem [0; 1; 3]%nat 0) with (Ok 0%nat). cbn [bind].
      change (np.take (rows two_triangles_vertices)
                (map Z.of_nat ([0; 1; 3]%nat ++ [0%nat])))
        with (Ok [[0; 0]; [1; 0]; [1; -1]; [0; 0]]).
      cbn [bind]. unfold area_is_ccw. cbn [ring_sum].
      rewrite Rltb_false by lra. reflexivity. }
    rewrite Hs. reflexivity. }
  unfold closed_paths, bindM at 1, get_entities.
  change (vertex_graph two_triangles) with (graph, @nil nat).
  cbn [two_triangles_basis map fold_left].
  change (np.len [0; 1; 2]%nat <? 2)%Z with false.
  change (np.len [0; 1; 3]%nat <? 2)%Z with false. cbv iota.
  unfold bindM, ret. rewrite R1. rewrite R2. reflexivity.
Qed.

(** C3, second counterexample to the claim as stated: the two triangles
    0-1-2 and 0-1-3 share the line 0-1.  Both returned paths are simple
    closed loops, but resolving the second loop reverses the shared line
    again, and afterwards the first returned path is no longer adjacent:
    the last point of entity 0 is vertex 0 while the first point of
    entity 1 is vertex 1. *)
Lemma extracted_paths_shared_entity_not_adjacent :
  closed_paths area_is_ccw two_triangles_basis two_triangles_vertices
    two_triangles
  = (Ok [[0; 1; 2]; [4; 3; 0]]%nat,
     [Entity.mk [1; 0]%nat false; Entity.mk [1; 2]%nat false;
      Entity.mk [2; 0]%nat false; Entity.mk [3; 1]%nat false;
      Entity.mk [0; 3]%nat false])
  /\ simple_cycle two_triangles [0; 1; 2]%nat
  /\ simple_cycle two_triangles [4; 3; 0]%nat
  /\ round_trip [0; 1; 2]%nat = Ok [(0, 1); (1, 2); (2, 0)]%nat
  /\ ~ adjacent
         [Entity.mk [1; 0]%nat false; Entity.mk [1; 2]%nat false;
          Entity.mk [2; 0]%nat false; Entity.mk [3; 1]%nat false;
          Entity.mk [0; 3]%nat false]
         (0, 1)%nat.
Proof.
  split; [exact closed_paths_two_triangles|].
  split; [|split; [|split; [reflexivity|]]].
  - exists [1; 2; 0]%nat. split.
    + repeat constructor; cbn [In]; intros H;
        repeat (destruct H as [H|H]; try discriminate); exact H.
    + cbn [last chain linked]. unfold joins.
      repeat split; first [left; reflexivity|right; reflexivity].
  - exists [3; 1; 0]%nat. split.
    + repeat constructor; cbn [In]; intros H;
        repeat (destruct H as [H|H]; try discriminate); exact H.
    + cbn [last chain linked]. unfold joins.
      repeat split; first [left; reflexivity|right; reflexivity].
  - intros (ea & eb & x & Ha & Hb & Hl & Hf).
    cbn in Ha, Hb. injection Ha as <-. injection Hb as <-.
    vm_compute in Hl, Hf. congruence.
Qed.

(** ** discretize_path *)

Lemma in_enumerate {A : Type} (l : list A) (x : A) :
  forall k, In x l -> exists i, In (i, x) (combine (seq k (List.length l)) l).
Proof.
  induction l as [|y l IH]; intros k; [intros []|].
  cbn [List.length seq combine In]. intros [->|H].
  - exists k. now left.
  - destruct (IH (S k) H) as (i & Hi). exists i. now right.
Qed.

(** X23: a path that names an entity index beyond the entity list makes
    [discretize_path] raise [IndexError], wherever the index stands in the
    path. *)
Theorem discretize_missing_entity (is_ccw : list point -> bool)
    (discrete : Entity.t -> ndarray -> R -> list point)
    (entities : list Entity.t) (vertices : ndarray) (path : list nat)
    (scale : R) (a : nat) :
  In a path -> nth_error entities a = None ->
  discretize_path is_ccw discrete entities vertices path scale
  = Raise IndexError.
Proof.
  intros Hin Ha. unfold discretize_path, np.len.
  destruct path as [|a0 rest]; [destruct Hin|].
  destruct (Z.eqb_spec (Z.of_nat (List.length (a0 :: rest))) 0) as [E|_];
    [cbn [List.length] in E; lia|].
  destruct (Z.eqb_spec (Z.of_nat (List.length (a0 :: rest))) 1) as [E|E].
  - destruct rest; [|cbn [List.length] in E; lia].
    destruct Hin as [->|[]].
    rewrite getitem_head. cbn [bind]. now rewrite getitem_of_nat, Ha.
  - set (n := Z.of_nat (List.length (a0 :: rest))).
    rewrite (mapM_raise_uniform _ IndexError); [reflexivity| |].
    + intros [i id] _. rewrite getitem_of_nat.
      destruct (nth_error entities id); [left|now right].
      cbn [bind]. destruct (n - 1 <=? Z.of_nat i)%Z; eauto.
    + destruct (in_enumerate (a0 :: rest) a 0 Hin) as (i & Hi).
      exists (i, a). split; [exact Hi|].
      now rewrite getitem_of_nat, Ha.
Qed.

Lemma discretize_missing_entity_witness :
  In 7%nat [0; 7; 1]%nat /\ nth_error triangle 7 = None
  /\ discretize_path area_is_ccw line_discrete triangle triangle_vertices
       [0; 7; 1]%nat 1
     = Raise IndexError.
Proof.
  assert (Hin : In 7%nat [0; 7; 1]%nat) by (right; now left).
  assert (Ha : nth_error triangle 7 = None) by reflexivity.
  split; [exact Hin|]. split; [exact Ha|].
  exact (discretize_missing_entity area_is_ccw line_discrete triangle
           triangle_vertices [0; 7; 1]%nat 1 7%nat Hin Ha).
Defined.

(** X24: with 2D vertices the curve [discretize_path] returns is
    counter-clockwise, unless it is counter-clockwise in neither
    direction: the returned curve fails the test only when its reverse
    fails it too. *)
Theorem discretize_2d_orientation (is_ccw : list point -> bool)
    (discrete : Entity.t -> ndarray -> R -> list point)
    (entities : list Entity.t) (vertices : ndarray) (path : list nat)
    (scale : R) (curve : list point) :
  discretize_path is_ccw discrete entities vertices path scale = Ok curve ->
  snd (shape vertices) = 2%nat ->
  is_ccw curve = true \/ is_ccw (rev curve) = false.
Proof.
  unfold discretize_path. intros H Hs.
  destruct (np.len path =? 0)%Z; [discriminate|].
  match type of H with
  | bind ?r _ = _ => destruct r as [d|e]; [|discriminate]
  end.
  cbn [bind] in H. rewrite Hs, Nat.eqb_refl in H. cbn [andb] in H.
  destruct (is_ccw d) eqn:Ed; cbn [negb] in H; injection H as <-.
  - now left.
  - right. now rewrite rev_involutive.
Qed.

Lemma discretize_2d_orientation_witness :
  discretize_path area_is_ccw line_discrete [closed_triangle]
    clockwise_vertices [0%nat] 1
  = Ok [[0; 0]; [1; 1]; [0; 1]; [0; 0]]
  /\ snd (shape clockwise_vertices) = 2%nat
  /\ (area_is_ccw [[0; 0]; [1; 1]; [0; 1]; [0; 0]] = true
      \/ area_is_ccw (rev [[0; 0]; [1; 1]; [0; 1]; [0; 0]]) = false).
Proof.
  assert (Hr : discretize_path area_is_ccw line_discrete [closed_triangle]
                 clockwise_vertices [0%nat] 1
               = Ok [[0; 0]; [1; 1]; [0; 1]; [0; 0]]).
  { unfold discretize_path.
    change (np.len [0%nat] =? 0)%Z with false.
    change (np.len [0%nat] =? 1)%Z with true. cbv iota.
    rewrite getitem_head. cbn [bind].
    change (np.getitem [closed_triangle] (Z.of_nat 0))
      with (Ok closed_triangle).
    cbn [bind].
    change (line_discrete closed_triangle clockwise_vertices 1)
      with [[0; 0]; [0; 1]; [1; 1]; [0; 0]].
    unfold area_is_ccw. cbn [ring_sum].
    rewrite Rltb_false by lra. reflexivity. }
  assert (Hs : snd (shape clockwise_vertices) = 2%nat) by reflexivity.
  split; [exact Hr|]. split; [exact Hs|].
  exact (discretize_2d_orientation area_is_ccw line_discrete
           [closed_triangle] clockwise_vertices [0%nat] 1 _ Hr Hs).
Defined.

(** ** connected_open *)

Lemma mem_In (x : nat) (s : list nat) : pyset.mem x s = true <-> In x s.
Proof.
  unfold pyset.mem. rewrite existsb_exists. split.
  - intros (y & Hy & E). apply Nat.eqb_eq in E. now subst.
  - intros H. exists x. split; [exact H|apply Nat.eqb_refl].
Qed.

Lemma add_In (s : list nat) (x k : nat) :
  In k (pyset.add s x) <-> In k s \/ k = x.
Proof.
  unfold pyset.add. destruct (pyset.mem x s) eqn:E.
  - apply mem_In in E. split; [auto|]. intros [H| ->]; assumption.
  - rewrite in_app_iff. cbn [In]. intuition congruence.
Qed.

Lemma add_all_In (l : list nat) :
  forall (s : list nat) (k : nat),
    In k (fold_left pyset.add l s) <-> In k s \/ In k l.
Proof.
  induction l as [|x l IH]; intros s k; cbn [fold_left In]; [tauto|].
  rewrite IH, add_In. split; intros H; repeat destruct H as [H|H]; auto.
Qed.

Lemma of_list_In (l : list nat) (k : nat) :
  In k (pyset.of_list l) <-> In k l.
Proof. unfold pyset.of_list. rewrite add_all_In. cbn [In]. tauto. Qed.

Lemma difference_In (s t : list nat) (k : nat) :
  In k (pyset.difference s t) <-> In k s /\ ~ In k t.
Proof.
  unfold pyset.difference. rewrite filter_In, negb_true_iff.
  rewrite <- (mem_In k t). destruct (pyset.mem k t); intuition congruence.
Qed.

Lemma mark_broken_grows
    (node_connected_component : nx.Graph -> nat -> list nat)
    (graph : nx.Graph) (item : nat * nat) (broken : list nat) (k : nat) :
  In k broken -> In k (mark_broken node_connected_component graph broken item).
Proof.
  destruct item as [n d]. unfold mark_broken.
  destruct (d =? 2)%nat; [auto|]. destruct (pyset.mem n broken); [auto|].
  intros H. apply add_all_In. now left.
Qed.

Lemma loop_grows (node_connected_component : nx.Graph -> nat -> list nat)
    (graph : nx.Graph) (items : list (nat * nat)) :
  forall (broken : list nat) (k : nat),
    In k broken ->
    In k (fold_left (mark_broken node_connected_component graph)
            items broken).
Proof.
  induction items as [|item items IH]; intros broken k H; [exact H|].
  cbn [fold_left]. now apply IH, mark_broken_grows.
Qed.

Lemma loop_marks (node_connected_component : nx.Graph -> nat -> list nat)
    (graph : nx.Graph) (items : list (nat * nat)) :
  forall (broken : list nat) (n d : nat),
    In (n, d) items -> d <> 2%nat ->
    In n (node_connected_component graph n) ->
    In n (fold_left (mark_broken node_connected_component graph)
            items broken).
Proof.
  induction items as [|item items IH]; intros broken n d Hin Hd Hself;
    [destruct Hin|].
  cbn [fold_left]. destruct Hin as [->|Hin]; [|now apply (IH _ n d)].
  apply loop_grows. unfold mark_broken.
  destruct (Nat.eqb_spec d 2); [contradiction|].
  destruct (pyset.mem n broken) eqn:E; [now apply mem_In|].
  apply add_all_In. now right.
Qed.

Lemma loop_sound (node_connected_component : nx.Graph -> nat -> list nat)
    (graph : nx.Graph) (items : list (nat * nat)) :
  forall (broken : list nat) (k : nat),
    In k (fold_left (mark_broken node_connected_component graph)
            items broken) ->
    In k broken
    \/ exists n d, In (n, d) items /\ d <> 2%nat
                   /\ In k (node_connected_component graph n).
Proof.
  induction items as [|[n d] items IH]; intros broken k H; [now left|].
  cbn [fold_left] in H. apply IH in H as [H|(n' & d' & Hin & Hd & Hk)].
  - unfold mark_broken in H.
    destruct (Nat.eqb_spec d 2); [now left|].
    destruct (pyset.mem n broken); [now left|].
    apply add_all_In in H as [H|H]; [now left|].
    right. exists n, d. split; [now left|]. auto.
  - right. exists n', d'. split; [now right|]. auto.
Qed.

Lemma loop_complete (node_connected_component : nx.Graph -> nat -> list nat)
    (graph : nx.Graph) (items : list (nat * nat)) :
  (forall m n k,
      In n (node_connected_component graph m) ->
      In k (node_connected_component graph n) ->
      In k (node_connected_component graph m)) ->
  forall broken : list nat,
    (forall n k, In n broken -> In k (node_connected_component graph n) ->
                 In k broken) ->
    forall n d k,
      In (n, d) items -> d <> 2%nat ->
      In k (node_connected_component graph n) ->
      In k (fold_left (mark_broken node_connected_component graph)
              items broken).
Proof.
  intros Hclass.
  induction items as [|[n0 d0] items IH]; intros broken Hinv n d k Hin Hd Hk;
    [destruct Hin|].
  cbn [fold_left].
  assert (Hinv' : forall n k,
             In n (mark_broken node_connected_component graph broken
                     (n0, d0)) ->
             In k (node_connected_component graph n) ->
             In k (mark_broken node_connected_component graph broken
                     (n0, d0))).
  { unfold mark_broken. destruct (d0 =? 2)%nat; [exact Hinv|].
    destruct (pyset.mem n0 broken); [exact Hinv|].
    intros n' k' Hn' Hk'. apply add_all_In.
    apply add_all_In in Hn' as [Hn'|Hn']; [left; eauto|right; eauto]. }
  destruct Hin as [E|Hin]; [|now apply (IH _ Hinv' n d k)].
  injection E as -> ->. apply loop_grows. unfold mark_broken.
  destruct (Nat.eqb_spec d 2); [contradiction|].
  destruct (pyset.mem n broken) eqn:E.
  - apply mem_In in E. eauto.
  - apply add_all_In. now right.
Qed.

(** X25: [connected_open] returns as [okay] exactly the nodes of the
    graph that are not [broken]; and, when every node lies in its own
    connected component, every node whose degree is not 2 is [broken], so
    that every [okay] node has degree 2. *)
Theorem connected_open_okay (degree_items : nx.Graph -> list (nat * nat))
    (nodes : nx.Graph -> list nat)
    (node_connected_component : nx.Graph -> nat -> list nat)
    (graph : nx.Graph) :
  (forall n d, In (n, d) (degree_items graph) ->
               In n (node_connected_component graph n)) ->
  let broken :=
    fst (connected_open degree_items nodes node_connected_component graph) in
  let okay :=
    snd (connected_open degree_items nodes node_connected_component graph) in
  (forall n, In n okay <-> In n (nodes graph) /\ ~ In n broken)
  /\ (forall n d, In (n, d) (degree_items graph) -> d <> 2%nat ->
                  In n broken)
  /\ (forall n d, In n okay -> In (n, d) (degree_items graph) -> d = 2%nat).
Proof.
  intros Hself broken okay.
  assert (Ho : forall n, In n okay <-> In n (nodes graph) /\ ~ In n broken).
  { intros n. subst okay broken. unfold connected_open. cbn [fst snd].
    now rewrite difference_In, of_list_In. }
  assert (Hb : forall n d, In (n, d) (degree_items graph) -> d <> 2%nat ->
                           In n broken).
  { intros n d Hin Hd. subst broken. unfold connected_open. cbn [fst].
    apply (loop_marks _ _ _ _ n d); eauto. }
  split; [exact Ho|]. split; [exact Hb|].
  intros n d Hn Hin. apply Ho in Hn as [_ Hn].
  destruct (Nat.eq_dec d 2) as [E|E]; [exact E|].
  exfalso. apply Hn. now apply (Hb n d).
Qed.

Lemma connected_open_okay_witness :
  (forall n d, In (n, d) (sample_degree []) -> In n (sample_component [] n))
  /\ connected_open sample_degree sample_nodes sample_component []
     = ([0; 1; 2]%nat, [3; 4; 5]%nat)
  /\ forall n d,
       In n (snd (connected_open sample_degree sample_nodes
                    sample_component [])) ->
       In (n, d) (sample_degree []) -> d = 2%nat.
Proof.
  assert (Hself : forall n d, In (n, d) (sample_degree []) ->
                              In n (sample_component [] n)).
  { intros n d H. cbn in H.
    repeat (destruct H as [H|H]; [injection H as <- <-; cbn; tauto|]).
    destruct H. }
  split; [exact Hself|]. split; [reflexivity|].
  exact (proj2 (proj2 (connected_open_okay sample_degree sample_nodes
                         sample_component [] Hself))).
Defined.

(** X26: when connected components are classes (the component of a node
    of a component lies within that component), [broken] holds exactly the
    nodes of the components of the nodes whose degree is not 2. *)
Theorem connected_open_broken (degree_items : nx.Graph -> list (nat * nat))
    (nodes : nx.Graph -> list nat)
    (node_connected_component : nx.Graph -> nat -> list nat)
    (graph : nx.Graph) :
  (forall m n k,
      In n (node_connected_component graph m) ->
      In k (node_connected_component graph n) ->
      In k (node_connected_component graph m)) ->
  forall k,
    In k (fst (connected_open degree_items nodes node_connected_component
                 graph))
    <-> exists n d, In (n, d) (degree_items graph) /\ d <> 2%nat
                    /\ In k (node_connected_component graph n).
Proof.
  intros Hclass k. unfold connected_open. cbn [fst]. split.
  - intros H. apply loop_sound in H as [[]|H]. exact H.
  - intros (n & d & Hin & Hd & Hk).
    apply (loop_complete _ _ _ Hclass [] (fun _ _ H => match H with end)
             n d k Hin Hd Hk).
Qed.

Lemma connected_open_broken_witness :
  (forall m n k,
      In n (sample_component [] m) -> In k (sample_component [] n) ->
      In k (sample_component [] m))
  /\ (In 1%nat (fst (connected_open sample_degree sample_nodes
                       sample_component []))
      <-> exists n d, In (n, d) (sample_degree []) /\ d <> 2%nat
                      /\ In 1%nat (sample_component [] n)).
Proof.
  assert (Hclass : forall m n k,
             In n (sample_component [] m) -> In k (sample_component [] n) ->
             In k (sample_component [] m)).
  { intros m n k. unfold sample_component.
    destruct (m <? 3)%nat; cbn [In]; intros Hn;
      repeat (destruct Hn as [Hn|Hn]; [subst n; cbn; tauto|]);
      destruct Hn. }
  split; [exact Hclass|].
  exact (connected_open_broken sample_degree sample_nodes sample_component
           [] Hclass 1%nat).
Defined.
